(** * Verification of the MTG deck legality checker and proof-sheet plotter

    A shallow embedding of [checker.py] (class [DeckChecker]),
    [plotter.py] (function [plot_deck_async]) and, of [main.py], the
    reader of the deck file and the prompt for the paper size.

    - Python values that come back from the catalog service are JSON values
      ([json]); method calls on them follow Python's dynamic typing and raise
      the exception Python raises ([result], [exn]).
    - Python [int] is [Z]; Python [float] is the IEEE binary64 type [float].
    - The violation list [self.reasons] is threaded explicitly.
    - The tasks started by [asyncio.gather] are a labelled transition system
      whose labels are the events of the event loop: a permit is granted, a
      sleep elapses, a response arrives.
    - The text of the deck file and the lines of the standard input are
      given; [read_deckfile] and [ask_dimensions] return or raise
      ([Main.outcome]).  *)

From Stdlib Require Import ZArith String Ascii DecimalString DecimalZ
  DecimalPos Floats.
From stdpp Require Import gmap strings list.

#[local] Set Warnings "-register-all".
#[local] Open Scope Z_scope.

(* ================================================================== *)
(** * Python values and builtins *)
(* ================================================================== *)

Module Py.

(** The exceptions the modelled code can raise.  [ClientError] stands for
    whatever the HTTP client or the image decoder raises; it carries
    [str(e)]. *)
Inductive exn : Type :=
  | AttributeError
  | TypeError
  | KeyError
  | ValueError
  | ZeroDivisionError
  | OverflowError
  | ClientError (msg : string).

(** A Python computation either returns or raises. *)
Inductive result (A : Type) : Type :=
  | Ok (a : A)
  | Raise (e : exn).
Arguments Ok {A} a.
Arguments Raise {A} e.

#[global] Instance result_ret : MRet result := λ A a, Ok a.
#[global] Instance result_bind : MBind result :=
  λ A B f m, match m with Ok a => f a | Raise e => Raise e end.

#[global] Instance result_fmap : FMap result :=
  λ A B f m, match m with Ok a => Ok (f a) | Raise e => Raise e end.

(** What [json.loads] / [response.json()] can return. *)
Inductive json : Type :=
  | JNull
  | JBool (b : bool)
  | JInt (z : Z)
  | JFloat (f : float)
  | JStr (s : string)
  | JArr (l : list json)
  | JObj (m : gmap string json).

(** Truth value of an object in a condition ([if x:], [not x]). *)
Definition truthy (v : json) : bool :=
  match v with
  | JNull => false
  | JBool b => b
  | JInt z => negb (z =? 0)
  | JFloat f => negb (PrimFloat.eqb f 0%float)
  | JStr s => negb (String.eqb s "")
  | JArr l => match l with [] => false | _ => true end
  | JObj m => negb (bool_decide (m = ∅))
  end.

(** [v == s] for a string literal [s]. *)
Definition eq_str (v : json) (s : string) : bool :=
  match v with JStr s' => String.eqb s' s | _ => false end.

(** [v.get(k, default)]: only a dict has the method. *)
Definition get (v : json) (k : string) (dflt : json) : result json :=
  match v with
  | JObj m => Ok (default dflt (m !! k))
  | _ => Raise AttributeError
  end.

(** [v[k]] for a string key [k]. *)
Definition getitem (v : json) (k : string) : result json :=
  match v with
  | JObj m => match m !! k with Some x => Ok x | None => Raise KeyError end
  | _ => Raise TypeError
  end.

(** [s.replace(old, new)] for one-character [old] and [new]. *)
Fixpoint str_replace (old new : ascii) (s : string) : string :=
  match s with
  | EmptyString => EmptyString
  | String c s' =>
      String (if Ascii.eqb c old then new else c) (str_replace old new s')
  end.

(** [v.replace(old, new)]: only a str has the method. *)
Definition replace (v : json) (old new : ascii) : result string :=
  match v with
  | JStr s => Ok (str_replace old new s)
  | _ => Raise AttributeError
  end.

(** [v.startswith(p)]: only a str has the method. *)
Definition startswith (v : json) (p : string) : result bool :=
  match v with
  | JStr s => Ok (String.prefix p s)
  | _ => Raise AttributeError
  end.

(** [needle in v] for a string [needle]: substring of a str, element of a
    list, key of a dict; anything else is not iterable. *)
Definition contains (needle : string) (v : json) : result bool :=
  match v with
  | JStr s => Ok (bool_decide (is_Some (String.index 0 needle s)))
  | JArr l => Ok (existsb (λ x, eq_str x needle) l)
  | JObj m => Ok (bool_decide (is_Some (m !! needle)))
  | _ => Raise TypeError
  end.

(** The characters of a str, each a str of length one. *)
Fixpoint chars (s : string) : list json :=
  match s with
  | EmptyString => []
  | String c s' => JStr (String c EmptyString) :: chars s'
  end.

(** The elements [for x in v] visits. *)
Definition iter (v : json) : result (list json) :=
  match v with
  | JArr l => Ok l
  | JStr s => Ok (chars s)
  | JObj m => Ok ((λ kv, JStr kv.1) <$> map_to_list m)
  | _ => Raise TypeError
  end.

(** [str(n)] for an int. *)
Definition str_of_int (n : Z) : string := NilZero.string_of_int (Z.to_int n).

(** [sep.join(l)]. *)
Definition join (sep : string) (l : list string) : string := String.concat sep l.

(** The line feed character and "\n". *)
Definition LF : ascii := Ascii.ascii_of_nat 10.
Definition newline : string := String LF EmptyString.

(** [float(n)] for an int: the nearest binary64 value, ties to even;
    [OverflowError] when it is out of range. *)
Definition float_of_int (n : Z) : result float :=
  let f := SF2Prim (binary_normalize prec emax n 0 false) in
  if PrimFloat.is_infinity f then Raise OverflowError else Ok f.

End Py.
Import Py.

(* ================================================================== *)
(** * The deck *)
(* ================================================================== *)

(** One entry of the deck list, [{"cardname": ..., "quantity": ...}], as
    [read_deckfile] builds it. *)
Record card : Type := Card { cardname : string; quantity : Z }.

(** [{"maindeck": [...], "sidedeck": [...]}]. *)
Record deck : Type := Deck { maindeck : list card; sidedeck : list card }.

(** [deck["maindeck"] + deck["sidedeck"]]. *)
Definition all_cards (d : deck) : list card := maindeck d ++ sidedeck d.

(** [sum(c["quantity"] for c in cards)]. *)
Definition total_quantity (cards : list card) : Z :=
  fold_left (λ acc c, acc + quantity c) cards 0.

(* ================================================================== *)
(** * checker.py : class DeckChecker *)
(* ================================================================== *)

Module DeckChecker.

Definition UNLIMITED_CARDS : gset string :=
  {[ "Persistent Petitioners"; "Rat Colony"; "Relentless Rats";
     "Shadowborn Apostle"; "Dragon's Approach" ]}.

Definition SPECIAL_LIMIT_CARDS : gmap string Z := {[ "Seven Dwarves" := 7 ]}.

(** [SCRYFALL_DELAY = 0.1] seconds, in milliseconds. *)
Definition SCRYFALL_DELAY : Z := 100.

(** The initial value of [_rate_limit_semaphore]. *)
Definition SEMAPHORE_PERMITS : Z := 10.

(** ** check_deck_size *)

Definition commander_main_msg (n : Z) : string :=
  "Commander deck has " +:+ str_of_int n +:+ "/99 cards".
Definition commander_side_msg (n : Z) : string :=
  "Has " +:+ str_of_int n +:+ " commanders (needs 1)".
Definition maindeck_msg (n : Z) : string :=
  "Maindeck has " +:+ str_of_int n +:+ "/60 cards".
Definition sideboard_msg (n : Z) : string :=
  "Sideboard has " +:+ str_of_int n +:+ "/15 cards".

Definition check_deck_size (d : deck) (format : string)
    (reasons : list string) : list string :=
  let main_count := total_quantity (maindeck d) in
  let side_count := total_quantity (sidedeck d) in
  if String.eqb format "commander" then
    let reasons :=
      if negb (main_count =? 99)
      then reasons ++ [commander_main_msg main_count] else reasons in
    if negb (side_count =? 1)
    then reasons ++ [commander_side_msg side_count] else reasons
  else
    let reasons :=
      if main_count <? 60
      then reasons ++ [maindeck_msg main_count] else reasons in
    if side_count >? 15
    then reasons ++ [sideboard_msg side_count] else reasons.

(** ** _fetch_card_data *)

(** What the awaited GET produces: a decoded body, or an exception [e]
    (from [session.get], [raise_for_status] or [response.json()]) of which
    the code uses [str(e)]. *)
Inductive response : Type :=
  | Fetched (body : json)
  | Failed (err : string).

Definition error_msg (card_name err : string) : string :=
  "Error checking " +:+ card_name +:+ ": " +:+ err.

(** The part of [_fetch_card_data] that runs once the response is there:
    the [return] of the [try] or the [except] clause. *)
Definition _fetch_card_data (card_name : string) (r : response)
    (reasons : list string) : json * list string :=
  match r with
  | Fetched body => (body, reasons)
  | Failed err => (JObj ∅, reasons ++ [error_msg card_name err])
  end.

(** ** _check_card *)

Definition legality_msg (card_name status format : string) : string :=
  card_name +:+ " is " +:+ status +:+ " in " +:+ format.
Definition too_many_msg (card_name : string) (limit : Z) : string :=
  "Too many " +:+ card_name +:+ " (max " +:+ str_of_int limit +:+ ")".

(** [# Check format legality] *)
Definition check_legality (format card_name : string) (card_data : json)
    (reasons : list string) : result (list string) :=
  legalities ← get card_data "legalities" (JObj ∅);
  legality ← get legalities format JNull;
  if negb (eq_str legality "legal") then
    status ← (if truthy legality then replace legality "_" " "
              else Ok "not found"%string);
    Ok (reasons ++ [legality_msg card_name status format])
  else Ok reasons.

(** [# Check quantity limits] *)
Definition check_quantity (card_name : string) (qty : Z) (card_data : json)
    (reasons : list string) : result (list string) :=
  match SPECIAL_LIMIT_CARDS !! card_name with
  | Some limit =>
      if qty >? limit
      then Ok (reasons ++ [too_many_msg card_name limit])
      else Ok reasons
  | None =>
      if bool_decide (card_name ∈ UNLIMITED_CARDS) then Ok reasons
      else
        type_line ← get card_data "type_line" (JStr "");
        basic ← startswith type_line "Basic";
        if negb basic && (qty >? 4)
        then Ok (reasons ++ [too_many_msg card_name 4])
        else Ok reasons
  end.

(** The part of [_check_card] that runs once the response is there. *)
Definition _check_card (format card_name : string) (qty : Z) (r : response)
    (reasons : list string) : result (list string) :=
  let '(card_data, reasons) := _fetch_card_data card_name r reasons in
  if negb (truthy card_data) then Ok reasons
  else
    reasons ← check_legality format card_name card_data reasons;
    check_quantity card_name qty card_data reasons.

(** The messages one card contributes, on an empty list. *)
Definition card_messages (format : string) (c : card) (r : response)
    : result (list string) :=
  _check_card format (cardname c) (quantity c) r [].

(** ** check_all_cards: the tasks of [asyncio.gather]

    Each task runs [_check_card] and suspends at three places: entering
    [async with self._rate_limit_semaphore] (when no permit is free),
    [asyncio.sleep(SCRYFALL_DELAY)], and the GET.  Between suspensions a
    task runs alone, so a task is in one of four phases. *)
Inductive phase : Type :=
  | Pending                         (* before the semaphore *)
  | Sleeping (acquired : Z)         (* holds a permit, in asyncio.sleep *)
  | InFlight (acquired sent : Z)    (* holds a permit, request sent *)
  | Finished.                       (* permit released, task returned *)

(** The checker during [check_all_cards]: [self.reasons], the value of
    the semaphore, one phase per task (in the order of [tasks]), the clock
    of the event loop in milliseconds, and the exception [gather] re-raises,
    if a task raised. *)
Record state : Type := State {
  reasons : list string;
  permits : Z;
  phases : list phase;
  now : Z;
  raised : option exn
}.

(** What the event loop does next: resume task [i] with a permit, resume
    it after its sleep, deliver the response [r] to it, or let time pass.
    The semaphore of asyncio serves its waiters in the order they came;
    here any pending task may take a free permit, which allows that order
    and more.  The order in which the responses arrive is the network's. *)
Inductive event : Type :=
  | Acquire (i : nat)
  | Wake (i : nat)
  | Respond (i : nat) (r : response)
  | Tick (dt : Z).

Definition holds_permit (p : phase) : bool :=
  match p with Sleeping _ | InFlight _ _ => true | _ => false end.
Definition in_flight (p : phase) : bool :=
  match p with InFlight _ _ => true | _ => false end.
Definition finished (p : phase) : bool :=
  match p with Finished => true | _ => false end.

Section Tasks.
Variable format : string.
Variable cards : list card.

(** One step of the event loop; [None] when the event cannot happen in
    this state.  Once a task has raised, [gather] has raised in
    [run_checks] and the run is over. *)
Definition step (ev : event) (st : state) : option state :=
  match raised st with
  | Some _ => None
  | None =>
    match ev with
    | Acquire i =>
        match phases st !! i with
        | Some Pending =>
            if 0 <? permits st then
              Some (State (reasons st) (permits st - 1)
                      (<[i := Sleeping (now st)]> (phases st))
                      (now st) None)
            else None
        | _ => None
        end
    | Wake i =>
        match phases st !! i with
        | Some (Sleeping acquired) =>
            if acquired + SCRYFALL_DELAY <=? now st then
              Some (State (reasons st) (permits st)
                      (<[i := InFlight acquired (now st)]> (phases st))
                      (now st) None)
            else None
        | _ => None
        end
    | Respond i r =>
        match phases st !! i, cards !! i with
        | Some (InFlight _ _), Some c =>
            let phases' := <[i := Finished]> (phases st) in
            match _check_card format (cardname c) (quantity c) r (reasons st) with
            | Ok reasons' =>
                Some (State reasons' (permits st + 1) phases' (now st) None)
            | Raise e =>
                Some (State (reasons st) (permits st + 1) phases' (now st) (Some e))
            end
        | _, _ => None
        end
    | Tick dt =>
        if 0 <=? dt then
          Some (State (reasons st) (permits st) (phases st) (now st + dt) None)
        else None
    end
  end.

(** A schedule: the events in the order the loop runs them. *)
Fixpoint run (evs : list event) (st : state) : option state :=
  match evs with
  | [] => Some st
  | ev :: evs' => match step ev st with
                  | Some st' => run evs' st'
                  | None => None
                  end
  end.
End Tasks.

(** The responses of a schedule, with their tasks, in arrival order. *)
Definition arrivals (evs : list event) : list (nat * response) :=
  omap (λ ev, match ev with Respond i r => Some (i, r) | _ => None end) evs.

(** The state in which [check_all_cards] creates its tasks, at time [t0]. *)
Definition started (d : deck) (format : string) (t0 : Z) : state :=
  State (check_deck_size d format []) SEMAPHORE_PERMITS
        (replicate (length (all_cards d)) Pending) t0 None.

Definition all_finished (st : state) : bool := forallb finished (phases st).

(** [check_all_cards] under the schedule [evs]. *)
Definition check_all_cards (d : deck) (format : string) (t0 : Z)
    (evs : list event) : option state :=
  run format (all_cards d) evs (started d format t0).

(** The last line of [run_checks]. *)
Definition report (format : string) (reasons : list string) : string :=
  match reasons with
  | [] => "Legal in " +:+ format
  | _ => join newline reasons
  end.

(** ** run_checks

    [None]: [evs] is not a complete run of the event loop.  Otherwise what
    [run_checks] returns or raises under that schedule. *)
Definition run_checks (d : deck) (format : string) (t0 : Z)
    (evs : list event) : option (result string) :=
  match check_all_cards d format t0 evs with
  | None => None
  | Some st =>
      match raised st with
      | Some e => Some (Raise e)
      | None =>
          if all_finished st then Some (Ok (report format (reasons st)))
          else None
      end
  end.

(** The schedule in which the responses arrive one task after the other,
    in the order of the deck; [resp i] is the response to task [i]. *)
Definition in_turn (resp : nat → response) (i : nat) : list event :=
  [Acquire i; Tick SCRYFALL_DELAY; Wake i; Respond i (resp i)].
Definition sequential (resp : nat → response) (n : nat) : list event :=
  flat_map (in_turn resp) (seq 0 n).

End DeckChecker.

(* ================================================================== *)
(** * plotter.py : plot_deck_async *)
(* ================================================================== *)

Module Plotter.

(** [int(x)] for a float: truncation towards zero (0 where Python raises,
    on an infinity or a NaN; not used there). *)
Definition int_of_float (x : float) : Z :=
  match Prim2SF x with
  | S754_finite s m e =>
      let v := if 0 <=? e then Z.pos m * 2 ^ e else Z.pos m / 2 ^ (- e) in
      if s then - v else v
  | _ => 0
  end.

Definition PPI : Z := 300.

(** [(int(2.5 * PPI), int(3.5 * PPI))]. *)
Definition MTG_CARD_SIZE : Z * Z :=
  (int_of_float (2.5 * SF2Prim (binary_normalize prec emax PPI 0 false)),
   int_of_float (3.5 * SF2Prim (binary_normalize prec emax PPI 0 false))).

Definition BASE_DIR : string := "Decks".

(** [a // b] and [a % b] on ints. *)
Definition floordiv (a b : Z) : result Z :=
  if b =? 0 then Raise ZeroDivisionError else Ok (a / b).
Definition modulo (a b : Z) : result Z :=
  if b =? 0 then Raise ZeroDivisionError else Ok (a mod b).

(** [float(v)]. *)
Definition float_of (float_of_str : string → result float) (v : json)
    : result float :=
  match v with
  | JStr s => float_of_str s
  | JInt n => float_of_int n
  | JFloat f => Ok f
  | JBool b => Ok (if b then 1%float else 0%float)
  | _ => Raise TypeError
  end.

(** Whether [v * n] is defined for an int [n]: a number is multiplied, a
    str or a list repeated; [None] and a dict have no product.  (That a
    repetition can be too long for an index or for the memory is left
    out: what is proved of a render is proved of one that returns, or of
    quantities of bounded size.) *)
Definition mul_int (v : json) (n : Z) : result unit :=
  match v with
  | JNull | JObj _ => Raise TypeError
  | JFloat _ => _ ← float_of_int n; Ok ()
  | _ => Ok ()
  end.

Section Render.
(** The world outside: decoded images, the catalog's answer to
    [fetch_card_data], the result of [fetch_image] on a URL value, and
    the builtins [float] (on a str) and [round(_, 2)]. *)
Variable image : Type.
Variable fetch_card_data : string → result json.
Variable fetch_image : json → result image.
Variable float_of_str : string → result float.
Variable round2 : float → float.

(** A canvas: its size and what was pasted on it, first paste first.
    Every pasted image has been resized to [MTG_CARD_SIZE]. *)
Record canvas : Type := Canvas {
  size : Z * Z;
  pasted : list (image * (Z * Z))
}.

(** [Image.new('RGBA', size, white)]; Pillow refuses a negative side.
    That it also refuses a side too large for it or for the memory is
    left out: what is proved of a render is proved of one that returns,
    or of a page of bounded size. *)
Definition Image_new (sz : Z * Z) : result canvas :=
  if (sz.1 <? 0) || (sz.2 <? 0) then Raise ValueError
  else Ok (Canvas sz []).

(** [canvas.paste(img.resize(MTG_CARD_SIZE), (x, y))]. *)
Definition paste (cv : canvas) (img : image) (xy : Z * Z) : canvas :=
  Canvas (size cv) (pasted cv ++ [(img, xy)]).

(** The local variables of the loop, and the files written so far. *)
Record locals : Type := Locals {
  the_canvas : canvas;
  card_count : Z;
  page_count : Z;
  deck_price : float;
  saved : list (string * canvas)
}.

(** [f"{deck_name}_{page_count}.png"]. *)
Definition page_name (deck_name : string) (page : Z) : string :=
  deck_name +:+ "_" +:+ str_of_int page +:+ ".png".

Section Loop.
Variables (width height gap : Z) (deck_name : string) (basic : bool).
Variables (cards_per_row max_cards : Z).

(** The body of [for _ in range(quantity)]. *)
Definition place (img : image) (st : locals) : result locals :=
  q ← floordiv (card_count st) cards_per_row;
  let x := 50 + q * (MTG_CARD_SIZE.1 + gap) in
  r ← modulo (card_count st) cards_per_row;
  let y := 50 + r * (MTG_CARD_SIZE.2 + gap) in
  let cv := paste (the_canvas st) img (x, y) in
  let count := card_count st + 1 in
  if count =? max_cards then
    fresh ← Image_new (width, height);
    Ok (Locals fresh 0 (page_count st + 1) (deck_price st)
          (saved st ++ [(page_name deck_name (page_count st), cv)]))
  else
    Ok (Locals cv count (page_count st) (deck_price st) (saved st)).

(** [for _ in range(quantity): ...] with [n] iterations left. *)
Fixpoint place_copies (n : nat) (img : image) (st : locals)
    : result locals :=
  match n with
  | O => Ok st
  | S n' => st' ← place img st; place_copies n' img st'
  end.

(** [for img in images: for _ in range(quantity): ...]. *)
Fixpoint place_images (imgs : list image) (qty : Z) (st : locals)
    : result locals :=
  match imgs with
  | [] => Ok st
  | img :: imgs' =>
      st' ← place_copies (Z.to_nat qty) img st;
      place_images imgs' qty st'
  end.

(** The URLs collected in [card_faces]. *)
Definition face_urls (response : json) : result (list json) :=
  has ← contains "image_uris" response;
  if negb (has : bool) then
    faces ← get response "card_faces" (JArr []);
    faces ← iter faces;
    mapM (λ face : json,
            uris ← getitem face "image_uris"; getitem uris "large")
         faces
  else
    uris ← getitem response "image_uris";
    large ← getitem uris "large";
    Ok [large].

(** The body of [for card in deck['maindeck'] + deck['sidedeck']]. *)
Definition process_card (c : card) (st : locals) : result locals :=
  response ← fetch_card_data (cardname c);
  prices ← get response "prices" (JObj ∅);
  price ← get prices "usd" JNull;
  st ← (if truthy price then
          p ← float_of float_of_str price;
          q ← float_of_int (quantity c);
          Ok (Locals (the_canvas st) (card_count st) (page_count st)
                (deck_price st + p * q)%float (saved st))
        else Ok st);
  skip ← (if negb basic then
            type_line ← get response "type_line" (JStr "");
            contains "Basic Land" type_line
          else Ok false);
  if (skip : bool) then Ok st
  else
    card_faces ← face_urls response;
    _ ← mul_int price (quantity c);                 (* print(f"total: ...") *)
    imgs ← mapM fetch_image card_faces;
    place_images imgs (quantity c) st.

Fixpoint process_cards (cs : list card) (st : locals) : result locals :=
  match cs with
  | [] => Ok st
  | c :: cs' => st' ← process_card c st; process_cards cs' st'
  end.
End Loop.

(** What a finished render leaves: the files written, in order, and the
    returned pair. *)
Record rendered : Type := Rendered {
  files : list (string * canvas);
  message : string;
  total_price : float
}.

(** [deck_name] is [Path(deck_path).stem]. *)
Definition plot_deck_async (d : deck) (basic : bool) (dimensions : Z * Z)
    (deck_name : string) (gap : Z) : result rendered :=
  let '(width, height) := dimensions in
  cards_per_row ← floordiv (width - 100) (MTG_CARD_SIZE.1 + gap);
  cards_per_col ← floordiv (height - 100) (MTG_CARD_SIZE.2 + gap);
  let max_cards := cards_per_row * cards_per_col in
  cv ← Image_new (width, height);
  st ← process_cards width height gap deck_name basic cards_per_row max_cards
         (all_cards d) (Locals cv 0 1 0%float []);
  let saved :=
    if card_count st >? 1
    then saved st ++ [(page_name deck_name (page_count st), the_canvas st)]
    else saved st in
  Ok (Rendered saved
        ("Deck saved to " +:+ BASE_DIR +:+ "/" +:+ deck_name)
        (round2 (deck_price st))).
End Render.

Arguments Canvas {image} size pasted.
Arguments size {image} c.
Arguments pasted {image} c.
Arguments Locals {image}.
Arguments the_canvas {image} l.
Arguments card_count {image} l.
Arguments page_count {image} l.
Arguments deck_price {image} l.
Arguments saved {image} l.
Arguments Rendered {image}.
Arguments files {image} r.
Arguments message {image} r.
Arguments total_price {image} r.
Arguments Image_new {image} sz.
Arguments paste {image} cv img xy.

End Plotter.

(* ================================================================== *)
(** * The data model of the catalog's answers *)
(* ================================================================== *)

(** A card object as the catalog documents it, as far as the checker reads
    it: an object whose ["legalities"], when present, is an object with a
    string (or nothing) for the format, and whose ["type_line"], when
    present, is a string. *)
Definition typed (format : string) (body : json) : bool :=
  match body with
  | JObj m =>
      match m !! "legalities" with
      | None => true
      | Some (JObj lm) =>
          match lm !! format with
          | None | Some (JStr _) => true
          | _ => false
          end
      | _ => false
      end
      && match m !! "type_line" with
         | None | Some (JStr _) => true
         | _ => false
         end
  | _ => false
  end.

(** [metadata.legalities[format]], when there is one. *)
Definition status (format : string) (m : gmap string json) : option string :=
  match m !! "legalities" with
  | Some (JObj lm) =>
      match lm !! format with Some (JStr s) => Some s | _ => None end
  | _ => None
  end.

(** [metadata.type_line], empty when there is none. *)
Definition type_line (m : gmap string json) : string :=
  match m !! "type_line" with Some (JStr s) => s | _ => "" end.

(** The format-legality violation of a card: none when the status is
    "legal", "not found" for a missing or empty status, and otherwise the
    status with its underscores as spaces. *)
Definition legality_violation (format card_name : string)
    (m : gmap string json) : list string :=
  match status format m with
  | None => [DeckChecker.legality_msg card_name "not found" format]
  | Some s =>
      if decide (s = "legal") then []
      else if decide (s = "") then
        [DeckChecker.legality_msg card_name "not found" format]
      else
        [DeckChecker.legality_msg card_name (str_replace "_" " " s) format]
  end.

(** The names the quantity rule lets through without a limit. *)
Definition allowlist : list string :=
  [ "Persistent Petitioners"; "Rat Colony"; "Relentless Rats";
    "Shadowborn Apostle"; "Dragon's Approach" ].

(** The quantity violation of a card, in the precedence of the rule. *)
Definition quantity_violation (card_name : string) (qty : Z)
    (m : gmap string json) : list string :=
  if decide (card_name = "Seven Dwarves") then
    if decide (7 < qty) then [DeckChecker.too_many_msg card_name 7] else []
  else if decide (card_name ∈ allowlist) then []
  else if String.prefix "Basic" (type_line m) then []
  else if decide (4 < qty) then [DeckChecker.too_many_msg card_name 4] else [].

(** What one card adds to the violation list, given the response to its
    request. *)
Definition messages (format : string) (c : card)
    (r : DeckChecker.response) : list string :=
  match r with
  | DeckChecker.Failed err => [DeckChecker.error_msg (cardname c) err]
  | DeckChecker.Fetched (JObj m) =>
      if decide (m = ∅) then []
      else legality_violation format (cardname c) m
           ++ quantity_violation (cardname c) (quantity c) m
  | DeckChecker.Fetched _ => []
  end.

(** A response the checker can evaluate: a failure, a body that counts
    as no metadata ([not card_data]), or a typed card object. *)
Definition evaluable (format : string) (r : DeckChecker.response) : bool :=
  match r with
  | DeckChecker.Failed _ => true
  | DeckChecker.Fetched body =>
      if truthy body then typed format body else true
  end.

(** The messages the cards add in the order [arr] in which their
    responses arrive. *)
Definition gathered (format : string) (cards : list card)
    (arr : list (nat * DeckChecker.response)) : list string :=
  flat_map (λ a, match cards !! a.1 with
                 | Some c => messages format c a.2
                 | None => []
                 end) arr.

(** The messages of the cards in the order of the deck, the k-th card
    getting the k-th response of [rs]. *)
Definition in_deck_order (format : string) (cards : list card)
    (rs : list DeckChecker.response) : list string :=
  mjoin (zip_with (messages format) cards rs).

(** How many tasks are in a phase that satisfies [f]. *)
Fixpoint census (f : DeckChecker.phase → bool)
    (l : list DeckChecker.phase) : Z :=
  match l with
  | [] => 0
  | p :: l' => (if f p then 1 else 0) + census f l'
  end.

(** What the semaphore and the sleep maintain: the permits out plus the
    permits left are the ten of the semaphore, and a request was sent no
    sooner than [SCRYFALL_DELAY] after its task got the permit. *)
Definition rate_limited (st : DeckChecker.state) : Prop :=
  0 ≤ DeckChecker.permits st
  ∧ DeckChecker.permits st
    + census DeckChecker.holds_permit (DeckChecker.phases st)
    = DeckChecker.SEMAPHORE_PERMITS
  ∧ ∀ i acquired sent,
      DeckChecker.phases st !! i = Some (DeckChecker.InFlight acquired sent) →
      acquired + DeckChecker.SCRYFALL_DELAY ≤ sent.

(** The tasks before [k] have finished, the others have not started, and
    every permit is back. *)
Definition finished_up_to (n k : nat) (st : DeckChecker.state) : Prop :=
  DeckChecker.raised st = None
  ∧ DeckChecker.permits st = DeckChecker.SEMAPHORE_PERMITS
  ∧ length (DeckChecker.phases st) = n
  ∧ (∀ j, (j < k)%nat →
       DeckChecker.phases st !! j = Some DeckChecker.Finished)
  ∧ (∀ j, (k ≤ j < n)%nat →
       DeckChecker.phases st !! j = Some DeckChecker.Pending).

(* ================================================================== *)
(** * The layout of a page *)
(* ================================================================== *)

(** Where the [i]-th image of a page goes, counting from 0: the quotient
    by the number of columns moves it right, the remainder moves it
    down. *)
Definition slot (columns gap i : Z) : Z * Z :=
  (50 + (i / columns) * (750 + gap), 50 + (i mod columns) * (1050 + gap)).

(** Every image of the canvas is in the slot of its position. *)
Definition well_placed {image : Type} (columns gap : Z)
    (cv : Plotter.canvas image) : Prop :=
  ∀ i img xy, Plotter.pasted cv !! i = Some (img, xy) →
              xy = slot columns gap (Z.of_nat i).

(** A page that was saved when it was full. *)
Definition full_page {image : Type} (dimensions : Z * Z)
    (columns gap capacity : Z) (cv : Plotter.canvas image) : Prop :=
  Plotter.size cv = dimensions
  ∧ Z.of_nat (length (Plotter.pasted cv)) = capacity
  ∧ well_placed columns gap cv.

(** The files of the pages [pages], numbered from [first]. *)
Definition numbered {image : Type} (deck_name : string) (first : Z)
    (pages : list (Plotter.canvas image))
    : list (string * Plotter.canvas image) :=
  imap (λ i cv, (Plotter.page_name deck_name (first + Z.of_nat i), cv)) pages.

(** What the loop of [plot_deck_async] maintains. *)
Definition paginated {image : Type} (dimensions : Z * Z) (deck_name : string)
    (columns gap capacity : Z) (st : Plotter.locals image) : Prop :=
  Plotter.size (Plotter.the_canvas st) = dimensions
  ∧ Plotter.card_count st
    = Z.of_nat (length (Plotter.pasted (Plotter.the_canvas st)))
  ∧ well_placed columns gap (Plotter.the_canvas st)
  ∧ (1 ≤ capacity → Plotter.card_count st < capacity)
  ∧ ∃ pages,
      Plotter.saved st = numbered deck_name 1 pages
      ∧ Plotter.page_count st = 1 + Z.of_nat (length pages)
      ∧ Forall (full_page dimensions columns gap capacity) pages.

(** The locals with another running price. *)
Definition with_price {image : Type} (st : Plotter.locals image) (p : float)
    : Plotter.locals image :=
  Plotter.Locals (Plotter.the_canvas st) (Plotter.card_count st)
    (Plotter.page_count st) p (Plotter.saved st).

(** The locals on entry to the loop. *)
Definition first_page {image : Type} (dimensions : Z * Z)
    : Plotter.locals image :=
  Plotter.Locals (Plotter.Canvas dimensions []) 0 1 0%float [].

(** A small catalog for the examples: images are named by their URL. *)
Module Sample.
Definition image : Type := string.

Definition card_object (usd : json) (type_line url : string) : json :=
  JObj {[ "prices" := JObj {[ "usd" := usd ]};
          "type_line" := JStr type_line;
          "image_uris" := JObj {[ "large" := JStr url ]} ]}.

Definition fetch_card_data (card_name : string) : result json :=
  if String.eqb card_name "Shock"
  then Ok (card_object (JStr "1.50") "Instant" "shock.jpg")
  else if String.eqb card_name "Opt"
  then Ok (card_object JNull "Instant" "opt.jpg")
  else if String.eqb card_name "Forest"
  then Ok (card_object JNull "Basic Land - Forest" "forest.jpg")
  else Ok (JObj {[ "object" := JStr "error" ]}).

Definition fetch_image (url : json) : result image :=
  match url with
  | JStr u => Ok u
  | _ => Raise (ClientError "invalid URL")
  end.

(** [float] on the one price of the catalog. *)
Definition float_of_str (s : string) : result float :=
  if String.eqb s "1.50" then Ok 1.5%float else Raise ValueError.

(** [round(x, 2)] on a float that has no more than two decimals. *)
Definition round2 (x : float) : float := x.

Definition plot_deck_async :=
  Plotter.plot_deck_async image fetch_card_data fetch_image
    float_of_str round2.
End Sample.

(* ================================================================== *)
(** * Notions for the further properties *)
(* ================================================================== *)

(** A message that cannot open a report that reads "Legal in {format}":
    it starts with another letter, or it is longer than that line. *)
Definition unlike_legal (format v : string) : Prop :=
  (∃ c v', v = String c v' ∧ c ≠ "L"%char)
  ∨ (9 + String.length format < String.length v)%nat.

(** ** The proof sheet as a whole *)

Section Sheet.
Context {image : Type}.
Variable fetch_card_data : string → result json.
Variable fetch_image : json → result image.
Variable float_of_str : string → result float.

(** What the body of the loop of [plot_deck_async] does to [deck_price]
    for one entry: the fetch and the guarded addition. *)
Definition add_price (c : card) (total : float) : result float :=
  response ← fetch_card_data (cardname c);
  prices ← get response "prices" (JObj ∅);
  price ← get prices "usd" JNull;
  if truthy price then
    p ← Plotter.float_of float_of_str price;
    q ← float_of_int (quantity c);
    Ok (total + p * q)%float
  else Ok total.

(** [deck_price] over the entries, first entry first. *)
Fixpoint sum_prices (cs : list card) (total : float) : result float :=
  match cs with
  | [] => Ok total
  | c :: cs' => t ← add_price c total; sum_prices cs' t
  end.

(** The images the body of the loop hands to the inner loops for one
    entry, the canvas left aside: none for a basic land that is left out,
    and the downloaded faces otherwise. *)
Definition entry_images (basic : bool) (c : card) : result (list image) :=
  response ← fetch_card_data (cardname c);
  prices ← get response "prices" (JObj ∅);
  price ← get prices "usd" JNull;
  _ ← (if truthy price then
          p ← Plotter.float_of float_of_str price;
          q ← float_of_int (quantity c);
          Ok ()
        else Ok ());
  skip ← (if negb basic then
            type_line ← get response "type_line" (JStr "");
            contains "Basic Land" type_line
          else Ok false);
  if (skip : bool) then Ok []
  else
    card_faces ← Plotter.face_urls response;
    _ ← Plotter.mul_int price (quantity c);
    mapM fetch_image card_faces.

(** [for img in images: for _ in range(quantity)]: the pastes of an
    entry, in order. *)
Definition copies (qty : Z) (imgs : list image) : list image :=
  concat (replicate (Z.to_nat qty) <$> imgs).

(** The pastes of the entries, in order. *)
Fixpoint sheet (basic : bool) (cs : list card) : result (list image) :=
  match cs with
  | [] => Ok []
  | c :: cs' =>
      imgs ← entry_images basic c;
      rest ← sheet basic cs';
      Ok (copies (quantity c) imgs ++ rest)
  end.
End Sheet.

(** The images of a canvas, of a list of files, and of the files and the
    canvas of the loop, in the order of the pastes. *)
Definition images_on {image : Type} (cv : Plotter.canvas image)
    : list image :=
  (Plotter.pasted cv).*1.

Definition printed {image : Type} (fs : list (string * Plotter.canvas image))
    : list image :=
  concat ((λ f, images_on f.2) <$> fs).

Definition placed {image : Type} (st : Plotter.locals image) : list image :=
  printed (Plotter.saved st) ++ images_on (Plotter.the_canvas st).

(** Whether the last of [n] images stays alone on the trailing canvas. *)
Definition lost_image (capacity n : Z) : bool :=
  if 1 <=? capacity then n mod capacity =? 1 else n =? 1.

(** Two cards pasted at [a] and [b] do not share a pixel. *)
Definition apart (a b : Z * Z) : Prop :=
  a.1 + 750 ≤ b.1 ∨ b.1 + 750 ≤ a.1 ∨ a.2 + 1050 ≤ b.2 ∨ b.2 + 1050 ≤ a.2.

(** The canvas that holds [imgs], each in the slot of its position. *)
Definition laid_out {image : Type} (dimensions : Z * Z) (columns gap : Z)
    (imgs : list image) : Plotter.canvas image :=
  Plotter.Canvas dimensions
    (imap (λ i img, (img, slot columns gap (Z.of_nat i))) imgs).

(** A second catalog for the examples, in which the basic land has a
    price. *)
Module Shop.
Definition fetch_card_data (card_name : string) : result json :=
  if String.eqb card_name "Shock"
  then Ok (Sample.card_object (JStr "1.50") "Instant" "shock.jpg")
  else if String.eqb card_name "Forest"
  then Ok (Sample.card_object (JStr "0.25") "Basic Land - Forest"
             "forest.jpg")
  else Ok (JObj {[ "object" := JStr "error" ]}).

Definition float_of_str (s : string) : result float :=
  if String.eqb s "1.50" then Ok 1.5%float
  else if String.eqb s "0.25" then Ok 0.25%float
  else Raise ValueError.

Definition plot_deck_async :=
  Plotter.plot_deck_async Sample.image fetch_card_data Sample.fetch_image
    float_of_str Sample.round2.
End Shop.

(* ================================================================== *)
(** * main.py : read_deckfile and ask_dimensions *)
(* ================================================================== *)

(** A file is given by its bytes and a line of the standard input by its
    characters.  On ASCII text, where the text that is decoded from the
    bytes has the same characters, [str.isspace], [str.split], [int] and
    [str.capitalize] are as below; every theorem about the two functions
    has the hypothesis that the text is ASCII ([ascii_text]). *)
Module Main.

(** The exceptions of the two functions.  [OSError] stands for what
    [path.open] raises on a path that exists and cannot be opened
    ([IsADirectoryError], [PermissionError], ...), with the name of its
    class. *)
Inductive exn : Type :=
  | ValueError
  | IndexError
  | KeyError
  | OverflowError
  | EOFError
  | FileNotFoundError
  | OSError (kind : string).

Inductive outcome (A : Type) : Type :=
  | Return (a : A)
  | Throw (e : exn).
Arguments Return {A} a.
Arguments Throw {A} e.

#[global] Instance outcome_ret : MRet outcome := λ A a, Return a.
#[global] Instance outcome_bind : MBind outcome :=
  λ A B f m, match m with Return a => f a | Throw e => Throw e end.

(** ** Builtins on str *)

(** [c.isspace()] for an ASCII character: TAB, LF, VT, FF, CR, the
    separators FS, GS, RS and US, and the space. *)
Definition isspace (c : ascii) : bool :=
  let n := nat_of_ascii c in
  ((9 <=? n)%nat && (n <=? 13)%nat) || ((28 <=? n)%nat && (n <=? 32)%nat).

(** [s.lstrip()], [s.rstrip()] and [s.strip()]. *)
Fixpoint lstrip (s : string) : string :=
  match s with
  | EmptyString => EmptyString
  | String c s' => if isspace c then lstrip s' else s
  end.

Fixpoint rstrip (s : string) : string :=
  match s with
  | EmptyString => EmptyString
  | String c s' =>
      match rstrip s' with
      | EmptyString => if isspace c then EmptyString else String c EmptyString
      | r => String c r
      end
  end.

Definition strip (s : string) : string := rstrip (lstrip s).

(** [s.split()]: the maximal runs of characters that are not whitespace.
    A character that is not whitespace starts a word when whitespace or
    the end follows it, and otherwise goes in front of the first word of
    the rest. *)
Fixpoint split (s : string) : list string :=
  match s with
  | EmptyString => []
  | String c s' =>
      if isspace c then split s'
      else match split s' with
           | w :: ws =>
               match s' with
               | String c' _ =>
                   if isspace c' then String c EmptyString :: w :: ws
                   else String c w :: ws
               | EmptyString => [String c EmptyString]
               end
           | [] => [String c EmptyString]
           end
  end.

(** A decimal digit. *)
Definition digit (c : ascii) : option (Decimal.uint → Decimal.uint) :=
  (if Ascii.eqb c "0" then Some Decimal.D0
   else if Ascii.eqb c "1" then Some Decimal.D1
   else if Ascii.eqb c "2" then Some Decimal.D2
   else if Ascii.eqb c "3" then Some Decimal.D3
   else if Ascii.eqb c "4" then Some Decimal.D4
   else if Ascii.eqb c "5" then Some Decimal.D5
   else if Ascii.eqb c "6" then Some Decimal.D6
   else if Ascii.eqb c "7" then Some Decimal.D7
   else if Ascii.eqb c "8" then Some Decimal.D8
   else if Ascii.eqb c "9" then Some Decimal.D9
   else None)%char.

(** The digits of an int literal: at least one, with single underscores
    allowed between two digits. *)
Fixpoint digitpart (s : string) : option Decimal.uint :=
  match s with
  | EmptyString => None
  | String c s' =>
      match digit c with
      | None => None
      | Some d =>
          match s' with
          | EmptyString => Some (d Decimal.Nil)
          | String c' s'' =>
              if Ascii.eqb c' "_" then d <$> digitpart s''
              else d <$> digitpart s'
          end
      end
  end.

(** What is at a path: nothing ([path.exists()] is false), a file with
    its bytes, or something that [path.open] refuses, as a directory or a
    file without the permission to read it. *)
Inductive path_state : Type :=
  | Missing
  | File (text : string)
  | Unopenable (kind : string).

Section Int.
(** [sys.get_int_max_str_digits()]: 4300 by default, 0 when the limit is
    off or the interpreter has none. *)
Variable int_max_str_digits : nat.

(** [int(s)] for a str without whitespace: an optional sign and the
    digits, in base 10; more digits than the limit are refused, when
    there are more than 640. *)
Definition int (s : string) : outcome Z :=
  let '(negative, digits) :=
    match s with
    | String c s' =>
        if Ascii.eqb c "-" then (true, s')
        else if Ascii.eqb c "+" then (false, s')
        else (false, s)
    | EmptyString => (false, s)
    end in
  match digitpart digits with
  | None => Throw ValueError
  | Some d =>
      let n := Decimal.nb_digits d in
      if (640 <? n)%nat && (0 <? int_max_str_digits)%nat
         && (int_max_str_digits <? n)%nat
      then Throw ValueError
      else Return (if (negative : bool) then - Z.of_uint d else Z.of_uint d)
  end.

(** ** read_deckfile *)

(** The lines that [for line in file] yields from the text of a file
    opened in text mode: each ends where a "\n", a "\r\n" or a "\r" does,
    which is read as "\n"; what follows the last of them is a line when
    it is not empty. *)
Fixpoint lines (text : string) : list string :=
  match text with
  | EmptyString => []
  | String c text' =>
      if Ascii.eqb c LF then newline :: lines text'
      else if Ascii.eqb c (ascii_of_nat 13) then
        match text' with
        | String c' text'' =>
            if Ascii.eqb c' LF then newline :: lines text''
            else newline :: lines text'
        | EmptyString => [newline]
        end
      else match lines text' with
           | l :: ls => String c l :: ls
           | [] => [String c EmptyString]
           end
  end.

(** The local variables of the loop. *)
Record locals : Type := Locals {
  the_maindeck : list card;
  the_sidedeck : list card;
  sideboard : bool
}.

(** [parts[0]]. *)
Definition first_part (parts : list string) : outcome string :=
  match parts with
  | p :: _ => Return p
  | [] => Throw IndexError
  end.

(** The body of [for line in file]. *)
Definition read_line (line : string) (st : locals) : outcome locals :=
  let line := strip line in
  if String.eqb line "" then
    Return (Locals (the_maindeck st) (the_sidedeck st) true)
  else
    let parts := split line in
    p ← first_part parts;
    quantity ← int p;
    let card_name := join " " (tail parts) in
    if sideboard st then
      Return (Locals (the_maindeck st)
                (the_sidedeck st ++ [Card card_name quantity]) true)
    else
      Return (Locals (the_maindeck st ++ [Card card_name quantity])
                (the_sidedeck st) false).

Fixpoint read_lines (ls : list string) (st : locals) : outcome locals :=
  match ls with
  | [] => Return st
  | l :: ls' => st' ← read_line l st; read_lines ls' st'
  end.

Definition read_deckfile (files : string → path_state)
    (filename : string) : outcome deck :=
  match files filename with
  | Missing => Throw FileNotFoundError
  | Unopenable kind => Throw (OSError kind)
  | File text =>
      st ← read_lines (lines text) (Locals [] [] false);
      Return (Deck (the_maindeck st) (the_sidedeck st))
  end.
End Int.

(** ** ask_dimensions *)

(** [c.upper()] and [c.lower()] on an ASCII character. *)
Definition upper (c : ascii) : ascii :=
  let n := nat_of_ascii c in
  if (97 <=? n)%nat && (n <=? 122)%nat then ascii_of_nat (n - 32) else c.

Definition lower (c : ascii) : ascii :=
  let n := nat_of_ascii c in
  if (65 <=? n)%nat && (n <=? 90)%nat then ascii_of_nat (n + 32) else c.

Fixpoint lowercase (s : string) : string :=
  match s with
  | EmptyString => EmptyString
  | String c s' => String (lower c) (lowercase s')
  end.

(** [s.capitalize()]. *)
Definition capitalize (s : string) : string :=
  match s with
  | EmptyString => EmptyString
  | String c s' => String (upper c) (lowercase s')
  end.

(** [input()]: the next line of the standard input, without its end. *)
Definition input (stdin : list string) : outcome (string * list string) :=
  match stdin with
  | l :: rest => Return (l, rest)
  | [] => Throw EOFError
  end.

(** [int(x)] for a float. *)
Definition int_of_float (x : float) : outcome Z :=
  match Prim2SF x with
  | S754_infinity _ => Throw OverflowError
  | S754_nan => Throw ValueError
  | _ => Return (Plotter.int_of_float x)
  end.

#[local] Set Warnings "-inexact-float".

(** The sizes in centimetres; the entry of "Custom" is (0, 0) until it is
    asked for. *)
Definition paper_sizes : gmap string (float * float) :=
  {[ "Letter" := (21.6, 27.9); "A4" := (21.0, 29.7);
     "Office" := (21.6, 33.0); "Custom" := (0, 0) ]}%float.

(** [int(cm * ppi / 2.54)] with [ppi = 300]. *)
Definition pixels (cm : float) : outcome Z :=
  int_of_float (cm * 300 / 2.54)%float.

#[local] Set Warnings "inexact-float".

Section Ask.
(** [float(s)] for a str. *)
Variable float_of_str : string → outcome float.

(** The standard input is threaded through; what is printed is left
    out. *)
Definition ask_dimensions (stdin : list string)
    : outcome ((Z * Z) * list string) :=
  '(reply, stdin) ← input stdin;
  '(choice, stdin) ←
    (if negb (String.eqb (strip reply) "") then
       '(reply, stdin) ← input stdin;
       Return (capitalize reply, stdin)
     else Return ("Letter", stdin));
  let choice :=
    if bool_decide (is_Some (paper_sizes !! choice)) then choice
    else "Letter" in
  '(sizes, stdin) ←
    (if String.eqb choice "Custom" then
       '(reply, stdin) ← input stdin;
       width ← float_of_str reply;
       '(reply, stdin) ← input stdin;
       height ← float_of_str reply;
       Return (<["Custom" := (width, height)]> paper_sizes, stdin)
     else Return (paper_sizes, stdin));
  match sizes !! choice with
  | None => Throw KeyError
  | Some (width_cm, height_cm) =>
      width_px ← pixels width_cm;
      height_px ← pixels height_cm;
      Return ((width_px, height_px), stdin)
  end.
End Ask.

End Main.

(** ** Notions for the deck file *)

(** The text is ASCII: every character is below 128. *)
Fixpoint ascii_text (s : string) : bool :=
  match s with
  | EmptyString => true
  | String c s' => (nat_of_ascii c <? 128)%nat && ascii_text s'
  end.

(** A line that the loop of [read_deckfile] takes for the separator: it
    is empty once stripped. *)
Definition blank (line : string) : bool := String.eqb (Main.strip line) "".

(** The lines before the first blank line, and the lines after it that
    are not blank. *)
Fixpoint before_blank (ls : list string) : list string :=
  match ls with
  | [] => []
  | l :: ls' => if blank l then [] else l :: before_blank ls'
  end.

Fixpoint after_blank (ls : list string) : list string :=
  match ls with
  | [] => []
  | l :: ls' =>
      if blank l then List.filter (λ l, negb (blank l)) ls'
      else after_blank ls'
  end.

(** The statements of the loop of [read_deckfile] that make an entry of
    a line, on their own. *)
Definition entry (int_max_str_digits : nat) (line : string)
    : Main.outcome card :=
  let parts := Main.split line in
  p ← Main.first_part parts;
  quantity ← Main.int int_max_str_digits p;
  Main.Return (Card (join " " (tail parts)) quantity).

(** A word: not empty and without whitespace. *)
Fixpoint spaceless (s : string) : bool :=
  match s with
  | EmptyString => true
  | String c s' => negb (Main.isspace c) && spaceless s'
  end.

Definition word (w : string) : Prop := w ≠ "" ∧ spaceless w = true.

(** A name made of words with single spaces between them: splitting and
    joining gives it back. *)
Definition single_spaced (name : string) : Prop :=
  join " " (Main.split name) = name.

(** The text of a deck file: an entry a line, the quantity before the
    name, and a blank line before the sideboard. *)
Definition deck_line (c : card) : string :=
  str_of_int (quantity c) +:+ " " +:+ cardname c +:+ newline.

Fixpoint deck_lines (cs : list card) : string :=
  match cs with
  | [] => ""
  | c :: cs' => deck_line c +:+ deck_lines cs'
  end.

Definition deck_text (d : deck) : string :=
  deck_lines (maindeck d) +:+ newline +:+ deck_lines (sidedeck d).

(** Whether the replies on the standard input ask for the "Custom"
    size. *)
Definition asks_custom (stdin : list string) : bool :=
  match stdin with
  | first :: second :: _ =>
      negb (blank first) && String.eqb (Main.capitalize second) "Custom"
  | _ => false
  end.

(** ** Notions for the pace of the requests *)

(** How long a task has held its permit at time [now], counted up to the
    delay of 100 ms. *)
Definition held (now : Z) (p : DeckChecker.phase) : Z :=
  match p with
  | DeckChecker.Pending => 0
  | DeckChecker.Sleeping acquired => Z.min 100 (now - acquired)
  | DeckChecker.InFlight acquired _ => Z.min 100 (now - acquired)
  | DeckChecker.Finished => 100
  end.

Fixpoint held_total (now : Z) (l : list DeckChecker.phase) : Z :=
  match l with
  | [] => 0
  | p :: l' => held now p + held_total now l'
  end.

(** The times in a phase are possible at time [now] for tasks created at
    [t0]. *)
Definition timely (t0 now : Z) (p : DeckChecker.phase) : Prop :=
  match p with
  | DeckChecker.Pending => True
  | DeckChecker.Sleeping acquired => t0 ≤ acquired ≤ now
  | DeckChecker.InFlight acquired _ => t0 ≤ acquired ∧ acquired + 100 ≤ now
  | DeckChecker.Finished => t0 + 100 ≤ now
  end.

(** What the semaphore and the sleep do to the pace: the permits were
    held for no more than ten times the time that has passed. *)
Definition paced (t0 : Z) (st : DeckChecker.state) : Prop :=
  t0 ≤ DeckChecker.now st
  ∧ 0 ≤ DeckChecker.permits st
  ∧ DeckChecker.permits st
    + census DeckChecker.holds_permit (DeckChecker.phases st) = 10
  ∧ Forall (timely t0 (DeckChecker.now st)) (DeckChecker.phases st)
  ∧ held_total (DeckChecker.now st) (DeckChecker.phases st)
    ≤ 10 * (DeckChecker.now st - t0).

(* ================================================================== *)
(** * Theorems: the rule evaluator *)
(* ================================================================== *)

Section RuleEvaluator.
Import DeckChecker.

Lemma special_limit_lookup (name : string) :
  SPECIAL_LIMIT_CARDS !! name
  = if decide (name = "Seven Dwarves") then Some 7 else None.
Proof.
  unfold SPECIAL_LIMIT_CARDS. case_decide as Hn.
  - subst. apply lookup_singleton_eq.
  - apply lookup_singleton_ne. congruence.
Qed.

Lemma unlimited_allowlist (name : string) :
  name ∈ UNLIMITED_CARDS ↔ name ∈ allowlist.
Proof.
  unfold UNLIMITED_CARDS, allowlist.
  rewrite !elem_of_union, !elem_of_singleton, !elem_of_cons.
  rewrite elem_of_nil. tauto.
Qed.

(** The quantity block on a typed card object. *)
Lemma check_quantity_typed (name : string) (qty : Z)
    (m : gmap string json) (rs : list string) :
  match m !! "type_line" with None | Some (JStr _) => true | _ => false end
    = true →
  check_quantity name qty (JObj m) rs
  = Ok (rs ++ quantity_violation name qty m).
Proof.
  intros Htl. unfold check_quantity, quantity_violation.
  rewrite special_limit_lookup.
  destruct (decide (name = "Seven Dwarves")) as [->|Hsd].
  - destruct (Z.gtb_spec qty 7); case_decide; try lia;
      [reflexivity | by rewrite app_nil_r].
  - destruct (decide (name ∈ allowlist)) as [Hin|Hout].
    + rewrite bool_decide_eq_true_2 by (by apply unlimited_allowlist).
      by rewrite app_nil_r.
    + rewrite bool_decide_eq_false_2
        by (by rewrite unlimited_allowlist).
      unfold type_line. simpl.
      destruct (m !! "type_line") as [[]|] eqn:E; try discriminate; simpl.
      * destruct (String.prefix "Basic" s); simpl;
          [by rewrite app_nil_r|].
        destruct (Z.gtb_spec qty 4); case_decide; try lia;
          [reflexivity | by rewrite app_nil_r].
      * destruct (Z.gtb_spec qty 4); case_decide; try lia;
          [reflexivity | by rewrite app_nil_r].
Qed.

Lemma str_eqb_legal (s : string) :
  String.eqb s "legal" = bool_decide (s = "legal").
Proof.
  destruct (String.eqb_spec s "legal");
    [by rewrite bool_decide_eq_true_2 | by rewrite bool_decide_eq_false_2].
Qed.

(** The legality block on a typed card object. *)
Lemma check_legality_typed (format name : string)
    (m : gmap string json) (rs : list string) :
  typed format (JObj m) = true →
  check_legality format name (JObj m) rs
  = Ok (rs ++ legality_violation format name m).
Proof.
  intros Ht. unfold check_legality, legality_violation, status.
  simpl in Ht. apply andb_true_iff in Ht as [Hl _]. simpl.
  destruct (m !! "legalities") as [[| | | | |l|lm]|]; try discriminate; simpl.
  - destruct (lm !! format) as [[| | | |s| |]|]; try discriminate; simpl.
    + rewrite str_eqb_legal.
      destruct (decide (s = "legal")) as [->|Hs].
      * simpl. by rewrite app_nil_r.
      * rewrite bool_decide_eq_false_2 by done. simpl.
        destruct (String.eqb_spec s ""); case_decide; try congruence;
          reflexivity.
    + reflexivity.
  - rewrite lookup_empty. reflexivity.
Qed.

(** [_check_card] on a fetched, non-empty, typed card object: the
    legality violation, then the quantity violation. *)
Lemma check_card_typed (format name : string) (qty : Z)
    (m : gmap string json) (rs : list string) :
  typed format (JObj m) = true → m ≠ ∅ →
  _check_card format name qty (Fetched (JObj m)) rs
  = Ok (rs ++ legality_violation format name m
           ++ quantity_violation name qty m).
Proof.
  intros Ht Hne. unfold _check_card. simpl.
  rewrite bool_decide_eq_false_2 by done. simpl.
  rewrite check_legality_typed by done. simpl.
  rewrite check_quantity_typed.
  - by rewrite <- app_assoc.
  - simpl in Ht. by apply andb_true_iff in Ht as [_ ?].
Qed.

(** The count of [check_deck_size] is the sum of the quantities of the
    entries. *)
Lemma total_quantity_sum (cards : list card) :
  total_quantity cards = foldr (λ c n, quantity c + n) 0 cards.
Proof.
  unfold total_quantity.
  assert (∀ a, fold_left (λ acc c, acc + quantity c) cards a
               = a + foldr (λ c n, quantity c + n) 0 cards) as H.
  { induction cards as [|c cards IH]; intros a; simpl; [lia|].
    rewrite IH. lia. }
  by rewrite H.
Qed.

(** C3. The counts of [check_deck_size] are the sums of the quantities of
    the entries of the maindeck and of the sidedeck.  It appends a
    maindeck violation and then a sideboard violation, each on a
    condition of its own: for "commander" the maindeck total differs
    from 99, the sidedeck total differs from 1; for any other format the
    maindeck total is below 60, the sidedeck total is above 15.  Each
    message reports the actual count. *)
Theorem check_deck_size_spec (d : deck) (format : string)
    (rs : list string) :
  let main_count := foldr (λ c n, quantity c + n) 0 (maindeck d) in
  let side_count := foldr (λ c n, quantity c + n) 0 (sidedeck d) in
  total_quantity (maindeck d) = main_count
  ∧ total_quantity (sidedeck d) = side_count
  ∧ ∃ main_v side_v : list string,
      check_deck_size d format rs = rs ++ main_v ++ side_v
      ∧ (format = "commander" →
           (main_v = if decide (main_count ≠ 99)
                     then ["Commander deck has " +:+ str_of_int main_count
                           +:+ "/99 cards"]
                     else [])
           ∧ (side_v = if decide (side_count ≠ 1)
                       then ["Has " +:+ str_of_int side_count
                             +:+ " commanders (needs 1)"]
                       else [])
           ∧ (main_v ≠ [] ↔ main_count ≠ 99)
           ∧ (side_v ≠ [] ↔ side_count ≠ 1))
      ∧ (format ≠ "commander" →
           (main_v = if decide (main_count < 60)
                     then ["Maindeck has " +:+ str_of_int main_count
                           +:+ "/60 cards"]
                     else [])
           ∧ (side_v = if decide (15 < side_count)
                       then ["Sideboard has " +:+ str_of_int side_count
                             +:+ "/15 cards"]
                       else [])
           ∧ (main_v ≠ [] ↔ main_count < 60)
           ∧ (side_v ≠ [] ↔ 15 < side_count)).
Proof.
  intros main_count side_count.
  split; [apply total_quantity_sum|]. split; [apply total_quantity_sum|].
  unfold check_deck_size. rewrite !total_quantity_sum.
  fold main_count side_count.
  change (commander_main_msg main_count)
    with ("Commander deck has " +:+ str_of_int main_count +:+ "/99 cards").
  change (commander_side_msg side_count)
    with ("Has " +:+ str_of_int side_count +:+ " commanders (needs 1)").
  change (maindeck_msg main_count)
    with ("Maindeck has " +:+ str_of_int main_count +:+ "/60 cards").
  change (sideboard_msg side_count)
    with ("Sideboard has " +:+ str_of_int side_count +:+ "/15 cards").
  destruct (String.eqb_spec format "commander") as [Hc|Hc].
  - exists (if decide (main_count ≠ 99)
            then ["Commander deck has " +:+ str_of_int main_count
                  +:+ "/99 cards"]
            else []),
           (if decide (side_count ≠ 1)
            then ["Has " +:+ str_of_int side_count
                  +:+ " commanders (needs 1)"]
            else []).
    split; [|split; [intros _|intros ?; congruence]].
    + destruct (Z.eqb_spec main_count 99), (Z.eqb_spec side_count 1);
        repeat case_decide; try lia; simpl;
        rewrite ?app_nil_r, <- ?app_assoc; reflexivity.
    + repeat split; repeat case_decide; try congruence; try lia; done.
  - exists (if decide (main_count < 60)
            then ["Maindeck has " +:+ str_of_int main_count
                  +:+ "/60 cards"]
            else []),
           (if decide (15 < side_count)
            then ["Sideboard has " +:+ str_of_int side_count
                  +:+ "/15 cards"]
            else []).
    split; [|split; [intros ?; congruence|intros _]].
    + destruct (Z.ltb_spec main_count 60), (Z.gtb_spec side_count 15);
        repeat case_decide; try lia; simpl;
        rewrite ?app_nil_r, <- ?app_assoc; reflexivity.
    + repeat split; repeat case_decide; try congruence; try lia; done.
Qed.

(** Witness of C3: 20 and 39 cards in the maindeck and 16 in the
    sidedeck are counted as 59 and 16, and both violations are
    reported, whatever the format. *)
Lemma check_deck_size_spec_witness :
  let d := Deck [Card "Forest" 20; Card "Shock" 39] [Card "Opt" 16] in
  total_quantity (maindeck d) = 59
  ∧ total_quantity (sidedeck d) = 16
  ∧ check_deck_size d "modern" ["before"]
    = ["before"; "Maindeck has 59/60 cards"; "Sideboard has 16/15 cards"]
  ∧ check_deck_size d "commander" []
    = ["Commander deck has 59/99 cards"; "Has 16 commanders (needs 1)"].
Proof.
  intros d.
  destruct (check_deck_size_spec d "modern" ["before"])
    as (Hmain & Hside & mv & sv & Hm & _ & Hother).
  destruct (check_deck_size_spec d "commander" [])
    as (_ & _ & mv' & sv' & Hc & Hcommander & _).
  destruct (Hother ltac:(discriminate)) as (-> & -> & _).
  destruct (Hcommander eq_refl) as (-> & -> & _).
  split; [exact Hmain|]. split; [exact Hside|].
  split; [exact Hm|exact Hc].
Defined.

(** C4. On a fetched card object the quantity rule follows this
    precedence: "Seven Dwarves" violates iff the quantity is above 7; a
    name of the allowlist never violates; a type line that starts with
    "Basic" never violates; any other card violates, with one message
    that names max 4, iff the quantity is above 4.  The quantity
    violation comes after the card's legality violation. *)
Theorem quantity_rule_precedence (format name : string) (qty : Z)
    (m : gmap string json) (rs : list string) :
  typed format (JObj m) = true → m ≠ ∅ →
  ∃ quantity_v : list string,
    _check_card format name qty (Fetched (JObj m)) rs
    = Ok (rs ++ legality_violation format name m ++ quantity_v)
    ∧ (name = "Seven Dwarves" →
         quantity_v = if decide (7 < qty)
                      then ["Too many Seven Dwarves (max 7)"] else [])
    ∧ (name ≠ "Seven Dwarves" → name ∈ allowlist → quantity_v = [])
    ∧ (name ≠ "Seven Dwarves" → name ∉ allowlist →
         String.prefix "Basic" (type_line m) = true → quantity_v = [])
    ∧ (name ≠ "Seven Dwarves" → name ∉ allowlist →
         String.prefix "Basic" (type_line m) = false →
         quantity_v = if decide (4 < qty)
                      then ["Too many " +:+ name +:+ " (max 4)"] else []).
Proof.
  intros Ht Hne. exists (quantity_violation name qty m).
  split; [by apply check_card_typed|].
  unfold quantity_violation. split; [|split; [|split]].
  - intros ->. simpl. by repeat case_decide.
  - intros Hsd Hin. by rewrite decide_False, decide_True.
  - intros Hsd Hout Hbasic.
    by rewrite decide_False, decide_False, Hbasic.
  - intros Hsd Hout Hbasic.
    rewrite decide_False, decide_False, Hbasic by done.
    by case_decide.
Qed.

(** Witness of C4: five Lightning Bolt in modern. *)
Lemma quantity_rule_precedence_witness :
  let m : gmap string json :=
    {[ "legalities" := JObj {[ "modern" := JStr "legal" ]};
       "type_line" := JStr "Instant" ]} in
  ∃ quantity_v : list string,
    _check_card "modern" "Lightning Bolt" 5 (Fetched (JObj m)) []
    = Ok ([] ++ legality_violation "modern" "Lightning Bolt" m ++ quantity_v)
    ∧ ("Lightning Bolt" = "Seven Dwarves" →
         quantity_v = if decide (7 < 5)
                      then ["Too many Seven Dwarves (max 7)"] else [])
    ∧ ("Lightning Bolt" ≠ "Seven Dwarves" →
         "Lightning Bolt" ∈ allowlist → quantity_v = [])
    ∧ ("Lightning Bolt" ≠ "Seven Dwarves" → "Lightning Bolt" ∉ allowlist →
         String.prefix "Basic" (type_line m) = true → quantity_v = [])
    ∧ ("Lightning Bolt" ≠ "Seven Dwarves" → "Lightning Bolt" ∉ allowlist →
         String.prefix "Basic" (type_line m) = false →
         quantity_v = if decide (4 < 5)
                      then ["Too many " +:+ "Lightning Bolt" +:+ " (max 4)"]
                      else []).
Proof.
  intros m.
  apply (quantity_rule_precedence "modern" "Lightning Bolt" 5 m []).
  - vm_compute. reflexivity.
  - intros E. apply (f_equal (λ x, x !! "type_line")) in E.
    vm_compute in E. discriminate.
Defined.

(** [s.replace('_', ' ')] maps each underscore to a space and leaves the
    other characters where they are. *)
Lemma str_replace_get (old new : ascii) (s : string) (i : nat) :
  String.get i (str_replace old new s)
  = (λ c, if Ascii.eqb c old then new else c) <$> String.get i s.
Proof.
  revert i. induction s as [|c s IH]; intros [|i]; simpl; auto.
Qed.

(** C5, as the code has it. On a fetched card object a legality violation
    is appended iff the status of the format is not exactly "legal"; the
    message reports "not found" when the status is missing or empty, and
    otherwise the status with every underscore replaced by a space.  The
    legality violation comes before the card's quantity violation. *)
Theorem legality_rule (format name : string) (qty : Z)
    (m : gmap string json) (rs : list string) :
  typed format (JObj m) = true → m ≠ ∅ →
  ∃ legality_v : list string,
    _check_card format name qty (Fetched (JObj m)) rs
    = Ok (rs ++ legality_v ++ quantity_violation name qty m)
    ∧ (legality_v ≠ [] ↔ status format m ≠ Some "legal")
    ∧ (status format m = None ∨ status format m = Some "" →
         legality_v = [name +:+ " is not found in " +:+ format])
    ∧ (∀ s, status format m = Some s → s ≠ "legal" → s ≠ "" →
         legality_v
         = [name +:+ " is " +:+ str_replace "_" " " s +:+ " in " +:+ format]
         ∧ ∀ i, String.get i (str_replace "_" " " s)
                = (λ c, if Ascii.eqb c "_" then " "%char else c)
                    <$> String.get i s).
Proof.
  intros Ht Hne. exists (legality_violation format name m).
  split; [by apply check_card_typed|].
  unfold legality_violation.
  destruct (status format m) as [s|]; (split; [split|split]).
  - intros Hv [= ->]. by case_decide.
  - intros Hs. repeat case_decide; subst; done.
  - intros [?|[= ->]]; [done|]. repeat case_decide; done.
  - intros s' [= <-] Hl He. split; [|apply str_replace_get].
    repeat case_decide; done.
  - discriminate.
  - done.
  - done.
  - intros s' ?. discriminate.
Qed.

(** Witness of C5: a card that is not legal in modern. *)
Lemma legality_rule_witness :
  let m : gmap string json :=
    {[ "legalities" := JObj {[ "modern" := JStr "not_legal" ]};
       "type_line" := JStr "Sorcery" ]} in
  ∃ legality_v : list string,
    _check_card "modern" "Ponder" 4 (Fetched (JObj m)) []
    = Ok ([] ++ legality_v ++ quantity_violation "Ponder" 4 m)
    ∧ (legality_v ≠ [] ↔ status "modern" m ≠ Some "legal")
    ∧ (status "modern" m = None ∨ status "modern" m = Some "" →
         legality_v = ["Ponder" +:+ " is not found in " +:+ "modern"])
    ∧ (∀ s, status "modern" m = Some s → s ≠ "legal" → s ≠ "" →
         legality_v
         = ["Ponder" +:+ " is " +:+ str_replace "_" " " s +:+ " in "
            +:+ "modern"]
         ∧ ∀ i, String.get i (str_replace "_" " " s)
                = (λ c, if Ascii.eqb c "_" then " "%char else c)
                    <$> String.get i s).
Proof.
  intros m. apply (legality_rule "modern" "Ponder" 4 m []).
  - vm_compute. reflexivity.
  - intros E. apply (f_equal (λ x, x !! "type_line")) in E.
    vm_compute in E. discriminate.
Defined.

(** C5 as stated fails on an empty status: the status is present, it is
    a string other than "legal", and the message reports "not found"
    instead of the status. *)
Lemma legality_rule_counterexample :
  let m : gmap string json :=
    {[ "legalities" := JObj {[ "modern" := JStr "" ]} ]} in
  status "modern" m = Some ""
  ∧ _check_card "modern" "Ponder" 4 (Fetched (JObj m)) []
    = Ok ["Ponder is not found in modern"]
  ∧ ["Ponder is not found in modern"]
    ≠ ["Ponder" +:+ " is " +:+ str_replace "_" " " "" +:+ " in " +:+ "modern"].
Proof. vm_compute. repeat split. discriminate. Qed.

(** The rules on the cards of the exception lists. *)
Example seven_dwarves_eight :
  check_quantity "Seven Dwarves" 8 (JObj ∅) []
  = Ok ["Too many Seven Dwarves (max 7)"].
Proof. reflexivity. Qed.

Example seven_dwarves_seven :
  check_quantity "Seven Dwarves" 7 (JObj ∅) [] = Ok [].
Proof. reflexivity. Qed.

Example rat_colony_forty :
  check_quantity "Rat Colony" 40 (JObj ∅) [] = Ok [].
Proof. vm_compute. reflexivity. Qed.

Example basic_land_forty :
  check_quantity "Forest" 40
    (JObj {[ "type_line" := JStr "Basic Land - Forest" ]}) []
  = Ok [].
Proof. vm_compute. reflexivity. Qed.

Example five_of_a_card :
  check_quantity "Opt" 5 (JObj {[ "type_line" := JStr "Instant" ]}) []
  = Ok ["Too many Opt (max 4)"].
Proof. vm_compute. reflexivity. Qed.

(** Outside the data model the method calls raise: a null type line has
    no [startswith], a numeric status no [replace]. *)
Example null_type_line :
  check_quantity "Opt" 5 (JObj {[ "type_line" := JNull ]}) []
  = Raise AttributeError.
Proof. vm_compute. reflexivity. Qed.

Example numeric_status :
  check_legality "modern" "Opt"
    (JObj {[ "legalities" := JObj {[ "modern" := JInt 1 ]} ]}) []
  = Raise AttributeError.
Proof. vm_compute. reflexivity. Qed.

(** Both size violations of a deck. *)
Example commander_both_sizes :
  check_deck_size (Deck [Card "Island" 98] []) "commander" []
  = ["Commander deck has 98/99 cards"; "Has 0 commanders (needs 1)"].
Proof. reflexivity. Qed.

Example modern_both_sizes :
  check_deck_size (Deck [Card "Island" 59] [Card "Opt" 16]) "modern" []
  = ["Maindeck has 59/60 cards"; "Sideboard has 16/15 cards"].
Proof. reflexivity. Qed.
End RuleEvaluator.

(* ================================================================== *)
(** * Theorems: the tasks of the legality checker *)
(* ================================================================== *)

Section EventLoop.
Import DeckChecker.
Variable format : string.
Variable cards : list card.

#[local] Abbreviation step := (step format cards).
#[local] Abbreviation run := (run format cards).

(** Case analysis on an enabled step. *)
Ltac step_inv H :=
  unfold DeckChecker.step in H;
  repeat match type of H with
         | context [match ?x with _ => _ end] =>
             let E := fresh "E" in destruct x eqn:E; try discriminate H
         end;
  injection H as <-; simpl in *.

Lemma run_app (evs1 evs2 : list event) (st : state) :
  run (evs1 ++ evs2) st = run evs1 st ≫= run evs2.
Proof.
  revert st. induction evs1 as [|ev evs1 IH]; intros st; simpl; [done|].
  destruct (step ev st); simpl; auto.
Qed.

(** [_check_card] on a response the checker can evaluate. *)
Lemma check_card_evaluable (c : card) (r : response) (rs : list string) :
  evaluable format r = true →
  _check_card format (cardname c) (quantity c) r rs
  = Ok (rs ++ messages format c r).
Proof.
  destruct r as [body|err]; simpl; intros Hev; [|reflexivity].
  destruct (truthy body) eqn:Ht.
  - destruct body; try discriminate. unfold messages.
    simpl in Ht. apply negb_true_iff, bool_decide_eq_false in Ht.
    rewrite decide_False by done. by apply check_card_typed.
  - unfold _check_card. simpl. rewrite Ht. simpl.
    destruct body; simpl; rewrite ?app_nil_r; try done.
    simpl in Ht. apply negb_false_iff, bool_decide_eq_true in Ht.
    by rewrite decide_True, app_nil_r.
Qed.

(** *** The violation list grows by the arriving cards' messages *)

Lemma step_reasons (ev : event) (st st' : state) :
  (∀ a, arrivals [ev] = [a] → evaluable format a.2 = true) →
  step ev st = Some st' →
  raised st' = None
  ∧ reasons st' = reasons st ++ gathered format cards (arrivals [ev]).
Proof.
  intros Hev H. step_inv H; rewrite ?app_nil_r; try done.
  all: match goal with
       | Hc : _check_card _ _ _ ?r _ = _, Hl : cards !! ?i = Some _ |- _ =>
           rewrite check_card_evaluable in Hc
             by (apply (Hev (i, r)); reflexivity);
           rewrite Hl; by simplify_eq
       end.
Qed.

Lemma arrivals_cons (ev : event) (evs : list event) :
  arrivals (ev :: evs) = arrivals [ev] ++ arrivals evs.
Proof. unfold arrivals. simpl. by destruct ev. Qed.

Lemma gathered_app (a1 a2 : list (nat * response)) :
  gathered format cards (a1 ++ a2)
  = gathered format cards a1 ++ gathered format cards a2.
Proof. unfold gathered. apply flat_map_app. Qed.

Lemma run_reasons (evs : list event) (st st' : state) :
  Forall (λ a, evaluable format a.2 = true) (arrivals evs) →
  raised st = None →
  run evs st = Some st' →
  raised st' = None
  ∧ reasons st' = reasons st ++ gathered format cards (arrivals evs).
Proof.
  revert st. induction evs as [|ev evs IH]; intros st Hev Hr H; simpl in H.
  - injection H as <-. by rewrite app_nil_r.
  - destruct (step ev st) as [st1|] eqn:Hs; [|discriminate].
    rewrite (arrivals_cons ev evs) in Hev.
    apply Forall_app in Hev as [Hev1 Hev2].
    apply step_reasons in Hs as [Hr1 Hs].
    + destruct (IH st1 Hev2 Hr1 H) as [Hr' Hrs]. split; [done|].
      rewrite Hrs, Hs, (arrivals_cons ev evs), gathered_app.
      by rewrite app_assoc.
    + intros a Ha. rewrite Ha in Hev1. exact (Forall_inv Hev1).
Qed.

(** *** Each task finishes exactly when its response has arrived *)

Lemma insert_finished (l : list phase) (i j : nat) (p q : phase) :
  l !! i = Some p → p ≠ Finished →
  <[i:=q]> l !! j = Some Finished
  ↔ l !! j = Some Finished ∨ (q = Finished ∧ j = i).
Proof.
  intros Hp Hne. destruct (decide (i = j)) as [->|Hij].
  - rewrite list_lookup_insert_eq by (by eapply lookup_lt_Some).
    rewrite Hp. split.
    + intros [= ->]. by right.
    + intros [[= ->]|[-> _]]; done.
  - rewrite list_lookup_insert_ne by done. split; [tauto|].
    intros [?|[_ ->]]; done.
Qed.

Lemma step_finished (ev : event) (st st' : state) :
  step ev st = Some st' →
  length (phases st') = length (phases st)
  ∧ (∀ i, i ∈ (arrivals [ev]).*1 →
       phases st !! i ≠ Some Finished ∧ (i < length (phases st))%nat)
  ∧ (∀ j, phases st' !! j = Some Finished
          ↔ phases st !! j = Some Finished ∨ j ∈ (arrivals [ev]).*1).
Proof.
  intros H. step_inv H; rewrite ?length_insert.
  all: split; [done|split; intros j].
  all: rewrite ?elem_of_nil, ?list_elem_of_singleton; try tauto.
  all: try (intros ->; split; [congruence|by eapply lookup_lt_Some]).
  all: erewrite insert_finished by (done || congruence).
  all: split; [intros [?|[? ?]]|intros [?|?]]; auto;
    try discriminate; try contradiction.
Qed.

Lemma run_finished (evs : list event) (st st' : state) :
  run evs st = Some st' →
  length (phases st') = length (phases st)
  ∧ NoDup (arrivals evs).*1
  ∧ (∀ i, i ∈ (arrivals evs).*1 →
       phases st !! i ≠ Some Finished ∧ (i < length (phases st))%nat)
  ∧ (∀ j, phases st' !! j = Some Finished
          ↔ phases st !! j = Some Finished ∨ j ∈ (arrivals evs).*1).
Proof.
  revert st. induction evs as [|ev evs IH]; intros st H; simpl in H.
  - injection H as <-. change ((arrivals []).*1) with (@nil nat).
    split; [done|]. split; [constructor|].
    split; intros j; rewrite elem_of_nil; tauto.
  - destruct (step ev st) as [st1|] eqn:Hs; [|discriminate].
    apply step_finished in Hs as (Hl1 & Hn1 & Hf1).
    apply IH in H as (Hl & Hnd & Hn & Hf).
    rewrite (arrivals_cons ev evs), fmap_app.
    split; [congruence|]. split; [|split].
    + apply NoDup_app. split; [|split; [|done]].
      * destruct ev; simpl; try apply NoDup_nil_2.
        apply NoDup_singleton.
      * intros i Hi Hi'. apply Hn in Hi' as [Hi' _].
        apply Hi', Hf1. by right.
    + intros i [Hi|Hi]%elem_of_app; [by apply Hn1|].
      apply Hn in Hi as [Hi Hlt]. rewrite Hl1 in Hlt. split; [|done].
      intros Hfin. apply Hi, Hf1. by left.
    + intros j. rewrite Hf, Hf1, elem_of_app. tauto.
Qed.

Lemma all_finished_lookup (st : state) (j : nat) :
  all_finished st = true → (j < length (phases st))%nat →
  phases st !! j = Some Finished.
Proof.
  unfold all_finished. rewrite forallb_forall. intros Hall Hj.
  destruct (lookup_lt_is_Some_2 _ _ Hj) as [p Hp]. rewrite Hp.
  assert (finished p = true) as Hfin.
  { apply Hall, list_elem_of_In. by eapply list_elem_of_lookup_2. }
  by destruct p.
Qed.

(** *** The semaphore and the delay *)

Lemma census_insert (f : phase → bool) (l : list phase) (i : nat)
    (p q : phase) :
  l !! i = Some p →
  census f (<[i:=q]> l)
  = census f l - (if f p then 1 else 0) + (if f q then 1 else 0).
Proof.
  revert i. induction l as [|x l IH]; intros [|i] Hp; simpl in *;
    try discriminate.
  - injection Hp as ->. lia.
  - rewrite (IH i Hp). lia.
Qed.

Lemma census_replicate (f : phase → bool) (n : nat) (p : phase) :
  census f (replicate n p) = if f p then Z.of_nat n else 0.
Proof. induction n as [|n IH]; simpl; destruct (f p); lia. Qed.

Lemma census_le (f g : phase → bool) (l : list phase) :
  (∀ p, f p = true → g p = true) → 0 ≤ census f l ≤ census g l.
Proof.
  intros Hfg. induction l as [|x l IH]; simpl; [lia|].
  specialize (Hfg x). destruct (f x), (g x); lia.
Qed.

Lemma step_rate_limited (ev : event) (st st' : state) :
  step ev st = Some st' → rate_limited st → rate_limited st'.
Proof.
  intros H (Hp & Hc & Ht). unfold rate_limited.
  step_inv H; try erewrite census_insert by eassumption; simpl.
  all: split; [lia|split; [lia|]].
  all: try done.
  all: intros j ta ts; destruct (decide (i = j)) as [->|Hij];
    [rewrite list_lookup_insert_eq by (by eapply lookup_lt_Some)
    |rewrite list_lookup_insert_ne by done; by apply Ht].
  all: intros ?; simplify_eq; lia.
Qed.

Lemma run_rate_limited (evs : list event) (st st' : state) :
  run evs st = Some st' → rate_limited st → rate_limited st'.
Proof.
  revert st. induction evs as [|ev evs IH]; intros st H Hinv; simpl in H.
  - by injection H as <-.
  - destruct (step ev st) as [st1|] eqn:Hs; [|discriminate].
    eauto using step_rate_limited.
Qed.

(** *** The schedule that takes the cards one after the other *)

Lemma in_turn_run (resp : nat → response) (k : nat) (st : state) :
  finished_up_to (length cards) k st → (k < length cards)%nat →
  evaluable format (resp k) = true →
  ∃ st', run (in_turn resp k) st = Some st'
         ∧ finished_up_to (length cards) (S k) st'.
Proof.
  destruct st as [rs pm ph t rz]. unfold finished_up_to. simpl.
  intros (-> & -> & Hlen & Hfin & Hpen) Hk Hev.
  destruct (lookup_lt_is_Some_2 cards k Hk) as [c Hc].
  unfold DeckChecker.step. simpl.
  rewrite (Hpen k) by lia. simpl.
  rewrite list_lookup_insert_eq by lia.
  rewrite (proj2 (Z.leb_le _ _)) by (unfold SCRYFALL_DELAY; lia).
  simpl. rewrite list_lookup_insert_eq by (rewrite length_insert; lia).
  rewrite Hc, check_card_evaluable by done.
  eexists. split; [reflexivity|]. simpl.
  rewrite !length_insert. repeat split; try done.
  - intros j Hj. destruct (decide (j = k)) as [->|Hne].
    + rewrite list_lookup_insert_eq; [done|]. rewrite !length_insert. lia.
    + rewrite !list_lookup_insert_ne by done. apply Hfin. lia.
  - intros j Hj. rewrite !list_lookup_insert_ne by lia. apply Hpen. lia.
Qed.

Lemma sequential_run (resp : nat → response) (m k : nat) (st : state) :
  finished_up_to (length cards) k st → (k + m = length cards)%nat →
  (∀ j, (j < length cards)%nat → evaluable format (resp j) = true) →
  ∃ st', run (flat_map (in_turn resp) (seq k m)) st = Some st'
         ∧ finished_up_to (length cards) (length cards) st'.
Proof.
  revert k st. induction m as [|m IH]; intros k st Hst Hkm Hev.
  - exists st. rewrite Nat.add_0_r in Hkm. subst k. done.
  - cbn [seq flat_map]. rewrite run_app.
    destruct (in_turn_run resp k st Hst) as (st1 & -> & Hst1);
      [lia|apply Hev; lia|].
    simpl. apply IH; [done|lia|done].
Qed.

Lemma finished_up_to_all (st : state) :
  finished_up_to (length cards) (length cards) st →
  raised st = None ∧ all_finished st = true.
Proof.
  intros (Hr & _ & Hlen & Hfin & _). split; [done|].
  unfold all_finished. apply forallb_forall. intros p Hp.
  apply list_elem_of_In, list_elem_of_lookup in Hp as [j Hj].
  rewrite Hfin in Hj by (rewrite <- Hlen; by eapply lookup_lt_Some).
  by injection Hj as <-.
Qed.

Lemma arrivals_app (evs1 evs2 : list event) :
  arrivals (evs1 ++ evs2) = arrivals evs1 ++ arrivals evs2.
Proof. apply omap_app. Qed.

Lemma arrivals_in_turn (resp : nat → response) (l : list nat) :
  arrivals (flat_map (in_turn resp) l) = (λ i, (i, resp i)) <$> l.
Proof.
  induction l as [|i l IH]; [done|].
  cbn [flat_map]. rewrite arrivals_app, IH. reflexivity.
Qed.

(** *** Whatever has happened, the batch can be completed *)

(** Any one task can be brought to its end: a pending task when a permit
    is free, a task that holds a permit in any case. *)
Lemma finish_task (resp : nat → response) (k : nat) (st : state) :
  raised st = None → length (phases st) = length cards →
  (k < length cards)%nat → evaluable format (resp k) = true →
  (phases st !! k = Some Pending → 0 < permits st) →
  ∃ evs st',
    run evs st = Some st'
    ∧ raised st' = None
    ∧ phases st' = <[k:=Finished]> (phases st)
    ∧ permits st'
      = permits st
        + census holds_permit (phases st)
        - census holds_permit (<[k:=Finished]> (phases st)).
Proof.
  destruct st as [rs pm ph t rz]. simpl. intros -> Hlen Hk Hev Hpm.
  destruct (lookup_lt_is_Some_2 cards k Hk) as [c Hc].
  destruct (lookup_lt_is_Some_2 ph k ltac:(lia)) as [p Hp].
  rewrite (census_insert holds_permit ph k p Finished Hp). simpl.
  destruct p as [|acquired|acquired sent|].
  - exists (in_turn resp k). simpl. unfold DeckChecker.step. simpl.
    rewrite Hp. simpl. rewrite (proj2 (Z.ltb_lt _ _) (Hpm Hp)). simpl.
    rewrite list_lookup_insert_eq by lia.
    rewrite (proj2 (Z.leb_le _ _)) by (unfold SCRYFALL_DELAY; lia).
    simpl. rewrite list_lookup_insert_eq by (rewrite length_insert; lia).
    rewrite Hc, check_card_evaluable by done.
    eexists. split; [reflexivity|]. simpl.
    rewrite !list_insert_insert_eq. repeat split. lia.
  - exists [Tick (Z.max 0 (acquired + SCRYFALL_DELAY - t)); Wake k;
            Respond k (resp k)].
    simpl. unfold DeckChecker.step. simpl.
    rewrite (proj2 (Z.leb_le _ _)) by lia. simpl. rewrite Hp.
    rewrite (proj2 (Z.leb_le _ _)) by lia. simpl.
    rewrite list_lookup_insert_eq by lia.
    rewrite Hc, check_card_evaluable by done.
    eexists. split; [reflexivity|]. simpl.
    rewrite !list_insert_insert_eq. repeat split. lia.
  - exists [Respond k (resp k)]. simpl. unfold DeckChecker.step. simpl.
    rewrite Hp, Hc, check_card_evaluable by done.
    eexists. split; [reflexivity|]. simpl. repeat split. lia.
  - exists [], (State rs pm ph t None). simpl.
    rewrite list_insert_id by done. repeat split. lia.
Qed.

Lemma census_zero_lookup (f : phase → bool) (l : list phase) (j : nat)
    (p : phase) :
  census f l = 0 → l !! j = Some p → f p = false.
Proof.
  revert j. induction l as [|x l IH]; intros [|j] Hz Hp; simpl in *;
    try discriminate.
  - injection Hp as ->.
    pose proof (census_le f f l (λ _ H, H)). destruct (f p); [lia|done].
  - pose proof (census_le f f l (λ _ H, H)).
    apply (IH j); [destruct (f x); lia|done].
Qed.

(** First the tasks that hold a permit are brought to their end ... *)
Lemma release_all (resp : nat → response) (m k : nat) (st : state) :
  (∀ j, evaluable format (resp j) = true) →
  (k + m = length cards)%nat →
  raised st = None → length (phases st) = length cards →
  permits st + census holds_permit (phases st) = SEMAPHORE_PERMITS →
  (∀ j p, (j < k)%nat → phases st !! j = Some p → holds_permit p = false) →
  ∃ evs st',
    run evs st = Some st'
    ∧ raised st' = None ∧ length (phases st') = length cards
    ∧ permits st' + census holds_permit (phases st') = SEMAPHORE_PERMITS
    ∧ ∀ j p, phases st' !! j = Some p → holds_permit p = false.
Proof.
  intros Hev. revert k st.
  induction m as [|m IH]; intros k st Hkm Hr Hlen Hsum Hdone.
  - exists [], st. repeat split; try done.
    intros j p Hj. apply (Hdone j); [|done].
    apply lookup_lt_Some in Hj. lia.
  - destruct (lookup_lt_is_Some_2 (phases st) k ltac:(lia)) as [p Hp].
    destruct (holds_permit p) eqn:Hh.
    + destruct (finish_task resp k st Hr Hlen ltac:(lia) (Hev k))
        as (evs1 & st1 & Hrun1 & Hr1 & Hph1 & Hpm1).
      { intros Hp'. rewrite Hp in Hp'. injection Hp' as ->. discriminate. }
      destruct (IH (S k) st1) as (evs2 & st2 & Hrun2 & Hst2).
      * lia.
      * done.
      * by rewrite Hph1, length_insert.
      * rewrite Hpm1, Hph1. lia.
      * intros j q Hj. rewrite Hph1.
        destruct (decide (k = j)) as [<-|Hne].
        -- rewrite list_lookup_insert_eq by lia. by intros [= <-].
        -- rewrite list_lookup_insert_ne by done. apply Hdone. lia.
      * exists (evs1 ++ evs2), st2. rewrite run_app, Hrun1. done.
    + apply (IH (S k) st); try done; try lia.
      intros j q Hj Hq. destruct (decide (j = k)) as [->|Hne].
      * rewrite Hp in Hq. by injection Hq as <-.
      * apply (Hdone j); [lia|done].
Qed.

(** ... then, with every permit back, the tasks that have not started. *)
Lemma start_all (resp : nat → response) (m k : nat) (st : state) :
  (∀ j, evaluable format (resp j) = true) →
  (k + m = length cards)%nat →
  raised st = None → length (phases st) = length cards →
  permits st = SEMAPHORE_PERMITS → census holds_permit (phases st) = 0 →
  (∀ j, (j < k)%nat → phases st !! j = Some Finished) →
  ∃ evs st',
    run evs st = Some st' ∧ raised st' = None ∧ all_finished st' = true.
Proof.
  intros Hev. revert k st.
  induction m as [|m IH]; intros k st Hkm Hr Hlen Hpm Hz Hdone.
  - exists [], st. repeat split; try done.
    unfold all_finished. apply forallb_forall. intros p Hp.
    apply list_elem_of_In, list_elem_of_lookup in Hp as [j Hj].
    rewrite Hdone in Hj by (apply lookup_lt_Some in Hj; lia).
    by injection Hj as <-.
  - destruct (finish_task resp k st Hr Hlen ltac:(lia) (Hev k))
      as (evs1 & st1 & Hrun1 & Hr1 & Hph1 & Hpm1).
    { intros _. rewrite Hpm. done. }
    assert (census holds_permit (phases st1) = 0) as Hz1.
    { destruct (lookup_lt_is_Some_2 (phases st) k ltac:(lia)) as [p Hp].
      rewrite Hph1, (census_insert _ _ _ _ _ Hp), Hz.
      rewrite (census_zero_lookup _ _ _ _ Hz Hp). done. }
    destruct (IH (S k) st1) as (evs2 & st2 & Hrun2 & Hst2).
    + lia.
    + done.
    + by rewrite Hph1, length_insert.
    + rewrite Hpm1, Hz, <- Hph1, Hz1. lia.
    + done.
    + intros j Hj. rewrite Hph1. destruct (decide (k = j)) as [<-|Hne].
      * by rewrite list_lookup_insert_eq by lia.
      * rewrite list_lookup_insert_ne by done. apply Hdone. lia.
    + exists (evs1 ++ evs2), st2. rewrite run_app, Hrun1. done.
Qed.

(** From any state of the batch in which no task has raised, some
    schedule brings every task to its end. *)
Lemma can_complete (resp : nat → response) (st : state) :
  (∀ j, evaluable format (resp j) = true) →
  raised st = None → length (phases st) = length cards →
  permits st + census holds_permit (phases st) = SEMAPHORE_PERMITS →
  ∃ evs st',
    run evs st = Some st' ∧ raised st' = None ∧ all_finished st' = true.
Proof.
  intros Hev Hr Hlen Hsum.
  destruct (release_all resp (length cards) 0 st Hev eq_refl Hr Hlen Hsum)
    as (evs1 & st1 & Hrun1 & Hr1 & Hlen1 & Hsum1 & Hfree); [lia|].
  assert (census holds_permit (phases st1) = 0) as Hz.
  { clear -Hfree. induction (phases st1) as [|p l IH]; [done|]. simpl.
    rewrite (Hfree 0%nat p eq_refl), IH; [done|].
    intros j q Hj. by apply (Hfree (S j)). }
  destruct (start_all resp (length cards) 0 st1 Hev eq_refl Hr1 Hlen1)
    as (evs2 & st2 & Hrun2 & Hst2); [lia|done|lia|].
  exists (evs1 ++ evs2), st2. rewrite run_app, Hrun1. done.
Qed.

(** *** Arrival in the order of the deck *)

Lemma gathered_from (k : nat) (arr : list (nat * response)) :
  arr.*1 = seq k (length arr) →
  gathered format cards arr
  = mjoin (zip_with (messages format) (drop k cards) arr.*2).
Proof.
  revert k. induction arr as [|[i r] arr IH]; intros k Hk.
  - by destruct (drop k cards).
  - simpl in Hk. injection Hk as -> Hk. apply IH in Hk.
    unfold gathered in *. cbn [flat_map fst snd]. rewrite Hk.
    destruct (cards !! k) as [c|] eqn:Hc.
    + by rewrite (drop_S _ _ _ Hc).
    + apply lookup_ge_None in Hc.
      rewrite !drop_ge by lia. reflexivity.
Qed.
End EventLoop.

(* ================================================================== *)
(** * Theorems: run_checks *)
(* ================================================================== *)

Section LegalityChecker.
Import DeckChecker.

Lemma started_rate_limited (d : deck) (format : string) (t0 : Z) :
  rate_limited (started d format t0).
Proof.
  unfold rate_limited, started, SEMAPHORE_PERMITS. simpl.
  rewrite census_replicate. simpl. repeat split; try lia.
  intros i acquired sent [[=] _]%lookup_replicate.
Qed.

Lemma started_finished_up_to (d : deck) (format : string) (t0 : Z) :
  finished_up_to (length (all_cards d)) 0 (started d format t0).
Proof.
  unfold finished_up_to, started. simpl.
  rewrite length_replicate. repeat split; try done; try lia.
  intros j Hj. apply lookup_replicate_2. lia.
Qed.

(** A complete run on responses the checker can evaluate returns the
    report of the size violations followed by the cards' messages in
    the order of arrival. *)
Lemma run_checks_complete (d : deck) (format : string) (t0 : Z)
    (evs : list event) (out : result string) :
  Forall (λ a, evaluable format a.2 = true) (arrivals evs) →
  run_checks d format t0 evs = Some out →
  out = Ok (report format
              (check_deck_size d format []
               ++ gathered format (all_cards d) (arrivals evs)))
  ∧ (arrivals evs).*1 ≡ₚ seq 0 (length (all_cards d)).
Proof.
  intros Hev. unfold run_checks, check_all_cards.
  destruct (run _ _ evs _) as [st|] eqn:Hrun; [|discriminate].
  destruct (run_reasons format (all_cards d) evs (started d format t0) st
              Hev eq_refl Hrun) as [-> Hrs].
  destruct (all_finished st) eqn:Hall; [|discriminate].
  intros [= <-]. split; [by rewrite Hrs|].
  apply run_finished in Hrun as (Hlen & Hnd & Hin & Hfin).
  simpl in Hlen, Hin, Hfin. rewrite length_replicate in Hlen, Hin.
  apply NoDup_Permutation; [done|apply NoDup_seq|].
  intros j. rewrite elem_of_seq. split.
  - intros Hj%Hin. lia.
  - intros Hj. assert (phases st !! j = Some Finished) as Hd.
    { apply all_finished_lookup; [done|]. rewrite Hlen. lia. }
    apply Hfin in Hd as [[[=] _]%lookup_replicate|Hd]; done.
Qed.

(** The schedule that takes the cards one after the other is a complete
    run, and its report has the cards' messages in the order of the
    deck. *)
Lemma run_checks_sequential (d : deck) (format : string) (t0 : Z)
    (resp : nat → response) :
  let n := length (all_cards d) in
  (∀ j, (j < n)%nat → evaluable format (resp j) = true) →
  run_checks d format t0 (sequential resp n)
  = Some (Ok (report format
                (check_deck_size d format []
                 ++ in_deck_order format (maindeck d ++ sidedeck d)
                      (resp <$> seq 0 n)))).
Proof.
  intros n Hev.
  destruct (sequential_run format (all_cards d) resp n 0
              (started d format t0)) as (st & Hrun & Hst);
    [apply started_finished_up_to|done|done|].
  apply finished_up_to_all in Hst as [Hr Hall].
  assert (arrivals (sequential resp n) = (λ i, (i, resp i)) <$> seq 0 n)
    as Harr by apply arrivals_in_turn.
  assert (Forall (λ a, evaluable format a.2 = true)
            (arrivals (sequential resp n))) as Hfa.
  { rewrite Harr. apply Forall_fmap, Forall_forall.
    intros j Hj%elem_of_seq. apply Hev. lia. }
  destruct (run_reasons format (all_cards d) _ (started d format t0) st
              Hfa eq_refl Hrun) as [_ Hrs].
  unfold run_checks, check_all_cards. fold n.
  unfold sequential. rewrite Hrun, Hr, Hall, Hrs. repeat f_equal.
  simpl. fold (sequential resp n). rewrite Harr.
  rewrite (gathered_from format (all_cards d) 0).
  - rewrite drop_0, <- list_fmap_compose. reflexivity.
  - rewrite <- list_fmap_compose, length_fmap, length_seq.
    apply list_fmap_id.
Qed.

(** A run in which no task has raised can be continued to a report,
    whatever its state. *)
Lemma run_checks_continues (d : deck) (format : string) (t0 : Z)
    (resp : nat → response) (evs : list event) (st : state) :
  (∀ j, evaluable format (resp j) = true) →
  check_all_cards d format t0 evs = Some st → raised st = None →
  ∃ evs' s, run_checks d format t0 (evs ++ evs') = Some (Ok s).
Proof.
  intros Hev Hrun Hr. unfold check_all_cards in Hrun.
  pose proof (run_rate_limited _ _ _ _ _ Hrun
                (started_rate_limited d format t0)) as (_ & Hsum & _).
  pose proof (run_finished _ _ _ _ _ Hrun) as (Hlen & _).
  simpl in Hlen. rewrite length_replicate in Hlen.
  destruct (can_complete format (all_cards d) resp st Hev Hr Hlen Hsum)
    as (evs' & st' & Hrun' & Hr' & Hall).
  exists evs', (report format (reasons st')).
  unfold run_checks, check_all_cards.
  rewrite run_app, Hrun. simpl. by rewrite Hrun', Hr', Hall.
Qed.

(** C1, as the code has it.  On responses the checker can evaluate, a
    complete run returns "Legal in {format}" when there is no violation,
    and otherwise the violations joined by a newline: the size violations
    first, then the messages of the cards in the order in which their
    responses arrive, which is some permutation of the order of the deck,
    a card's legality violation before its quantity violation.  When the
    responses arrive in the order of the deck, the messages are in the
    order of the deck, maindeck entries before sidedeck entries; the run
    that takes the cards one after the other is such a run, so there is
    always a complete run. *)
Theorem run_checks_report (d : deck) (format : string) (t0 : Z)
    (evs : list event) (out : result string) :
  Forall (λ a, evaluable format a.2 = true) (arrivals evs) →
  run_checks d format t0 evs = Some out →
  let violations :=
    check_deck_size d format []
    ++ gathered format (all_cards d) (arrivals evs) in
  out = Ok (match violations with
            | [] => "Legal in " +:+ format
            | _ => join newline violations
            end)
  ∧ (arrivals evs).*1 ≡ₚ seq 0 (length (maindeck d ++ sidedeck d))
  ∧ ((arrivals evs).*1 = seq 0 (length (maindeck d ++ sidedeck d)) →
       gathered format (all_cards d) (arrivals evs)
       = in_deck_order format (maindeck d ++ sidedeck d) (arrivals evs).*2)
  ∧ (∀ c m, m ≠ ∅ →
       messages format c (Fetched (JObj m))
       = legality_violation format (cardname c) m
         ++ quantity_violation (cardname c) (quantity c) m)
  ∧ (∀ resp : nat → response,
       (∀ j, evaluable format (resp j) = true) →
       run_checks d format t0
         (sequential resp (length (maindeck d ++ sidedeck d)))
       = Some (Ok (report format
                     (check_deck_size d format []
                      ++ in_deck_order format (maindeck d ++ sidedeck d)
                           (resp <$> seq 0 (length (maindeck d ++ sidedeck d))))))).
Proof.
  intros Hev Hrun violations.
  destruct (run_checks_complete d format t0 evs out Hev Hrun) as [-> Hp].
  split; [reflexivity|]. split; [exact Hp|].
  split; [|split; [intros c m Hm; unfold messages; by rewrite decide_False|]].
  2:{ intros resp Hresp. apply run_checks_sequential. intros j _. apply Hresp. }
  intros Hord.
  rewrite (gathered_from format (all_cards d) 0); [by rewrite drop_0|].
  rewrite Hord. f_equal.
  apply Permutation_length in Hp. rewrite length_fmap in Hp.
  rewrite Hp. by rewrite length_seq.
Qed.

(** Witness of C1: two cards whose responses arrive in the order of the
    deck. *)
Lemma run_checks_report_witness :
  let d := Deck [Card "Ponder" 1] [Card "Opt" 1] in
  let r := Fetched (JObj {[ "type_line" := JStr "Instant" ]}) in
  let evs := sequential (λ _, r) 2 in
  let violations :=
    check_deck_size d "modern" []
    ++ gathered "modern" (all_cards d) (arrivals evs) in
  Ok (join newline ["Maindeck has 1/60 cards";
                    "Ponder is not found in modern";
                    "Opt is not found in modern"])
  = Ok (match violations with
        | [] => "Legal in " +:+ "modern"
        | _ => join newline violations
        end)
  ∧ (arrivals evs).*1 ≡ₚ seq 0 (length (maindeck d ++ sidedeck d))
  ∧ ((arrivals evs).*1 = seq 0 (length (maindeck d ++ sidedeck d)) →
       gathered "modern" (all_cards d) (arrivals evs)
       = in_deck_order "modern" (maindeck d ++ sidedeck d)
           (arrivals evs).*2)
  ∧ (∀ c m, m ≠ ∅ →
       messages "modern" c (Fetched (JObj m))
       = legality_violation "modern" (cardname c) m
         ++ quantity_violation (cardname c) (quantity c) m)
  ∧ (∀ resp : nat → response,
       (∀ j, evaluable "modern" (resp j) = true) →
       run_checks d "modern" 0
         (sequential resp (length (maindeck d ++ sidedeck d)))
       = Some (Ok (report "modern"
                     (check_deck_size d "modern" []
                      ++ in_deck_order "modern" (maindeck d ++ sidedeck d)
                           (resp <$> seq 0 (length (maindeck d ++ sidedeck d))))))).
Proof.
  intros d r evs.
  apply (run_checks_report d "modern" 0 evs).
  - unfold evs, sequential. rewrite arrivals_in_turn. simpl.
    repeat (constructor; [vm_compute; reflexivity|]). constructor.
  - vm_compute. reflexivity.
Defined.

(** C1 as stated fails when a later card's response arrives first: both
    requests are in flight, the second card's response arrives before the
    first card's, and the report lists the second card first. *)
Lemma run_checks_report_counterexample :
  let d := Deck [Card "Ponder" 1; Card "Opt" 1] [] in
  let r := Fetched (JObj {[ "type_line" := JStr "Instant" ]}) in
  let evs := [Acquire 0; Acquire 1; Tick 100; Wake 0; Wake 1;
              Respond 1 r; Respond 0 r] in
  run_checks d "modern" 0 evs
  = Some (Ok (join newline ["Maindeck has 2/60 cards";
                            "Opt is not found in modern";
                            "Ponder is not found in modern"]))
  ∧ run_checks d "modern" 0 evs
    ≠ Some (Ok (report "modern"
                  (check_deck_size d "modern" []
                   ++ in_deck_order "modern" (maindeck d ++ sidedeck d)
                        [r; r]))).
Proof. vm_compute. split; [reflexivity|discriminate]. Qed.

(** C9.  In every state the event loop can reach during
    [check_all_cards], at most ten requests are in flight: the tasks
    between acquiring and releasing hold the permits that are missing
    from the semaphore, which never has fewer than none; and every
    request in flight was sent no sooner than 100 ms after its task
    acquired the permit, whatever happened before. *)
Theorem rate_limit (d : deck) (format : string) (t0 : Z)
    (evs : list event) (st : state) :
  check_all_cards d format t0 evs = Some st →
  census in_flight (phases st) ≤ 10
  ∧ census in_flight (phases st) ≤ census holds_permit (phases st)
  ∧ census holds_permit (phases st) = 10 - permits st
  ∧ 0 ≤ permits st
  ∧ ∀ i acquired sent,
      phases st !! i = Some (InFlight acquired sent) →
      acquired + 100 ≤ sent.
Proof.
  intros Hrun. unfold check_all_cards in Hrun.
  apply run_rate_limited in Hrun as (Hp & Hc & Ht);
    [|apply started_rate_limited].
  unfold SEMAPHORE_PERMITS in Hc.
  pose proof (census_le in_flight holds_permit (phases st)) as Hle.
  repeat split; try lia; try apply Hle; try (by intros []).
  - assert (census in_flight (phases st)
            ≤ census holds_permit (phases st)); [|lia].
    apply Hle. by intros [].
  - exact Ht.
Qed.

(** Witness of C9: twelve tasks, ten of them with a request in flight;
    the semaphore refuses an eleventh. *)
Lemma rate_limit_witness :
  let d := Deck (replicate 12 (Card "Island" 1)) [] in
  let evs := (Acquire <$> seq 0 10) ++ [Tick 100] ++ (Wake <$> seq 0 10) in
  ∃ st, check_all_cards d "modern" 0 evs = Some st
        ∧ step "modern" (all_cards d) (Acquire 10) st = None
        ∧ census in_flight (phases st) = 10
        ∧ census in_flight (phases st) ≤ 10
        ∧ census in_flight (phases st) ≤ census holds_permit (phases st)
        ∧ census holds_permit (phases st) = 10 - permits st
        ∧ 0 ≤ permits st
        ∧ ∀ i acquired sent,
            phases st !! i = Some (InFlight acquired sent) →
            acquired + 100 ≤ sent.
Proof.
  intros d evs. eexists.
  split; [vm_compute; reflexivity|].
  split; [vm_compute; reflexivity|].
  split; [vm_compute; reflexivity|].
  apply (rate_limit d "modern" 0 evs). vm_compute. reflexivity.
Defined.

(** C6.  When the request for card [i] fails with error [err]:
    [_check_card] returns without raising, having appended the one
    message "Error checking {name}: {err}" and evaluated no rule; the
    task finishes and releases its permit, no exception reaches
    [gather], and the other tasks are left as they are; a run in which no
    task has raised can always be continued until [run_checks] returns
    its report; every complete run returns a report in which each card
    has its own messages, the failed card only the synthetic one; and the
    run that takes the cards one after the other is such a complete
    run. *)
Theorem fetch_error_contained (d : deck) (format : string) (t0 : Z)
    (resp : nat → response) (i : nat) (c : card) (err : string) :
  all_cards d !! i = Some c → resp i = Failed err →
  (∀ j, evaluable format (resp j) = true) →
  let synthetic := "Error checking " +:+ cardname c +:+ ": " +:+ err in
  (∀ rs, _fetch_card_data (cardname c) (Failed err) rs
         = (JObj ∅, rs ++ [synthetic]))
  ∧ (∀ rs, _check_card format (cardname c) (quantity c) (Failed err) rs
           = Ok (rs ++ [synthetic]))
  ∧ messages format c (resp i) = [synthetic]
  ∧ (∀ st acquired sent,
       raised st = None →
       phases st !! i = Some (InFlight acquired sent) →
       step format (all_cards d) (Respond i (Failed err)) st
       = Some (State (reasons st ++ [synthetic]) (permits st + 1)
                 (<[i:=Finished]> (phases st)) (now st) None)
       ∧ ∀ j, j ≠ i → <[i:=Finished]> (phases st) !! j = phases st !! j)
  ∧ (∀ evs st,
       check_all_cards d format t0 evs = Some st → raised st = None →
       ∃ evs' s, run_checks d format t0 (evs ++ evs') = Some (Ok s))
  ∧ (∀ evs out,
       Forall (λ a, a.2 = resp a.1) (arrivals evs) →
       run_checks d format t0 evs = Some out →
       out = Ok (report format
                   (check_deck_size d format []
                    ++ gathered format (all_cards d) (arrivals evs)))
       ∧ (i, Failed err) ∈ arrivals evs)
  ∧ run_checks d format t0 (sequential resp (length (all_cards d)))
    = Some (Ok (report format
                  (check_deck_size d format []
                   ++ in_deck_order format (all_cards d)
                        (resp <$> seq 0 (length (all_cards d)))))).
Proof.
  intros Hc Hi Hev synthetic. split; [reflexivity|]. split; [reflexivity|].
  split; [by rewrite Hi|]. split; [|split; [|split]].
  - intros st acquired sent Hr Hp. split.
    + unfold step. by rewrite Hr, Hp, Hc.
    + intros j Hj. by apply list_lookup_insert_ne.
  - intros evs st. by apply (run_checks_continues d format t0 resp).
  - intros evs out Harr Hrun.
    assert (Forall (λ a, evaluable format a.2 = true) (arrivals evs))
      as Hfa.
    { eapply Forall_impl; [exact Harr|]. intros a ->. apply Hev. }
    destruct (run_checks_complete d format t0 evs out Hfa Hrun)
      as [-> Hperm].
    split; [reflexivity|].
    assert (i ∈ (arrivals evs).*1) as Hin.
    { rewrite Hperm. apply elem_of_seq.
      apply lookup_lt_Some in Hc. lia. }
    apply list_elem_of_fmap in Hin as ([j r] & Hj & Hin).
    simpl in Hj. subst j.
    rewrite Forall_forall in Harr. specialize (Harr _ Hin).
    simpl in Harr. rewrite Hi in Harr. by subst r.
  - apply run_checks_sequential. intros j _. apply Hev.
Qed.

(** Witness of C6: the request for the first of two cards times out. *)
Lemma fetch_error_contained_witness :
  let d := Deck [Card "Ponder" 5; Card "Opt" 5] [] in
  let resp := λ j : nat,
    match j with
    | O => Failed "timeout"
    | _ => Fetched (JObj {[ "type_line" := JStr "Instant" ]})
    end in
  all_cards d !! 0%nat = Some (Card "Ponder" 5)
  ∧ resp 0%nat = Failed "timeout"
  ∧ (∀ j, evaluable "modern" (resp j) = true)
  ∧ (∀ rs, _check_card "modern" "Ponder" 5 (Failed "timeout") rs
           = Ok (rs ++ ["Error checking Ponder: timeout"]))
  ∧ run_checks d "modern" 0 (sequential resp (length (all_cards d)))
    = Some (Ok (join newline ["Maindeck has 10/60 cards";
                              "Error checking Ponder: timeout";
                              "Opt is not found in modern";
                              "Too many Opt (max 4)"])).
Proof.
  intros d resp.
  assert (∀ j, evaluable "modern" (resp j) = true) as Hev
    by (intros [|j]; vm_compute; reflexivity).
  split; [reflexivity|]. split; [reflexivity|]. split; [exact Hev|].
  pose proof (fetch_error_contained d "modern" 0 resp 0 (Card "Ponder" 5)
                "timeout" eq_refl eq_refl Hev) as H.
  cbv zeta in H. destruct H as (_ & Hcard & _ & _ & _ & _ & ->).
  split; [exact Hcard|]. vm_compute. reflexivity.
Defined.
End LegalityChecker.

(* ================================================================== *)
(** * Theorems: the pages of the proof sheet *)
(* ================================================================== *)

Lemma bind_Ok {A B} (m : result A) (f : A → result B) (b : B) :
  m ≫= f = Ok b → ∃ a, m = Ok a ∧ f a = Ok b.
Proof. destruct m as [a|e]; [by exists a|discriminate]. Qed.

Lemma card_size : Plotter.MTG_CARD_SIZE = (750, 1050).
Proof. vm_compute. reflexivity. Qed.

Section Pagination.
Import Plotter.
Context {image : Type}.
Variable fetch_card_data : string → result json.
Variable fetch_image : json → result image.
Variable float_of_str : string → result float.
Variables (width height gap : Z) (deck_name : string) (basic : bool).
Variables (cards_per_row max_cards : Z).

#[local] Abbreviation place :=
  (place image width height gap deck_name cards_per_row max_cards).
#[local] Abbreviation place_copies :=
  (place_copies image width height gap deck_name cards_per_row max_cards).
#[local] Abbreviation place_images :=
  (place_images image width height gap deck_name cards_per_row max_cards).
#[local] Abbreviation process_card :=
  (process_card image fetch_card_data fetch_image float_of_str
     width height gap deck_name basic cards_per_row max_cards).
#[local] Abbreviation process_cards :=
  (process_cards image fetch_card_data fetch_image float_of_str
     width height gap deck_name basic cards_per_row max_cards).
#[local] Abbreviation page_inv :=
  (paginated (width, height) deck_name cards_per_row gap max_cards).

(** What one placement does, when there is a column to divide by. *)
Lemma place_ok (img : image) (st : locals image) :
  cards_per_row ≠ 0 → 0 ≤ width → 0 ≤ height →
  place img st
  = Ok (let cv := paste (the_canvas st) img
                    (slot cards_per_row gap (card_count st)) in
        if card_count st + 1 =? max_cards
        then Locals (Canvas (width, height) []) 0 (page_count st + 1)
               (deck_price st)
               (saved st ++ [(page_name deck_name (page_count st), cv)])
        else Locals cv (card_count st + 1) (page_count st)
               (deck_price st) (saved st)).
Proof.
  intros Hc Hw Hh. unfold Plotter.place, floordiv, modulo, slot.
  rewrite card_size. rewrite (proj2 (Z.eqb_neq _ _) Hc). simpl.
  destruct (card_count st + 1 =? max_cards); [|reflexivity].
  unfold Image_new. simpl.
  rewrite (proj2 (Z.ltb_ge _ _) Hw), (proj2 (Z.ltb_ge _ _) Hh).
  reflexivity.
Qed.

(** A placement that returns had a column to divide by, and room for a
    fresh canvas. *)
Lemma place_Ok_inv (img : image) (st st' : locals image) :
  place img st = Ok st' →
  cards_per_row ≠ 0
  ∧ st' = (let cv := paste (the_canvas st) img
                       (slot cards_per_row gap (card_count st)) in
           if card_count st + 1 =? max_cards
           then Locals (Canvas (width, height) []) 0 (page_count st + 1)
                  (deck_price st)
                  (saved st ++ [(page_name deck_name (page_count st), cv)])
           else Locals cv (card_count st + 1) (page_count st)
                  (deck_price st) (saved st)).
Proof.
  unfold Plotter.place, floordiv, modulo, slot. rewrite card_size.
  destruct (Z.eqb_spec cards_per_row 0) as [|Hc]; [discriminate|].
  simpl. intros H. split; [done|].
  destruct (card_count st + 1 =? max_cards); [|by injection H].
  unfold Image_new in H.
  destruct ((_ <? 0) || (_ <? 0)); [discriminate|]. by injection H.
Qed.

Lemma place_zero (img : image) (st : locals image) :
  cards_per_row = 0 → place img st = Raise ZeroDivisionError.
Proof. intros ->. reflexivity. Qed.

Lemma well_placed_paste (cv : canvas image) (img : image) :
  well_placed cards_per_row gap cv →
  well_placed cards_per_row gap
    (paste cv img
       (slot cards_per_row gap (Z.of_nat (length (pasted cv))))).
Proof.
  intros Hwp i img' xy. unfold paste. simpl.
  rewrite lookup_snoc_Some. intros [[_ Hi]|[-> [= <- <-]]]; [|done].
  by eapply Hwp.
Qed.

Lemma numbered_snoc (first : Z) (pages : list (canvas image))
    (cv : canvas image) :
  numbered deck_name first pages
  ++ [(page_name deck_name (first + Z.of_nat (length pages)), cv)]
  = numbered deck_name first (pages ++ [cv]).
Proof.
  unfold numbered. rewrite imap_app. simpl.
  by rewrite Nat.add_0_r.
Qed.

Lemma place_paginated (img : image) (st st' : locals image) :
  page_inv st → place img st = Ok st' → page_inv st'.
Proof.
  intros (Hsz & Hcc & Hwp & Hlt & pages & Hsv & Hpc & Hfull)
         [Hc ->]%place_Ok_inv.
  cbv zeta. rewrite Hcc.
  pose proof (well_placed_paste _ img Hwp) as Hwp'.
  destruct (Z.eqb_spec (Z.of_nat (length (pasted (the_canvas st))) + 1)
              max_cards) as [He|Hne]; unfold paginated; simpl.
  - repeat split; try done; try lia.
    exists (pages ++ [paste (the_canvas st) img
                        (slot cards_per_row gap
                           (Z.of_nat (length (pasted (the_canvas st)))))]).
    rewrite Hsv, Hpc, numbered_snoc, length_app. simpl.
    repeat split; try lia.
    apply Forall_app. split; [done|]. apply Forall_singleton.
    unfold full_page. simpl. rewrite length_app. simpl.
    repeat split; try done. lia.
  - rewrite length_app. simpl. repeat split; try done; try lia.
    by exists pages.
Qed.

Lemma place_copies_paginated (n : nat) (img : image)
    (st st' : locals image) :
  page_inv st → place_copies n img st = Ok st' → page_inv st'.
Proof.
  revert st. induction n as [|n IH]; intros st Hst H; simpl in H.
  - by injection H as <-.
  - apply bind_Ok in H as (st1 & H1 & H).
    eauto using place_paginated.
Qed.

Lemma place_images_paginated (imgs : list image) (qty : Z)
    (st st' : locals image) :
  page_inv st → place_images imgs qty st = Ok st' → page_inv st'.
Proof.
  revert st. induction imgs as [|img imgs IH]; intros st Hst H; simpl in H.
  - by injection H as <-.
  - apply bind_Ok in H as (st1 & H1 & H).
    eauto using place_copies_paginated.
Qed.

(** A card only touches the canvas, the counters and the files through
    [place_images]; before that it may add to the price. *)
Lemma process_card_places (c : card) (st st' : locals image) :
  process_card c st = Ok st' →
  ∃ (p : float) (imgs : list image),
    place_images imgs (quantity c) (with_price st p) = Ok st'.
Proof.
  unfold Plotter.process_card. intros H.
  apply bind_Ok in H as (response & _ & H).
  apply bind_Ok in H as (prices & _ & H).
  apply bind_Ok in H as (price & _ & H).
  apply bind_Ok in H as (st1 & H1 & H).
  assert (∃ p, st1 = with_price st p) as [p ->].
  { destruct (truthy price).
    - apply bind_Ok in H1 as (x & _ & H1).
      apply bind_Ok in H1 as (y & _ & H1).
      injection H1 as <-. by eexists.
    - injection H1 as <-. exists (deck_price st). by destruct st. }
  exists p.
  apply bind_Ok in H as (skip & _ & H). destruct skip.
  - injection H as <-. by exists [].
  - apply bind_Ok in H as (card_faces & _ & H).
    apply bind_Ok in H as (? & _ & H).
    apply bind_Ok in H as (imgs & _ & H).
    by exists imgs.
Qed.

Lemma place_images_price (imgs : list image) (qty : Z)
    (st st' : locals image) :
  place_images imgs qty st = Ok st' → deck_price st' = deck_price st.
Proof.
  revert st. induction imgs as [|img imgs IH]; intros st H; simpl in H.
  - by injection H as <-.
  - apply bind_Ok in H as (st1 & H1 & H). rewrite (IH _ H).
    clear H. revert st H1.
    induction (Z.to_nat qty) as [|n IHn]; intros st H1; simpl in H1.
    + by injection H1 as <-.
    + apply bind_Ok in H1 as (st2 & [_ ->]%place_Ok_inv & H1).
      rewrite (IHn _ H1). cbv zeta. by destruct (_ =? _).
Qed.

(** The running total: an entry that is processed adds its price times
    its quantity when ["prices"]["usd"] counts as true, and nothing
    otherwise. *)
Lemma process_card_price (c : card) (st st' : locals image) :
  process_card c st = Ok st' →
  ∃ response prices price,
    fetch_card_data (cardname c) = Ok response
    ∧ get response "prices" (JObj ∅) = Ok prices
    ∧ get prices "usd" JNull = Ok price
    ∧ if truthy price
      then ∃ p q, float_of float_of_str price = Ok p
                  ∧ float_of_int (quantity c) = Ok q
                  ∧ deck_price st' = (deck_price st + p * q)%float
      else deck_price st' = deck_price st.
Proof.
  unfold Plotter.process_card. intros H.
  apply bind_Ok in H as (response & Hr & H).
  apply bind_Ok in H as (prices & Hp & H).
  apply bind_Ok in H as (price & Hu & H).
  apply bind_Ok in H as (st1 & H1 & H).
  exists response, prices, price. repeat (split; [done|]).
  assert (deck_price st' = deck_price st1) as ->.
  { apply bind_Ok in H as (skip & _ & H). destruct skip.
    - by injection H as <-.
    - apply bind_Ok in H as (card_faces & _ & H).
      apply bind_Ok in H as (? & _ & H).
      apply bind_Ok in H as (imgs & _ & H).
      by apply place_images_price in H. }
  destruct (truthy price).
  - apply bind_Ok in H1 as (p & Hfp & H1).
    apply bind_Ok in H1 as (q & Hfq & H1).
    injection H1 as <-. by exists p, q.
  - by injection H1 as <-.
Qed.

(** A property of the canvas, the counters and the files that the
    placements preserve holds after the loop over the deck. *)
Lemma process_cards_preserves (P : locals image → Prop) :
  (∀ st p, P st → P (with_price st p)) →
  (∀ imgs qty st st', P st → place_images imgs qty st = Ok st' → P st') →
  ∀ cs st st', P st → process_cards cs st = Ok st' → P st'.
Proof.
  intros Hprice Hplace cs.
  induction cs as [|c cs IH]; intros st st' Hst H; simpl in H.
  - by injection H as <-.
  - apply bind_Ok in H as (st1 & H1 & H).
    apply process_card_places in H1 as (p & imgs & H1).
    eapply IH; [|exact H]. eapply Hplace; [|exact H1]. by apply Hprice.
Qed.

Lemma process_cards_paginated (cs : list card) (st st' : locals image) :
  page_inv st → process_cards cs st = Ok st' → page_inv st'.
Proof.
  apply process_cards_preserves.
  - intros st0 p. by destruct st0.
  - apply place_images_paginated.
Qed.

(** Without a column nothing can be placed. *)
Lemma place_images_zero (imgs : list image) (qty : Z)
    (st st' : locals image) :
  cards_per_row = 0 → place_images imgs qty st = Ok st' → st' = st.
Proof.
  intros Hz. revert st.
  induction imgs as [|img imgs IH]; intros st H; simpl in H.
  - by injection H as <-.
  - apply bind_Ok in H as (st1 & H1 & H).
    destruct (Z.to_nat qty); simpl in H1.
    + injection H1 as <-. by apply IH.
    + by rewrite place_zero in H1.
Qed.

Lemma process_cards_zero (cs : list card) (st st' : locals image) :
  cards_per_row = 0 → process_cards cs st = Ok st' →
  ∃ p, st' = with_price st p.
Proof.
  intros Hz.
  apply (process_cards_preserves (λ s, ∃ p, s = with_price st p)).
  - intros s p [p' ->]. by exists p.
  - intros imgs qty s s' [p ->] H.
    apply place_images_zero in H as ->; [|done]. by exists p.
  - exists (deck_price st). by destruct st.
Qed.
End Pagination.

Section RenderFacts.
Import Plotter.
Context {image : Type}.
Variable fetch_card_data : string → result json.
Variable fetch_image : json → result image.
Variable float_of_str : string → result float.
Variable round2 : float → float.

(** A render that returns: the sides of the page were not negative, the
    loop ran to its end from the first page, and the files are those of
    the loop and the trailing page when it has more than one image. *)
Lemma plot_deck_async_returns (d : deck) (basic : bool) (width height : Z)
    (deck_name : string) (gap : Z) (out : rendered image) :
  plot_deck_async image fetch_card_data fetch_image float_of_str round2
    d basic (width, height) deck_name gap = Ok out →
  let columns := (width - 100) / (750 + gap) in
  let capacity := columns * ((height - 100) / (1050 + gap)) in
  0 ≤ width ∧ 0 ≤ height
  ∧ ∃ st,
      process_cards image fetch_card_data fetch_image float_of_str
        width height gap deck_name basic columns capacity
        (all_cards d) (first_page (width, height)) = Ok st
      ∧ paginated (width, height) deck_name columns gap capacity st
      ∧ files out
        = saved st ++ (if 1 <? card_count st
                       then [(page_name deck_name (page_count st),
                              the_canvas st)]
                       else [])
      ∧ total_price out = round2 (deck_price st).
Proof.
  unfold plot_deck_async, floordiv. rewrite card_size. simpl.
  destruct (750 + gap =? 0); [discriminate|].
  destruct (1050 + gap =? 0); [discriminate|]. simpl.
  unfold Image_new. simpl.
  destruct (Z.ltb_spec width 0) as [|Hw]; [discriminate|].
  destruct (Z.ltb_spec height 0) as [|Hh]; [discriminate|]. simpl.
  intros Hrun. apply bind_Ok in Hrun as (st & Hst & Hrun).
  injection Hrun as <-. simpl. repeat split; try done.
  exists st. split; [exact Hst|]. split.
  - eapply process_cards_paginated; [|exact Hst].
    unfold paginated, first_page. simpl.
    repeat split; try done; try lia. by exists [].
  - split; [|done]. rewrite Z.gtb_ltb.
    destruct (1 <? card_count st); [done|by rewrite app_nil_r].
Qed.

(** C8.  At gap 0 a card is 750 by 1050 pixels, the layout has
    [(width - 100) // 750] columns and [(height - 100) // 1050] rows, a
    page holds columns times rows images, and the image placed when the
    count of the page is [i] is pasted at
    [(50 + (i // columns) * 750, 50 + (i % columns) * 1050)]: the
    quotient by the columns moves along x, the remainder along y.  So
    every image of every file of a render that returns is in the slot of
    its position on the page. *)
Theorem layout (d : deck) (basic : bool) (width height : Z)
    (deck_name : string) (out : rendered image) :
  plot_deck_async image fetch_card_data fetch_image float_of_str round2
    d basic (width, height) deck_name 0 = Ok out →
  let columns := (width - 100) / 750 in
  let rows := (height - 100) / 1050 in
  let capacity := columns * rows in
  MTG_CARD_SIZE = (750, 1050)
  ∧ floordiv (width - 100) (MTG_CARD_SIZE.1 + 0) = Ok columns
  ∧ floordiv (height - 100) (MTG_CARD_SIZE.2 + 0) = Ok rows
  ∧ (∀ img st, columns ≠ 0 →
       let xy := (50 + (card_count st / columns) * 750,
                  50 + (card_count st mod columns) * 1050) in
       let cv := Canvas (size (the_canvas st))
                   (pasted (the_canvas st) ++ [(img, xy)]) in
       place image width height 0 deck_name columns capacity img st
       = Ok (if card_count st + 1 =? capacity
             then Locals (Canvas (width, height) []) 0 (page_count st + 1)
                    (deck_price st)
                    (saved st
                     ++ [(page_name deck_name (page_count st), cv)])
             else Locals cv (card_count st + 1) (page_count st)
                    (deck_price st) (saved st)))
  ∧ (∀ name cv i img xy,
       (name, cv) ∈ files out → pasted cv !! i = Some (img, xy) →
       xy = (50 + (Z.of_nat i / columns) * 750,
             50 + (Z.of_nat i mod columns) * 1050)
       ∧ (1 ≤ capacity → Z.of_nat i < capacity)).
Proof.
  intros Hrun columns rows capacity.
  apply plot_deck_async_returns in Hrun
    as (Hw & Hh & st & _ & Hpag & Hfiles & _).
  rewrite !Z.add_0_r in Hpag. fold columns rows capacity in Hpag.
  split; [exact card_size|]. rewrite card_size.
  split; [reflexivity|]. split; [reflexivity|]. split.
  - intros img st0 Hc. cbv zeta.
    rewrite (place_ok _ _ _ _ _ _ _ _ Hc Hw Hh).
    unfold paste, slot. by rewrite !Z.add_0_r.
  - destruct Hpag as (_ & Hcc & Hwp & Hlt & pages & Hsv & _ & Hfull).
    assert (∀ (cv : canvas image) (i : nat) (img : image) (xy : Z * Z),
              well_placed columns 0 cv →
              pasted cv !! i = Some (img, xy) →
              xy = (50 + Z.of_nat i / columns * 750,
                    50 + Z.of_nat i `mod` columns * 1050)) as Hslot.
    { intros cv i img xy Hcv Hi. apply Hcv in Hi as ->.
      unfold slot. by rewrite !Z.add_0_r. }
    intros name cv i img xy Hin Hi. rewrite Hfiles, Hsv in Hin.
    apply elem_of_app in Hin as [Hin|Hin].
    + apply elem_of_lookup_imap_1 in Hin as (k & cv' & [= -> ->] & Hk).
      rewrite Forall_lookup in Hfull.
      destruct (Hfull _ _ Hk) as (_ & Hlen & Hcv).
      split; [by eapply Hslot|].
      apply lookup_lt_Some in Hi. lia.
    + destruct (1 <? card_count st); [|by apply elem_of_nil in Hin].
      apply list_elem_of_singleton in Hin as [= -> ->].
      split; [by eapply Hslot|].
      apply lookup_lt_Some in Hi. lia.
Qed.
End RenderFacts.

(** Witness of C8: the same render; the second image of a page is below
    the first, the third starts the second column. *)
Lemma layout_witness :
  ∃ out,
    Sample.plot_deck_async (Deck [Card "Shock" 6] []) true (1700, 2300)
      "burn" 0 = Ok out
    ∧ (Plotter.pasted <$> (Plotter.files out).*2)
      = [ [("shock.jpg", (50, 50)); ("shock.jpg", (50, 1100));
           ("shock.jpg", (800, 50)); ("shock.jpg", (800, 1100))];
          [("shock.jpg", (50, 50)); ("shock.jpg", (50, 1100))] ]
    ∧ ∀ name cv i img xy,
        (name, cv) ∈ Plotter.files out →
        Plotter.pasted cv !! i = Some (img, xy) →
        xy = (50 + (Z.of_nat i / ((1700 - 100) / 750)) * 750,
              50 + (Z.of_nat i mod ((1700 - 100) / 750)) * 1050)
        ∧ (1 ≤ (1700 - 100) / 750 * ((2300 - 100) / 1050) →
           Z.of_nat i < (1700 - 100) / 750 * ((2300 - 100) / 1050)).
Proof.
  eexists. split; [vm_compute; reflexivity|]. split; [reflexivity|].
  refine (proj2 (proj2 (proj2 (proj2
            (layout Sample.fetch_card_data Sample.fetch_image
               Sample.float_of_str Sample.round2
               (Deck [Card "Shock" 6] []) true 1700 2300 "burn" _ _))))).
  vm_compute. reflexivity.
Defined.

(* ================================================================== *)
(** * Theorems: a page too narrow for a card, and a card without price *)
(* ================================================================== *)


(** A card whose price is absent or null and that is not skipped reaches
    the [print] of its total, where [None * quantity] raises. *)
Lemma process_card_absent_price {image : Type}
    (fetch_card_data : string → result json)
    (fetch_image : json → result image)
    (float_of_str : string → result float)
    (width height gap : Z) (deck_name : string) (basic : bool)
    (cards_per_row max_cards : Z) (c : card) (st : Plotter.locals image)
    (response prices : json) (urls : list json) :
  fetch_card_data (cardname c) = Ok response →
  get response "prices" (JObj ∅) = Ok prices →
  get prices "usd" JNull = Ok JNull →
  (if negb basic
   then type_line ← get response "type_line" (JStr "");
        contains "Basic Land" type_line
   else Ok false) = Ok false →
  Plotter.face_urls response = Ok urls →
  Plotter.process_card image fetch_card_data fetch_image float_of_str
    width height gap deck_name basic cards_per_row max_cards c st
  = Raise TypeError.
Proof.
  intros H1 H2 H3 H4 H5. unfold Plotter.process_card.
  rewrite H1. simpl. rewrite H2. simpl. rewrite H3. simpl.
  rewrite H4. simpl. rewrite H5. reflexivity.
Qed.

(** C2, the failing input.  Two copies of a card priced "1.50" and three
    copies of a card without a price, on a letter page: the first entry
    adds 3.0 to the price, and the render raises [TypeError] at the second
    entry instead of returning the total 3.0.  An entry without a price
    only gets through when it is skipped as a basic land. *)
Theorem absent_price_raises :
  let shock := Card "Shock" 2 in
  let opt := Card "Opt" 3 in
  let forest := Card "Forest" 3 in
  let process_card :=
    Plotter.process_card Sample.image Sample.fetch_card_data
      Sample.fetch_image Sample.float_of_str 2550 3300 0 "burn" true 3 9 in
  Plotter.deck_price <$> process_card shock (first_page (2550, 3300))
  = Ok 3%float
  ∧ (∀ st, process_card opt st = Raise TypeError)
  ∧ Sample.plot_deck_async (Deck [shock; opt] []) true (2550, 3300) "burn" 0
    = Raise TypeError
  ∧ Sample.plot_deck_async (Deck [shock; forest] []) true (2550, 3300)
      "burn" 0
    = Raise TypeError
  ∧ Plotter.total_price
      <$> Sample.plot_deck_async (Deck [shock; forest] []) false
            (2550, 3300) "burn" 0
    = Ok 3%float.
Proof.
  intros shock opt forest process_card. split; [vm_compute; reflexivity|].
  split; [|repeat split; vm_compute; reflexivity].
  intros st. unfold process_card.
  apply (process_card_absent_price _ _ _ _ _ _ _ _ _ _ _ _
           (Sample.card_object JNull "Instant" "opt.jpg")
           (JObj {[ "usd" := JNull ]}) [JStr "opt.jpg"]);
    vm_compute; reflexivity.
Qed.

(* ================================================================== *)
(** * Further properties of the legality checker *)
(* ================================================================== *)

Section CheckerFacts.
Import DeckChecker.

Lemma census_settled (l : list phase) :
  forallb finished l = true → census holds_permit l = 0.
Proof.
  induction l as [|p l IH]; simpl; [done|].
  intros [Hp Hl]%andb_true_iff. rewrite (IH Hl). by destruct p.
Qed.

(** X1.  When [check_all_cards] has run every task to its end, all ten
    permits are back in the semaphore, whatever the responses were and in
    whatever order they came. *)
Theorem permits_returned (d : deck) (format : string) (t0 : Z)
    (evs : list event) (st : state) :
  check_all_cards d format t0 evs = Some st →
  all_finished st = true →
  permits st = 10.
Proof.
  intros Hrun Hall. unfold check_all_cards in Hrun.
  apply run_rate_limited in Hrun as (_ & Hsum & _);
    [|apply started_rate_limited].
  rewrite (census_settled _ Hall) in Hsum.
  unfold SEMAPHORE_PERMITS in Hsum. lia.
Qed.

(** Witness of X1: two cards, the first request fails. *)
Lemma permits_returned_witness :
  let d := Deck [Card "Ponder" 1; Card "Opt" 1] [] in
  let evs := [Acquire 1; Acquire 0; Tick 100; Wake 0; Wake 1;
              Respond 0 (Failed "timeout");
              Respond 1 (Fetched (JObj ∅))] in
  ∃ st, check_all_cards d "modern" 0 evs = Some st
        ∧ all_finished st = true
        ∧ permits st = 10.
Proof.
  intros d evs. eexists.
  split; [vm_compute; reflexivity|]. split; [reflexivity|].
  apply (permits_returned d "modern" 0 evs); vm_compute; reflexivity.
Defined.

(** X2.  A body that counts as true and is not an object (a non-empty
    list or string, a number, [true]) is not contained like a transport
    error: when it arrives, the task raises [AttributeError] at
    [card_data.get] and so does [run_checks]. *)
Theorem truthy_non_object_raises (d : deck) (format : string) (t0 : Z)
    (evs : list event) (st : state) (i : nat) (c : card) (body : json)
    (acquired sent : Z) :
  check_all_cards d format t0 evs = Some st →
  raised st = None →
  phases st !! i = Some (InFlight acquired sent) →
  all_cards d !! i = Some c →
  truthy body = true →
  (∀ m, body ≠ JObj m) →
  run_checks d format t0 (evs ++ [Respond i (Fetched body)])
  = Some (Raise AttributeError).
Proof.
  intros Hrun Hr Hp Hc Ht Hobj. unfold run_checks, check_all_cards in *.
  rewrite run_app, Hrun. simpl. unfold step. rewrite Hr, Hp, Hc.
  unfold _check_card. simpl. rewrite Ht. simpl.
  destruct body; try reflexivity. by destruct (Hobj m).
Qed.

(** Witness of X2: the catalog answers with a list. *)
Lemma truthy_non_object_raises_witness :
  let d := Deck [Card "Ponder" 1] [] in
  let evs := [Acquire 0; Tick 100; Wake 0] in
  run_checks d "modern" 0 (evs ++ [Respond 0 (Fetched (JArr [JNull]))])
  = Some (Raise AttributeError).
Proof.
  intros d evs.
  eapply (truthy_non_object_raises d "modern" 0 evs _ 0 (Card "Ponder" 1)
            (JArr [JNull]) 0 100);
    try reflexivity; try done.
Defined.
End CheckerFacts.

Section Reports.
Import DeckChecker.

Lemma str_length_app (a b : string) :
  String.length (a +:+ b) = (String.length a + String.length b)%nat.
Proof. induction a as [|c a IH]; simpl; [done|]. by rewrite IH. Qed.

Lemma str_replace_length (old new : ascii) (s : string) :
  String.length (str_replace old new s) = String.length s.
Proof. induction s as [|c s IH]; simpl; [done|]. by rewrite IH. Qed.

Lemma join_cons (sep v : string) (vs : list string) :
  ∃ rest, join sep (v :: vs) = v +:+ rest.
Proof.
  unfold join. destruct vs as [|w vs]; simpl.
  - exists "". induction v as [|c v IH]; [done|].
    change (String c v = String c (v +:+ "")). by f_equal.
  - by eexists.
Qed.

Lemma unlike_legal_report (format v : string) (vs : list string) :
  unlike_legal format v → report format (v :: vs) ≠ "Legal in " +:+ format.
Proof.
  unfold report. destruct (join_cons newline v vs) as [rest ->].
  intros [(c & v' & -> & Hc)|Hlen] Heq.
  - change (String c (v' +:+ rest) = String "L" ("egal in " +:+ format))
      in Heq.
    congruence.
  - apply (f_equal String.length) in Heq.
    rewrite !str_length_app in Heq. simpl in Heq. lia.
Qed.

(** The message in the goal starts with a letter that is not "L". *)
Ltac other_letter :=
  left;
  unfold commander_main_msg, commander_side_msg, maindeck_msg,
    sideboard_msg, error_msg, too_many_msg, legality_msg;
  match goal with
  | |- ∃ c v', String.append (String ?a ?s) ?t = _ ∧ _ =>
      exists a, (String.append s t); split; [reflexivity|done]
  end.
Ltac each_other_letter :=
  repeat first [apply Forall_nil_2 | apply Forall_cons_2; [other_letter|]].

Lemma unlike_legal_size (d : deck) (format : string) :
  Forall (unlike_legal format) (check_deck_size d format []).
Proof.
  unfold check_deck_size.
  repeat match goal with |- context [if ?b then _ else _] => destruct b end;
    simpl; each_other_letter.
Qed.

Lemma unlike_legal_legality (format name st : string) :
  st ≠ "" → unlike_legal format (legality_msg name st format).
Proof.
  intros Hst. unfold legality_msg. destruct name as [|c name].
  - left. exists " "%char, ("is " +:+ st +:+ " in " +:+ format).
    split; [reflexivity|done].
  - right. simpl. rewrite !str_length_app. simpl.
    destruct st; [done|]. simpl. lia.
Qed.

Lemma unlike_legal_messages (format : string) (c : card) (r : response) :
  Forall (unlike_legal format) (messages format c r).
Proof.
  destruct r as [body|err]; simpl.
  - destruct body; try constructor. case_decide; [constructor|].
    apply Forall_app. split.
    + unfold legality_violation.
      destruct (status format m) as [s|]; repeat case_decide;
        repeat first [apply Forall_nil_2 | apply Forall_cons_2];
        try (apply unlike_legal_legality; try done).
      intros He. apply (f_equal String.length) in He.
      rewrite str_replace_length in He. by destruct s.
    + unfold quantity_violation. repeat case_decide;
        try destruct (String.prefix _ _); each_other_letter.
  - each_other_letter.
Qed.

Lemma unlike_legal_gathered (format : string) (cards : list card)
    (arr : list (nat * response)) :
  Forall (unlike_legal format) (gathered format cards arr).
Proof.
  unfold gathered. induction arr as [|a arr IH]; simpl; [constructor|].
  apply Forall_app. split; [|done].
  destruct (cards !! a.1); [apply unlike_legal_messages|constructor].
Qed.

(** X3.  On responses the checker can evaluate, [run_checks] returns
    "Legal in {format}" exactly when there is no violation at all: no
    violation message, and no report of several of them, reads like that
    line.  So a deck of another format than commander with fewer than 60
    maindeck cards is never reported legal. *)
Theorem legal_iff_no_violation (d : deck) (format : string) (t0 : Z)
    (evs : list event) (out : result string) :
  Forall (λ a, evaluable format a.2 = true) (arrivals evs) →
  run_checks d format t0 evs = Some out →
  (out = Ok ("Legal in " +:+ format)
   ↔ check_deck_size d format [] = []
     ∧ gathered format (all_cards d) (arrivals evs) = [])
  ∧ (format ≠ "commander" → total_quantity (maindeck d) < 60 →
     out ≠ Ok ("Legal in " +:+ format)).
Proof.
  intros Hev Hrun.
  destruct (run_checks_complete d format t0 evs out Hev Hrun) as [-> _].
  assert (Ok (report format
                (check_deck_size d format []
                 ++ gathered format (all_cards d) (arrivals evs)))
          = Ok ("Legal in " +:+ format)
          ↔ check_deck_size d format [] = []
            ∧ gathered format (all_cards d) (arrivals evs) = []) as Hiff.
  { split.
    - intros [= Heq].
      pose proof (unlike_legal_size d format) as Hs.
      pose proof (unlike_legal_gathered format (all_cards d) (arrivals evs))
        as Hg.
      destruct (check_deck_size d format []) as [|v vs].
      + rewrite app_nil_l in Heq.
        destruct (gathered _ _ _) as [|v vs]; [done|].
        apply Forall_cons in Hg as [Hv _].
        by destruct (unlike_legal_report format v vs Hv).
      + apply Forall_cons in Hs as [Hv _].
        by destruct (unlike_legal_report format v
                       (vs ++ gathered format (all_cards d) (arrivals evs))
                       Hv).
    - by intros [-> ->]. }
  split; [exact Hiff|].
  intros Hf Hlt Heq. apply Hiff in Heq as [Hsize _].
  unfold check_deck_size in Hsize.
  rewrite (proj2 (String.eqb_neq _ _) Hf) in Hsize.
  rewrite (proj2 (Z.ltb_lt _ _) Hlt) in Hsize. simpl in Hsize.
  by destruct (_ >? _).
Qed.

(** Witness of X3: sixty cards that are legal. *)
Lemma legal_iff_no_violation_witness :
  let d := Deck [Card "Island" 60] [] in
  let r := Fetched (JObj {[ "legalities" := JObj {[ "modern" := JStr "legal" ]};
                            "type_line" := JStr "Basic Land - Island" ]}) in
  let evs := sequential (λ _, r) 1 in
  run_checks d "modern" 0 evs = Some (Ok ("Legal in " +:+ "modern"))
  ∧ (Ok ("Legal in " +:+ "modern") = Ok ("Legal in " +:+ "modern")
     ↔ check_deck_size d "modern" [] = []
       ∧ gathered "modern" (all_cards d) (arrivals evs) = []).
Proof.
  intros d r evs. split; [vm_compute; reflexivity|].
  refine (proj1 (legal_iff_no_violation d "modern" 0 evs _ _ _)).
  - unfold evs, sequential. rewrite arrivals_in_turn. simpl.
    repeat (constructor; [vm_compute; reflexivity|]). constructor.
  - vm_compute. reflexivity.
Defined.

(** X4.  The quantity limit is applied to each entry by itself: a deck of
    a legal size in which every entry has at most four copies and every
    card is answered as legal is reported "Legal in {format}", however
    many entries name the same card. *)
Theorem limit_is_per_entry (d : deck) (format : string) (t0 : Z)
    (evs : list event) (out : result string) :
  (if String.eqb format "commander"
   then total_quantity (maindeck d) = 99 ∧ total_quantity (sidedeck d) = 1
   else 60 ≤ total_quantity (maindeck d)
        ∧ total_quantity (sidedeck d) ≤ 15) →
  Forall (λ c, quantity c ≤ 4) (all_cards d) →
  Forall (λ a, ∃ m, a.2 = Fetched (JObj m)
                    ∧ typed format (JObj m) = true
                    ∧ status format m = Some "legal") (arrivals evs) →
  run_checks d format t0 evs = Some out →
  out = Ok ("Legal in " +:+ format).
Proof.
  intros Hsize Hqty Harr Hrun.
  assert (Forall (λ a, evaluable format a.2 = true) (arrivals evs)) as Hev.
  { eapply Forall_impl; [exact Harr|]. intros a (m & -> & Ht & _). simpl.
    by destruct (negb _). }
  destruct (run_checks_complete d format t0 evs out Hev Hrun) as [-> _].
  assert (check_deck_size d format [] = []) as ->.
  { unfold check_deck_size. destruct (String.eqb format "commander").
    - destruct Hsize as [-> ->]. reflexivity.
    - destruct Hsize as [Hm Hs].
      rewrite (proj2 (Z.ltb_ge _ _) Hm). simpl.
      destruct (Z.gtb_spec (total_quantity (sidedeck d)) 15); [lia|done]. }
  assert (gathered format (all_cards d) (arrivals evs) = []) as ->;
    [|reflexivity].
  clear Hrun Hev. unfold gathered.
  induction Harr as [|a arr (m & Ha & _ & Hst) _ IH]; [done|].
  simpl. rewrite IH, app_nil_r.
  destruct (all_cards d !! a.1) as [c|] eqn:Hc; [|done].
  rewrite Ha. unfold messages. case_decide; [done|].
  unfold legality_violation, quantity_violation. rewrite Hst. simpl.
  rewrite Forall_forall in Hqty.
  pose proof (Hqty c (list_elem_of_lookup_2 _ _ _ Hc)).
  repeat case_decide; try lia; try done.
  by destruct (String.prefix _ _).
Qed.

(** Witness of X4: sixty copies of one card, in fifteen entries of
    four. *)
Lemma limit_is_per_entry_witness :
  let d := Deck (replicate 15 (Card "Opt" 4)) [] in
  let r := Fetched (JObj {[ "legalities" := JObj {[ "modern" := JStr "legal" ]};
                            "type_line" := JStr "Instant" ]}) in
  ∃ out, run_checks d "modern" 0 (sequential (λ _, r) 15) = Some out
         ∧ out = Ok ("Legal in " +:+ "modern").
Proof.
  intros d r. exists (Ok "Legal in modern").
  assert (run_checks d "modern" 0 (sequential (λ _, r) 15)
          = Some (Ok "Legal in modern")) as Hrun
    by (vm_compute; reflexivity).
  split; [exact Hrun|].
  apply (limit_is_per_entry d "modern" 0 (sequential (λ _, r) 15)).
  - split; vm_compute; intros H; discriminate H.
  - apply Forall_forall. intros c Hc. unfold d, all_cards in Hc.
    cbn [maindeck sidedeck] in Hc. rewrite app_nil_r in Hc.
    apply elem_of_replicate in Hc as [-> _]. simpl. lia.
  - unfold sequential. rewrite arrivals_in_turn. simpl.
    repeat (constructor;
            [eexists; split; [reflexivity|split; vm_compute; reflexivity]|]).
    constructor.
  - exact Hrun.
Defined.
End Reports.

(* ================================================================== *)
(** * Further properties of the proof sheet *)
(* ================================================================== *)

Section SheetLoop.
Import Plotter.
Context {image : Type}.
Variable fetch_card_data : string → result json.
Variable fetch_image : json → result image.
Variable float_of_str : string → result float.
Variables (width height gap : Z) (deck_name : string) (basic : bool).
Variables (cards_per_row max_cards : Z).

#[local] Abbreviation place :=
  (place image width height gap deck_name cards_per_row max_cards).
#[local] Abbreviation place_copies :=
  (place_copies image width height gap deck_name cards_per_row max_cards).
#[local] Abbreviation place_images :=
  (place_images image width height gap deck_name cards_per_row max_cards).
#[local] Abbreviation process_card :=
  (process_card image fetch_card_data fetch_image float_of_str
     width height gap deck_name basic cards_per_row max_cards).
#[local] Abbreviation process_cards :=
  (process_cards image fetch_card_data fetch_image float_of_str
     width height gap deck_name basic cards_per_row max_cards).

(** The body of the loop is the price, then the images, then the
    placements. *)
Lemma process_card_split (c : card) (st : locals image) :
  process_card c st
  = (imgs ← entry_images fetch_card_data fetch_image float_of_str basic c;
     p ← add_price fetch_card_data float_of_str c (deck_price st);
     place_images imgs (quantity c) (with_price st p)).
Proof.
  unfold Plotter.process_card, entry_images, add_price.
  destruct (fetch_card_data (cardname c)) as [response|]; [simpl|done].
  destruct (get response "prices" (JObj ∅)) as [prices|]; [simpl|done].
  destruct (get prices "usd" JNull) as [price|]; [simpl|done].
  assert (∀ (st1 : locals image) (p : float),
            ((if negb basic
              then type_line ← get response "type_line" (JStr "");
                   contains "Basic Land" type_line
              else Ok false)
             ≫= λ skip : bool,
                  if skip then Ok (with_price st p)
                  else card_faces ← face_urls response;
                       _ ← mul_int price (quantity c);
                       imgs ← mapM fetch_image card_faces;
                       place_images imgs (quantity c) (with_price st p))
            = ((if negb basic
                then type_line ← get response "type_line" (JStr "");
                     contains "Basic Land" type_line
                else Ok false)
               ≫= λ skip : bool,
                    if skip then Ok []
                    else card_faces ← face_urls response;
                         _ ← mul_int price (quantity c);
                         mapM fetch_image card_faces)
              ≫= λ imgs, place_images imgs (quantity c) (with_price st p))
    as Hrest.
  { intros _ p.
    destruct (if negb basic then _ else _) as [[]|]; simpl; try done.
    destruct (face_urls response); simpl; [|done].
    destruct (mul_int price (quantity c)); simpl; [|done].
    by destruct (mapM fetch_image _). }
  destruct (truthy price).
  - destruct (float_of float_of_str price) as [p|]; [simpl|done].
    destruct (float_of_int (quantity c)) as [q|]; [simpl|done].
    rewrite <- (Hrest st). reflexivity.
  - simpl. rewrite <- (Hrest st).
    replace (with_price st (deck_price st)) with st by by destruct st.
    reflexivity.
Qed.

Lemma printed_app (a b : list (string * canvas image)) :
  printed (a ++ b) = printed a ++ printed b.
Proof. unfold printed. by rewrite fmap_app, concat_app. Qed.

Lemma placed_with_price (st : locals image) (p : float) :
  placed (with_price st p) = placed st.
Proof. reflexivity. Qed.

(** A placement adds its image after those placed before, wherever the
    page ends. *)
Lemma place_placed (img : image) (st st' : locals image) :
  place img st = Ok st' → placed st' = placed st ++ [img].
Proof.
  intros [_ ->]%place_Ok_inv. cbv zeta. unfold placed.
  destruct (_ =? _); simpl.
  - rewrite printed_app, app_nil_r, <- app_assoc. f_equal.
    unfold printed, images_on. simpl. by rewrite app_nil_r, fmap_app.
  - unfold images_on. simpl. by rewrite fmap_app, app_assoc.
Qed.

Lemma place_copies_placed (n : nat) (img : image) (st st' : locals image) :
  place_copies n img st = Ok st' → placed st' = placed st ++ replicate n img.
Proof.
  revert st. induction n as [|n IH]; intros st H; simpl in H.
  - injection H as <-. by rewrite app_nil_r.
  - apply bind_Ok in H as (st1 & H1%place_placed & H%IH).
    rewrite H, H1, <- app_assoc. reflexivity.
Qed.

Lemma place_images_placed (imgs : list image) (qty : Z)
    (st st' : locals image) :
  place_images imgs qty st = Ok st' →
  placed st' = placed st ++ copies qty imgs.
Proof.
  revert st. induction imgs as [|img imgs IH]; intros st H; simpl in H.
  - injection H as <-. by rewrite app_nil_r.
  - apply bind_Ok in H as (st1 & H1%place_copies_placed & H%IH).
    rewrite H, H1, <- app_assoc. reflexivity.
Qed.

(** The loop over the deck places the images of the sheet and leaves the
    sum of the prices. *)
Lemma process_cards_sheet (cs : list card) (st st' : locals image) :
  process_cards cs st = Ok st' →
  ∃ imgs,
    sheet fetch_card_data fetch_image float_of_str basic cs = Ok imgs
    ∧ placed st' = placed st ++ imgs
    ∧ sum_prices fetch_card_data float_of_str cs (deck_price st)
      = Ok (deck_price st').
Proof.
  revert st. induction cs as [|c cs IH]; intros st H; simpl in H.
  - injection H as <-. exists []. by rewrite app_nil_r.
  - apply bind_Ok in H as (st1 & H1 & H). rewrite process_card_split in H1.
    apply bind_Ok in H1 as (imgs & Himgs & H1).
    apply bind_Ok in H1 as (p & Hp & H1).
    destruct (IH _ H) as (rest & Hrest & Hpl & Hsum).
    exists (copies (quantity c) imgs ++ rest). simpl.
    rewrite Himgs, Hrest, Hp. simpl.
    rewrite Hpl, (place_images_placed _ _ _ _ H1), <- app_assoc.
    pose proof (place_images_price _ _ _ _ _ _ _ _ _ _ H1) as Hp1.
    simpl in Hp1. rewrite Hp1 in Hsum. done.
Qed.

(** On a page without room for a row nothing is ever saved in the
    loop. *)
Lemma process_cards_never_full (cs : list card) (st st' : locals image) :
  max_cards ≤ 0 → saved st = [] ∧ page_count st = 1 ∧ 0 ≤ card_count st →
  process_cards cs st = Ok st' →
  saved st' = [] ∧ page_count st' = 1 ∧ 0 ≤ card_count st'.
Proof.
  intros Hcap. revert cs st st'.
  apply (process_cards_preserves _ _ _ _ _ _ _ _ _ _
           (λ s, saved s = [] ∧ page_count s = 1 ∧ 0 ≤ card_count s)).
  - intros st0 p. by destruct st0.
  - intros imgs qty st st' Hst H. revert st Hst H.
    induction imgs as [|img imgs IH]; intros st Hst H; simpl in H.
    + by injection H as <-.
    + apply bind_Ok in H as (st1 & H1 & H). eapply IH; [|exact H].
      clear H IH. revert st Hst H1.
      induction (Z.to_nat qty) as [|n IHn]; intros st Hst H1; simpl in H1.
      * by injection H1 as <-.
      * apply bind_Ok in H1 as (st2 & [_ ->]%place_Ok_inv & H1).
        eapply IHn; [|exact H1]. cbv zeta.
        destruct (Z.eqb_spec (card_count st + 1) max_cards); [lia|].
        simpl. repeat split; try tauto. lia.
Qed.
End SheetLoop.

Section SheetFacts.
Import Plotter.
Context {image : Type}.
Variable fetch_card_data : string → result json.
Variable fetch_image : json → result image.
Variable float_of_str : string → result float.
Variable round2 : float → float.

#[local] Abbreviation plot_deck_async :=
  (plot_deck_async image fetch_card_data fetch_image float_of_str round2).
#[local] Abbreviation sheet :=
  (sheet fetch_card_data fetch_image float_of_str).
#[local] Abbreviation sum_prices :=
  (sum_prices fetch_card_data float_of_str).

Lemma printed_numbered (deck_name : string) (first : Z)
    (pages : list (canvas image)) :
  printed (numbered deck_name first pages) = concat (images_on <$> pages).
Proof.
  induction pages as [|cv pages IH] using rev_ind; [done|].
  rewrite <- numbered_snoc, printed_app, IH, fmap_app, concat_app.
  unfold printed. simpl. reflexivity.
Qed.

Lemma full_pages_length (dimensions : Z * Z) (columns gap capacity : Z)
    (pages : list (canvas image)) :
  Forall (full_page dimensions columns gap capacity) pages →
  Z.of_nat (length (concat (images_on <$> pages)))
  = Z.of_nat (length pages) * capacity.
Proof.
  induction 1 as [|cv pages (_ & Hlen & _) _ IH]; [done|].
  rewrite fmap_cons. simpl concat. rewrite length_app. unfold images_on at 1.
  rewrite length_fmap. simpl length. lia.
Qed.

Lemma well_placed_laid_out (columns gap : Z) (cv : canvas image) :
  well_placed columns gap cv →
  cv = laid_out (size cv) columns gap (images_on cv).
Proof.
  destruct cv as [sz ps]. unfold well_placed, laid_out, images_on. simpl.
  intros Hwp. f_equal. apply list_eq. intros i.
  rewrite list_lookup_imap, list_lookup_fmap.
  destruct (ps !! i) as [[img xy]|] eqn:Hi; simpl; [|done].
  by rewrite (Hwp i img xy Hi).
Qed.

(** A render that returns, with the sheet of its deck. *)
Lemma plot_deck_async_sheet (d : deck) (basic : bool) (width height : Z)
    (deck_name : string) (gap : Z) (out : rendered image) :
  plot_deck_async d basic (width, height) deck_name gap = Ok out →
  let columns := (width - 100) / (750 + gap) in
  let capacity := columns * ((height - 100) / (1050 + gap)) in
  ∃ st imgs,
    sheet basic (all_cards d) = Ok imgs
    ∧ placed st = imgs
    ∧ sum_prices (all_cards d) 0 = Ok (deck_price st)
    ∧ paginated (width, height) deck_name columns gap capacity st
    ∧ (capacity ≤ 0 → saved st = [] ∧ page_count st = 1)
    ∧ files out
      = saved st ++ (if 1 <? card_count st
                     then [(page_name deck_name (page_count st),
                            the_canvas st)]
                     else [])
    ∧ total_price out = round2 (deck_price st).
Proof.
  intros Hrun columns capacity.
  apply plot_deck_async_returns in Hrun
    as (Hw & Hh & st & Hst & Hpag & Hfiles & Hprice).
  fold columns capacity in Hst, Hpag.
  destruct (process_cards_sheet _ _ _ _ _ _ _ _ _ _ _ _ _ Hst)
    as (imgs & Hsheet & Hpl & Hsum).
  exists st, imgs. repeat (split; [done|]). split; [|done].
  intros Hcap.
  assert (saved (first_page (image := image) (width, height)) = []
          ∧ page_count (first_page (image := image) (width, height)) = 1
          ∧ 0 ≤ card_count (first_page (image := image) (width, height)))
    as Hfirst by done.
  destruct (process_cards_never_full _ _ _ _ _ _ _ _ _ _ _ _ _ Hcap
              Hfirst Hst) as (? & ? & _).
  done.
Qed.

(** The images on the pages and on the canvas of the loop, counted. *)
Lemma paginated_count (dimensions : Z * Z) (deck_name : string)
    (columns gap capacity : Z) (st : locals image) :
  paginated dimensions deck_name columns gap capacity st →
  ∃ n : Z,
    0 ≤ n
    ∧ Z.of_nat (length (saved st)) = n
    ∧ Z.of_nat (length (printed (saved st))) = n * capacity
    ∧ Z.of_nat (length (images_on (the_canvas st))) = card_count st
    ∧ Z.of_nat (length (placed st)) = n * capacity + card_count st
    ∧ 0 ≤ card_count st
    ∧ (1 ≤ capacity → card_count st < capacity).
Proof.
  intros (_ & Hcc & _ & Hlt & pages & Hsv & _ & Hfull).
  exists (Z.of_nat (length pages)).
  assert (Z.of_nat (length (printed (saved st)))
          = Z.of_nat (length pages) * capacity) as Hpr.
  { rewrite Hsv, printed_numbered. by eapply full_pages_length. }
  assert (Z.of_nat (length (images_on (the_canvas st))) = card_count st)
    as Hon.
  { unfold images_on. by rewrite length_fmap. }
  repeat split; try done; try lia.
  - rewrite Hsv. unfold numbered. by rewrite length_imap.
  - unfold placed. rewrite length_app. lia.
Qed.

(** X5.  The files of a render that returns hold the images of the deck
    in the order of the entries, each face [quantity] times, except that
    the last image is missing when it is alone on the trailing canvas:
    with room for [capacity >= 1] images a page, when the number of
    images leaves the remainder 1 (and a page holds more than one). *)
Theorem sheet_printed (d : deck) (basic : bool) (width height : Z)
    (deck_name : string) (gap : Z) (out : rendered image) :
  plot_deck_async d basic (width, height) deck_name gap = Ok out →
  let capacity :=
    (width - 100) / (750 + gap) * ((height - 100) / (1050 + gap)) in
  ∃ imgs,
    sheet basic (all_cards d) = Ok imgs
    ∧ printed (files out)
      = if lost_image capacity (Z.of_nat (length imgs))
        then removelast imgs else imgs.
Proof.
  intros Hrun capacity.
  apply plot_deck_async_sheet in Hrun
    as (st & imgs & Hsheet & Hpl & _ & Hpag & _ & Hfiles & _).
  fold capacity in Hpag. exists imgs. split; [done|].
  apply paginated_count in Hpag
    as (n & Hn & _ & Hpr & Hon & Hlen & Hcc & Hlt).
  rewrite Hpl in Hlen. rewrite Hfiles, printed_app.
  assert (lost_image capacity (Z.of_nat (length imgs))
          = (card_count st =? 1)) as ->.
  { unfold lost_image. rewrite Hlen.
    destruct (Z.leb_spec 1 capacity) as [Hcap|Hcap].
    - rewrite Z.add_comm, Z_mod_plus_full, Z.mod_small by lia. done.
    - replace (n * capacity) with 0 by nia. done. }
  destruct (Z.ltb_spec 1 (card_count st)) as [Hgt|Hle].
  - rewrite (proj2 (Z.eqb_neq _ _)) by lia.
    rewrite <- Hpl. unfold placed, printed. simpl. by rewrite app_nil_r.
  - rewrite app_nil_r. rewrite <- Hpl. unfold placed.
    destruct (images_on (the_canvas st)) as [|img [|img' l]] eqn:Himg;
      simpl in Hon.
    + rewrite (proj2 (Z.eqb_neq _ _)) by lia. by rewrite app_nil_r.
    + rewrite (proj2 (Z.eqb_eq _ _)) by lia. by rewrite removelast_last.
    + lia.
Qed.

(** X6.  With room for [capacity >= 1] images a page, a render that
    returns writes one file for every [capacity] images of the deck and
    one more when more than one image is left over. *)
Theorem number_of_files (d : deck) (basic : bool) (width height : Z)
    (deck_name : string) (gap : Z) (out : rendered image) :
  plot_deck_async d basic (width, height) deck_name gap = Ok out →
  let capacity :=
    (width - 100) / (750 + gap) * ((height - 100) / (1050 + gap)) in
  1 ≤ capacity →
  ∃ imgs,
    sheet basic (all_cards d) = Ok imgs
    ∧ Z.of_nat (length (files out))
      = Z.of_nat (length imgs) / capacity
        + (if 1 <? Z.of_nat (length imgs) mod capacity then 1 else 0).
Proof.
  intros Hrun capacity Hcap.
  apply plot_deck_async_sheet in Hrun
    as (st & imgs & Hsheet & Hpl & _ & Hpag & _ & Hfiles & _).
  fold capacity in Hpag. exists imgs. split; [done|].
  apply paginated_count in Hpag
    as (n & Hn & Hsv & _ & _ & Hlen & Hcc & Hlt).
  rewrite Hpl in Hlen. rewrite Hfiles, length_app, Hlen.
  rewrite (Z.add_comm (n * capacity)), Z_mod_plus_full, Z.mod_small by lia.
  rewrite Z.div_add, Z.div_small by lia.
  destruct (1 <? card_count st); simpl; lia.
Qed.

(** X7.  On a page with no room for a row of cards ([capacity <= 0], as
    when the height is below 1150 at gap 0) the canvas is never full: a
    render that returns writes the single file "{deck_name}_1.png" with
    all the images of the deck, each in the slot of its position, or no
    file at all when the deck has at most one image. *)
Theorem short_page (d : deck) (basic : bool) (width height : Z)
    (deck_name : string) (gap : Z) (out : rendered image) :
  plot_deck_async d basic (width, height) deck_name gap = Ok out →
  let columns := (width - 100) / (750 + gap) in
  let capacity := columns * ((height - 100) / (1050 + gap)) in
  capacity ≤ 0 →
  ∃ imgs,
    sheet basic (all_cards d) = Ok imgs
    ∧ files out
      = if 1 <? Z.of_nat (length imgs)
        then [(deck_name +:+ "_" +:+ str_of_int 1 +:+ ".png",
               laid_out (width, height) columns gap imgs)]
        else [].
Proof.
  intros Hrun columns capacity Hcap.
  apply plot_deck_async_sheet in Hrun
    as (st & imgs & Hsheet & Hpl & _ & Hpag & Hnever & Hfiles & _).
  fold columns capacity in Hpag, Hnever. exists imgs. split; [done|].
  destruct (Hnever Hcap) as [Hsv Hpc].
  pose proof Hpag as (Hsz & _ & Hwp & _).
  apply paginated_count in Hpag as (n & _ & _ & _ & Hon & _).
  unfold placed in Hpl. rewrite Hsv in Hpl. simpl in Hpl.
  rewrite Hfiles, Hsv, Hpc, <- Hpl, Hon. simpl.
  destruct (1 <? card_count st); [|done].
  rewrite (well_placed_laid_out _ _ _ Hwp) at 1. by rewrite Hsz.
Qed.

(** Every image of every file is in the slot of its position, and below
    the capacity when there is one. *)
Lemma file_slots (d : deck) (basic : bool) (width height : Z)
    (deck_name : string) (gap : Z) (out : rendered image) :
  plot_deck_async d basic (width, height) deck_name gap = Ok out →
  let columns := (width - 100) / (750 + gap) in
  let capacity := columns * ((height - 100) / (1050 + gap)) in
  ∀ name cv i img xy,
    (name, cv) ∈ files out → pasted cv !! i = Some (img, xy) →
    xy = slot columns gap (Z.of_nat i)
    ∧ (1 ≤ capacity → Z.of_nat i < capacity).
Proof.
  intros Hrun columns capacity.
  apply plot_deck_async_returns in Hrun
    as (_ & _ & st & _ & Hpag & Hfiles & _).
  fold columns capacity in Hpag.
  destruct Hpag as (_ & Hcc & Hwp & Hlt & pages & Hsv & _ & Hfull).
  intros name cv i img xy Hin Hi. rewrite Hfiles, Hsv in Hin.
  apply elem_of_app in Hin as [Hin|Hin].
  - apply elem_of_lookup_imap_1 in Hin as (k & cv' & [= -> ->] & Hk).
    rewrite Forall_lookup in Hfull.
    destruct (Hfull _ _ Hk) as (_ & Hlen & Hcv).
    split; [by eapply Hcv|].
    apply lookup_lt_Some in Hi. lia.
  - destruct (1 <? card_count st); [|by apply elem_of_nil in Hin].
    apply list_elem_of_singleton in Hin as [= -> ->].
    split; [by eapply Hwp|].
    apply lookup_lt_Some in Hi. lia.
Qed.

(** X8.  With at least one column and a gap that is not negative, no two
    images of a file share a pixel: their 750 by 1050 rectangles are
    apart along x or along y. *)
Theorem cards_do_not_overlap (d : deck) (basic : bool) (width height : Z)
    (deck_name : string) (gap : Z) (out : rendered image) :
  plot_deck_async d basic (width, height) deck_name gap = Ok out →
  0 ≤ gap →
  1 ≤ (width - 100) / (750 + gap) →
  ∀ name cv (i j : nat) a b p q,
    (name, cv) ∈ files out →
    pasted cv !! i = Some (a, p) → pasted cv !! j = Some (b, q) →
    i ≠ j → apart p q.
Proof.
  intros Hrun Hgap Hcol name cv i j a b p q Hin Hi Hj Hij.
  destruct (file_slots _ _ _ _ _ _ _ Hrun _ _ _ _ _ Hin Hi) as [-> _].
  destruct (file_slots _ _ _ _ _ _ _ Hrun _ _ _ _ _ Hin Hj) as [-> _].
  unfold apart, slot. simpl.
  set (c := (width - 100) / (750 + gap)) in *.
  pose proof (Z.div_mod (Z.of_nat i) c ltac:(lia)) as Hdi.
  pose proof (Z.div_mod (Z.of_nat j) c ltac:(lia)) as Hdj.
  destruct (Z.lt_total (Z.of_nat i / c) (Z.of_nat j / c)) as [Hq|[Hq|Hq]];
    [left; nia| |right; left; nia].
  destruct (Z.lt_total (Z.of_nat i mod c) (Z.of_nat j mod c))
    as [Hr|[Hr|Hr]];
    [right; right; left; nia|lia|right; right; right; nia].
Qed.

(** X9.  When the layout has as many rows as columns (at least one) and
    the gap is not negative, every image of every file lies inside the
    margins of the page: 50 pixels from each edge. *)
Theorem square_grid_inside (d : deck) (basic : bool) (width height : Z)
    (deck_name : string) (gap : Z) (out : rendered image) :
  plot_deck_async d basic (width, height) deck_name gap = Ok out →
  0 ≤ gap →
  1 ≤ (width - 100) / (750 + gap) →
  (height - 100) / (1050 + gap) = (width - 100) / (750 + gap) →
  ∀ name cv (i : nat) img x y,
    (name, cv) ∈ files out → pasted cv !! i = Some (img, (x, y)) →
    50 ≤ x ∧ x + 750 ≤ width - 50 ∧ 50 ≤ y ∧ y + 1050 ≤ height - 50.
Proof.
  intros Hrun Hgap Hcol Hrows name cv i img x y Hin Hi.
  destruct (file_slots _ _ _ _ _ _ _ Hrun _ _ _ _ _ Hin Hi) as [Hxy Hlt].
  pose proof (Z.mul_div_le (height - 100) (1050 + gap) ltac:(lia)) as Hh.
  pose proof (Z.mul_div_le (width - 100) (750 + gap) ltac:(lia)) as Hw.
  rewrite Hrows in Hlt, Hh.
  set (c := (width - 100) / (750 + gap)) in *.
  assert (Z.of_nat i < c * c) as Hi' by (apply Hlt; nia).
  assert (0 ≤ Z.of_nat i / c < c) as Hq.
  { split; [apply Z.div_pos; lia|apply Z.div_lt_upper_bound; lia]. }
  pose proof (Z.mod_pos_bound (Z.of_nat i) c ltac:(lia)) as Hr.
  unfold slot in Hxy. injection Hxy as -> ->. nia.
Qed.

(** X10.  The quotient by the number of columns moves an image along x,
    so on a page with more rows than columns the later images leave the
    page: with a gap that is not negative, an image at position
    [columns * (columns + 1)] or later on its page is pasted to the right
    of [width - 50]. *)
Theorem tall_grid_off_page (d : deck) (basic : bool) (width height : Z)
    (deck_name : string) (gap : Z) (out : rendered image) :
  plot_deck_async d basic (width, height) deck_name gap = Ok out →
  0 ≤ gap →
  let columns := (width - 100) / (750 + gap) in
  1 ≤ columns →
  ∀ name cv (i : nat) img x y,
    (name, cv) ∈ files out → pasted cv !! i = Some (img, (x, y)) →
    columns * (columns + 1) ≤ Z.of_nat i →
    width - 50 < x.
Proof.
  intros Hrun Hgap columns Hcol name cv i img x y Hin Hi Hlate.
  destruct (file_slots _ _ _ _ _ _ _ Hrun _ _ _ _ _ Hin Hi) as [Hxy _].
  pose proof (Z.mul_succ_div_gt (width - 100) (750 + gap) ltac:(lia)) as Hw.
  fold columns in Hxy, Hw.
  assert (columns + 1 ≤ Z.of_nat i / columns) as Hq
    by (apply Z.div_le_lower_bound; lia).
  unfold slot in Hxy. injection Hxy as -> _. nia.
Qed.

(** X11.  The total that a render returns is [round(_, 2)] of the prices
    times the quantities added up over all the entries in deck order,
    basic lands that are left off the sheet included; it does not depend
    on [basic], on the page, on the name or on the gap. *)
Theorem price_counts_every_entry (d : deck) (basic : bool)
    (dimensions : Z * Z) (deck_name : string) (gap : Z)
    (out : rendered image) :
  plot_deck_async d basic dimensions deck_name gap = Ok out →
  ∃ p,
    sum_prices (all_cards d) 0 = Ok p
    ∧ total_price out = round2 p
    ∧ ∀ basic' dimensions' deck_name' gap' out',
        plot_deck_async d basic' dimensions' deck_name' gap' = Ok out' →
        total_price out' = total_price out.
Proof.
  destruct dimensions as [width height]. intros Hrun.
  apply plot_deck_async_sheet in Hrun
    as (st & _ & _ & _ & Hsum & _ & _ & _ & Hprice).
  exists (deck_price st). repeat (split; [done|]).
  intros basic' [width' height'] deck_name' gap' out' Hrun'.
  apply plot_deck_async_sheet in Hrun'
    as (st' & _ & _ & _ & Hsum' & _ & _ & _ & Hprice').
  rewrite Hsum in Hsum'. injection Hsum' as Heq.
  by rewrite Hprice, Hprice', Heq.
Qed.
End SheetFacts.

(** Witness of X5: five copies on pages of four; the fifth image is
    alone on the trailing canvas and is not saved. *)
Lemma sheet_printed_witness :
  ∃ out,
    Sample.plot_deck_async (Deck [Card "Shock" 5] []) true (1700, 2300)
      "burn" 0 = Ok out
    ∧ printed (Plotter.files out) = replicate 4 "shock.jpg"
    ∧ ∃ imgs,
        sheet Sample.fetch_card_data Sample.fetch_image Sample.float_of_str
          true (all_cards (Deck [Card "Shock" 5] [])) = Ok imgs
        ∧ printed (Plotter.files out)
          = if lost_image
                 ((1700 - 100) / (750 + 0) * ((2300 - 100) / (1050 + 0)))
                 (Z.of_nat (length imgs))
            then removelast imgs else imgs.
Proof.
  eexists. split; [vm_compute; reflexivity|]. split; [reflexivity|].
  refine (sheet_printed Sample.fetch_card_data Sample.fetch_image
            Sample.float_of_str Sample.round2
            (Deck [Card "Shock" 5] []) true 1700 2300 "burn" 0 _ _).
  vm_compute. reflexivity.
Defined.

(** Witness of X6: six images on pages of four make two files. *)
Lemma number_of_files_witness :
  ∃ out,
    Sample.plot_deck_async (Deck [Card "Shock" 6] []) true (1700, 2300)
      "burn" 0 = Ok out
    ∧ length (Plotter.files out) = 2%nat
    ∧ ∃ imgs,
        sheet Sample.fetch_card_data Sample.fetch_image Sample.float_of_str
          true (all_cards (Deck [Card "Shock" 6] [])) = Ok imgs
        ∧ Z.of_nat (length (Plotter.files out))
          = Z.of_nat (length imgs)
            / ((1700 - 100) / (750 + 0) * ((2300 - 100) / (1050 + 0)))
            + (if 1 <? Z.of_nat (length imgs)
                       mod ((1700 - 100) / (750 + 0)
                            * ((2300 - 100) / (1050 + 0)))
               then 1 else 0).
Proof.
  eexists. split; [vm_compute; reflexivity|]. split; [reflexivity|].
  refine (number_of_files Sample.fetch_card_data Sample.fetch_image
            Sample.float_of_str Sample.round2
            (Deck [Card "Shock" 6] []) true 1700 2300 "burn" 0 _ _ _).
  - vm_compute. reflexivity.
  - vm_compute. discriminate.
Defined.

(** Witness of X7: a page 1000 pixels high has two columns and no row;
    three images go to one file, the third in the second column. *)
Lemma short_page_witness :
  ∃ out,
    Sample.plot_deck_async (Deck [Card "Shock" 3] []) true (1700, 1000)
      "burn" 0 = Ok out
    ∧ (Plotter.pasted <$> (Plotter.files out).*2)
      = [ [("shock.jpg", (50, 50)); ("shock.jpg", (50, 1100));
           ("shock.jpg", (800, 50))] ]
    ∧ ∃ imgs,
        sheet Sample.fetch_card_data Sample.fetch_image Sample.float_of_str
          true (all_cards (Deck [Card "Shock" 3] [])) = Ok imgs
        ∧ Plotter.files out
          = if 1 <? Z.of_nat (length imgs)
            then [("burn" +:+ "_" +:+ str_of_int 1 +:+ ".png",
                   laid_out (1700, 1000) ((1700 - 100) / (750 + 0)) 0 imgs)]
            else [].
Proof.
  eexists. split; [vm_compute; reflexivity|]. split; [reflexivity|].
  refine (short_page Sample.fetch_card_data Sample.fetch_image
            Sample.float_of_str Sample.round2
            (Deck [Card "Shock" 3] []) true 1700 1000 "burn" 0 _ _ _).
  - vm_compute. reflexivity.
  - vm_compute. discriminate.
Defined.

(** Witness of X8: the six images of the two pages of C7. *)
Lemma cards_do_not_overlap_witness :
  ∃ out,
    Sample.plot_deck_async (Deck [Card "Shock" 6] []) true (1700, 2300)
      "burn" 0 = Ok out
    ∧ ∀ name cv (i j : nat) a b p q,
        (name, cv) ∈ Plotter.files out →
        Plotter.pasted cv !! i = Some (a, p) →
        Plotter.pasted cv !! j = Some (b, q) →
        i ≠ j → apart p q.
Proof.
  eexists. split; [vm_compute; reflexivity|].
  refine (cards_do_not_overlap Sample.fetch_card_data Sample.fetch_image
            Sample.float_of_str Sample.round2
            (Deck [Card "Shock" 6] []) true 1700 2300 "burn" 0 _ _ _ _).
  - vm_compute. reflexivity.
  - lia.
  - vm_compute. discriminate.
Defined.

(** Witness of X9: a Letter page at 300 PPI, 2551 by 3295 pixels, has
    three columns and three rows. *)
Lemma square_grid_inside_witness :
  ∃ out,
    Sample.plot_deck_async (Deck [Card "Shock" 9] []) true (2551, 3295)
      "burn" 0 = Ok out
    ∧ length (printed (Plotter.files out)) = 9%nat
    ∧ ∀ name cv (i : nat) img x y,
        (name, cv) ∈ Plotter.files out →
        Plotter.pasted cv !! i = Some (img, (x, y)) →
        50 ≤ x ∧ x + 750 ≤ 2551 - 50 ∧ 50 ≤ y ∧ y + 1050 ≤ 3295 - 50.
Proof.
  eexists. split; [vm_compute; reflexivity|]. split; [reflexivity|].
  refine (square_grid_inside Sample.fetch_card_data Sample.fetch_image
            Sample.float_of_str Sample.round2
            (Deck [Card "Shock" 9] []) true 2551 3295 "burn" 0 _ _ _ _ _).
  - vm_compute. reflexivity.
  - lia.
  - vm_compute. discriminate.
  - vm_compute. reflexivity.
Defined.

(** Witness of X10: a page of two columns and four rows; the seventh
    image of the page is pasted at x = 2300 on a page 1700 wide. *)
Lemma tall_grid_off_page_witness :
  ∃ out,
    Sample.plot_deck_async (Deck [Card "Shock" 8] []) true (1700, 4400)
      "burn" 0 = Ok out
    ∧ (∃ name cv, (name, cv) ∈ Plotter.files out
                  ∧ Plotter.pasted cv !! 6%nat
                    = Some ("shock.jpg", (2300, 50)))
    ∧ ∀ name cv (i : nat) img x y,
        (name, cv) ∈ Plotter.files out →
        Plotter.pasted cv !! i = Some (img, (x, y)) →
        (1700 - 100) / (750 + 0) * ((1700 - 100) / (750 + 0) + 1)
        ≤ Z.of_nat i →
        1700 - 50 < x.
Proof.
  eexists. split; [vm_compute; reflexivity|]. split.
  - eexists _, _. split; [apply list_elem_of_here|reflexivity].
  - refine (tall_grid_off_page Sample.fetch_card_data Sample.fetch_image
              Sample.float_of_str Sample.round2
              (Deck [Card "Shock" 8] []) true 1700 4400 "burn" 0 _ _ _ _).
    + vm_compute. reflexivity.
    + lia.
    + vm_compute. discriminate.
Defined.

(** Witness of X11: two Shocks at 1.50 and four Forests at 0.25 cost
    4.00, although the Forests are left off the sheet. *)
Lemma price_counts_every_entry_witness :
  ∃ out,
    Shop.plot_deck_async (Deck [Card "Shock" 2; Card "Forest" 4] []) false
      (1700, 2300) "burn" 0 = Ok out
    ∧ printed (Plotter.files out) = ["shock.jpg"; "shock.jpg"]
    ∧ Plotter.total_price out = 4%float
    ∧ ∃ p,
        sum_prices Shop.fetch_card_data Shop.float_of_str
          (all_cards (Deck [Card "Shock" 2; Card "Forest" 4] [])) 0 = Ok p
        ∧ Plotter.total_price out = Sample.round2 p
        ∧ ∀ basic' dimensions' deck_name' gap' out',
            Shop.plot_deck_async (Deck [Card "Shock" 2; Card "Forest" 4] [])
              basic' dimensions' deck_name' gap' = Ok out' →
            Plotter.total_price out' = Plotter.total_price out.
Proof.
  eexists. split; [vm_compute; reflexivity|]. split; [reflexivity|].
  split; [reflexivity|].
  refine (price_counts_every_entry Shop.fetch_card_data Sample.fetch_image
            Shop.float_of_str Sample.round2
            (Deck [Card "Shock" 2; Card "Forest" 4] []) false
            (1700, 2300) "burn" 0 _ _).
  vm_compute. reflexivity.
Defined.

(* ================================================================== *)
(** * Further properties: the deck file *)
(* ================================================================== *)

Section Words.
Import Main.

Lemma append_String (c : ascii) (a b : string) :
  String c a +:+ b = String c (a +:+ b).
Proof. reflexivity. Qed.

Lemma append_empty (b : string) : "" +:+ b = b.
Proof. reflexivity. Qed.

Lemma append_assoc (a b c : string) : (a +:+ b) +:+ c = a +:+ (b +:+ c).
Proof.
  induction a as [|x a IH]; [done|]. by rewrite !append_String, IH.
Qed.

Lemma append_empty_r (a : string) : a +:+ "" = a.
Proof. induction a as [|x a IH]; [done|]. by rewrite append_String, IH. Qed.

(** A character that is not whitespace starts a word. *)
Lemma split_cons (x : ascii) (a : string) :
  isspace x = false → split (String x a) ≠ [].
Proof.
  intros Hx. simpl. rewrite Hx.
  destruct (split a); [done|]. destruct a as [|y a]; [done|].
  by destruct (isspace y).
Qed.

Lemma split_nil_head (x : ascii) (a : string) :
  split (String x a) = [] → isspace x = true.
Proof.
  intros H. destruct (isspace x) eqn:Hx; [done|]. by apply split_cons in H.
Qed.

(** Splitting at a whitespace character. *)
Lemma split_app (a b : string) (c : ascii) :
  isspace c = true → split (a +:+ String c b) = split a ++ split b.
Proof.
  intros Hc. induction a as [|x a IH].
  - rewrite append_empty. simpl. by rewrite Hc.
  - rewrite append_String. simpl. rewrite IH.
    destruct (isspace x); [done|].
    destruct a as [|y a].
    + rewrite append_empty. simpl. rewrite Hc. by destruct (split b).
    + rewrite append_String. destruct (split (String y a)) as [|w ws] eqn:Hs.
      * apply split_nil_head in Hs. simpl. rewrite Hs.
        by destruct (split b).
      * simpl. by destruct (isspace y).
Qed.

Lemma split_word (w : string) : word w → split w = [w].
Proof.
  intros [Hne Hw]. induction w as [|x w IH]; [done|].
  simpl in Hw. apply andb_true_iff in Hw as [Hx%negb_true_iff Hw].
  simpl. rewrite Hx. destruct w as [|y w]; [done|].
  rewrite IH by done. simpl in Hw.
  apply andb_true_iff in Hw as [Hy%negb_true_iff _]. by rewrite Hy.
Qed.

Lemma split_words (s : string) : Forall word (split s).
Proof.
  induction s as [|x s IH]; simpl; [constructor|].
  destruct (isspace x) eqn:Hx; [done|].
  assert (word (String x "")) as Hone.
  { split; [done|]. simpl. by rewrite Hx. }
  destruct (split s) as [|w ws]; [by apply Forall_singleton|].
  destruct s as [|y s]; [by apply Forall_singleton|].
  destruct (isspace y); [by apply Forall_cons_2|].
  apply Forall_cons in IH as [[_ Hw] Hws]. apply Forall_cons_2; [|done].
  split; [done|]. simpl. by rewrite Hx, Hw.
Qed.

Lemma join_cons_cons (sep a b : string) (l : list string) :
  join sep (a :: b :: l) = a +:+ sep +:+ join sep (b :: l).
Proof. reflexivity. Qed.

(** Joining words by single spaces and splitting gives the words. *)
Lemma split_join (ws : list string) :
  Forall word ws → split (join " " ws) = ws.
Proof.
  induction 1 as [|w ws Hw Hws IH]; [done|].
  destruct ws as [|w' ws]; [by apply split_word|].
  rewrite join_cons_cons.
  change (w +:+ " " +:+ join " " (w' :: ws))
    with (w +:+ String " " (join " " (w' :: ws))).
  rewrite split_app by done. by rewrite IH, split_word.
Qed.

Lemma single_spaced_join (s : string) : single_spaced (join " " (split s)).
Proof.
  unfold single_spaced. by rewrite split_join by apply split_words.
Qed.

Lemma split_lstrip (s : string) : split (lstrip s) = split s.
Proof.
  induction s as [|x s IH]; [done|]. simpl.
  destruct (isspace x) eqn:Hx; [done|]. simpl. by rewrite Hx.
Qed.

Lemma rstrip_head (x : ascii) (s r : string) (y : ascii) :
  rstrip s = String y r → ∃ s', s = String y s'.
Proof.
  destruct s as [|z s]; [done|]. simpl.
  destruct (rstrip s); [destruct (isspace z)|]; intros [= -> _]; by eexists.
Qed.

Lemma split_rstrip (s : string) : split (rstrip s) = split s.
Proof.
  induction s as [|x s IH]; [done|]. simpl.
  destruct (rstrip s) as [|y r] eqn:Hr.
  - simpl in IH. rewrite <- IH.
    destruct (isspace x) eqn:Hx; [done|]. simpl. by rewrite Hx.
  - destruct (rstrip_head x s r y Hr) as [s' ->].
    change (split (String x (String y r))) with
      (if isspace x then split (String y r)
       else match split (String y r) with
            | w :: ws =>
                if isspace y then String x "" :: w :: ws
                else String x w :: ws
            | [] => [String x ""]
            end).
    by rewrite IH.
Qed.

Lemma split_strip (s : string) : split (strip s) = split s.
Proof. unfold strip. by rewrite split_rstrip, split_lstrip. Qed.

Lemma lstrip_head (s : string) (y : ascii) (r : string) :
  lstrip s = String y r → isspace y = false.
Proof.
  induction s as [|x s IH]; [done|]. simpl.
  destruct (isspace x) eqn:Hx; [done|]. by intros [= <- _].
Qed.

(** A line is blank exactly when it has no word. *)
Lemma blank_split (l : string) : blank l = true ↔ split l = [].
Proof.
  unfold blank. rewrite <- (split_strip l). split.
  - by intros ->%String.eqb_eq.
  - intros Hs. apply String.eqb_eq. unfold strip in *.
    destruct (lstrip l) as [|y r] eqn:Hl; [done|].
    apply lstrip_head in Hl. simpl in *.
    destruct (rstrip r); [rewrite Hl in *|]; by apply split_nil_head in Hs;
      rewrite Hl in Hs.
Qed.

(** ** [int] reads what [str] writes *)

Lemma digitpart_cons (c c' : ascii) (r : string)
    (d : Decimal.uint → Decimal.uint) :
  digit c = Some d → Ascii.eqb c' "_" = false →
  digitpart (String c (String c' r)) = d <$> digitpart (String c' r).
Proof.
  intros Hd Hc.
  change (digitpart (String c (String c' r)))
    with (match digit c with
          | None => None
          | Some d => if Ascii.eqb c' "_" then d <$> digitpart r
                      else d <$> digitpart (String c' r)
          end).
  by rewrite Hd, Hc.
Qed.

Lemma digitpart_string_of_uint (d : Decimal.uint) :
  d ≠ Decimal.Nil → digitpart (NilEmpty.string_of_uint d) = Some d.
Proof.
  induction d as [|d IH|d IH|d IH|d IH|d IH|d IH|d IH|d IH|d IH|d IH];
    intros Hd; [done|..];
    (destruct d; [reflexivity|..]);
    cbn [NilEmpty.string_of_uint] in *;
    erewrite digitpart_cons by reflexivity;
    rewrite IH by done; reflexivity.
Qed.

Lemma length_string_of_uint (d : Decimal.uint) :
  String.length (NilEmpty.string_of_uint d) = Decimal.nb_digits d.
Proof. induction d; simpl; congruence. Qed.

Lemma string_of_uint_head (d : Decimal.uint) :
  d ≠ Decimal.Nil →
  ∃ c r, NilEmpty.string_of_uint d = String c r
         ∧ Ascii.eqb c "-" = false ∧ Ascii.eqb c "+" = false.
Proof. destruct d; [done|..]; intros _; by eexists _, _. Qed.

Lemma spaceless_string_of_uint (d : Decimal.uint) :
  spaceless (NilEmpty.string_of_uint d) = true.
Proof. induction d; simpl; [done|..]; by rewrite IHd. Qed.

Section IntFacts.
Variable int_max_str_digits : nat.
#[local] Abbreviation int := (int int_max_str_digits).

Lemma int_str_of_int (q : Z) :
  (int_max_str_digits = 0
   ∨ String.length (str_of_int q) ≤ int_max_str_digits)%nat →
  int (str_of_int q) = Return q.
Proof.
  intros Hlim. unfold str_of_int in *.
  rewrite <- (DecimalZ.of_to q) at 2.
  assert (∀ d, d ≠ Decimal.Nil →
            (int_max_str_digits = 0
             ∨ Decimal.nb_digits d ≤ int_max_str_digits)%nat →
            ∀ negative : bool,
              match digitpart (NilEmpty.string_of_uint d) with
              | None => Throw ValueError
              | Some d =>
                  let n := Decimal.nb_digits d in
                  if (640 <? n)%nat && (0 <? int_max_str_digits)%nat
                     && (int_max_str_digits <? n)%nat
                  then Throw ValueError
                  else Return (if negative then - Z.of_uint d
                               else Z.of_uint d)
              end
              = Return (if negative then - Z.of_uint d else Z.of_uint d))
    as Hbody.
  { intros d Hd Hn negative. rewrite digitpart_string_of_uint by done.
    cbv zeta.
    destruct (Nat.ltb_spec 0 int_max_str_digits),
             (Nat.ltb_spec int_max_str_digits (Decimal.nb_digits d)),
             (640 <? Decimal.nb_digits d)%nat; simpl; try done; lia. }
  assert (∀ d, d ≠ Decimal.Nil →
            NilZero.string_of_uint d = NilEmpty.string_of_uint d) as Hnz
    by (by intros []).
  destruct (Z.to_int q) as [d|d] eqn:Hq; simpl in *.
  - assert (d ≠ Decimal.Nil) as Hd.
    { destruct q; simpl in Hq; try discriminate; injection Hq as <-;
        [done|apply Unsigned.to_uint_nonnil]. }
    rewrite Hnz in * by done.
    rewrite length_string_of_uint in Hlim.
    destruct (string_of_uint_head d Hd) as (c & r & Hs & Hm & Hp).
    unfold Main.int. rewrite Hs, Hm, Hp, <- Hs. by apply (Hbody d Hd Hlim false).
  - assert (d ≠ Decimal.Nil) as Hd.
    { destruct q; simpl in Hq; try discriminate. injection Hq as <-.
      apply Unsigned.to_uint_nonnil. }
    rewrite Hnz in * by done.
    rewrite length_string_of_uint in Hlim.
    unfold Main.int. simpl. apply (Hbody d Hd ltac:(lia) true).
Qed.

Lemma word_str_of_int (q : Z) : word (str_of_int q).
Proof.
  unfold str_of_int.
  assert (∀ d, word (NilZero.string_of_uint d)) as Hw.
  { intros d. destruct d; [done|..];
      (split; [done|apply (spaceless_string_of_uint (_ d))]). }
  destruct (Z.to_int q) as [d|d]; simpl; [apply Hw|].
  destruct (Hw d) as [_ Hd]. split; [done|]. simpl. by rewrite Hd.
Qed.
End IntFacts.
End Words.

Section DeckFile.
Import Main.
Variable int_max_str_digits : nat.
#[local] Abbreviation int := (int int_max_str_digits).
#[local] Abbreviation entry_of := (entry int_max_str_digits).
#[local] Abbreviation read_line := (read_line int_max_str_digits).
#[local] Abbreviation read_lines := (read_lines int_max_str_digits).
#[local] Abbreviation read_deckfile := (read_deckfile int_max_str_digits).
#[local] Abbreviation nonblank := (λ l : string, negb (blank l)).
#[local] Abbreviation gives := (λ (l : string) (c : card), entry_of l = Return c).

Lemma entry_strip (l : string) : entry_of (strip l) = entry_of l.
Proof. unfold entry. by rewrite split_strip. Qed.

Lemma int_raises (p : string) (e : exn) : int p = Throw e → e = ValueError.
Proof.
  unfold Main.int. destruct (match p with String _ _ => _ | _ => _ end).
  destruct (digitpart _); [|by intros [= <-]].
  cbv zeta. destruct (_ && _); [by intros [= <-]|done].
Qed.

(** A line that is not blank has a first part: what [entry] raises there
    is the [ValueError] of [int]. *)
Lemma entry_raises (l : string) (e : exn) :
  blank l = false → entry_of l = Throw e → e = ValueError.
Proof.
  intros Hb. unfold entry.
  destruct (split l) as [|p ws] eqn:Hs.
  - apply blank_split in Hs. congruence.
  - simpl. destruct (int p) as [q|e'] eqn:Hq; [done|].
    intros [= <-]. by apply int_raises in Hq.
Qed.

Lemma read_line_blank (l : string) (st : locals) :
  blank l = true →
  read_line l st = Return (Locals (the_maindeck st) (the_sidedeck st) true).
Proof. unfold Main.read_line, blank. by intros ->. Qed.

Lemma read_line_entry (l : string) (st : locals) :
  blank l = false →
  read_line l st
  = (c ← entry_of l;
     Return (if sideboard st
             then Locals (the_maindeck st) (the_sidedeck st ++ [c]) true
             else Locals (the_maindeck st ++ [c]) (the_sidedeck st) false)).
Proof.
  unfold Main.read_line, blank. intros ->.
  rewrite <- entry_strip. unfold entry.
  destruct (first_part _) as [p|]; [simpl|done].
  destruct (int p); [simpl|done]. by destruct (sideboard st).
Qed.

(** After the blank line every entry goes to the sideboard. *)
Lemma read_lines_sideboard (ls : list string) (m s : list card)
    (st' : locals) :
  read_lines ls (Locals m s true) = Return st' ↔
  ∃ side, Forall2 gives (List.filter nonblank ls) side
          ∧ st' = Locals m (s ++ side) true.
Proof.
  revert s. induction ls as [|l ls IH]; intros s; simpl.
  - split.
    + intros [= <-]. exists []. by rewrite app_nil_r.
    + intros (side & ->%Forall2_nil_inv_l & ->). by rewrite app_nil_r.
  - destruct (blank l) eqn:Hb; simpl.
    + rewrite read_line_blank by done. simpl. apply IH.
    + rewrite read_line_entry by done. simpl.
      destruct (entry_of l) as [c|e] eqn:Hc; simpl.
      * rewrite IH. split.
        -- intros (side & Hside & ->). exists (c :: side).
           split; [by apply Forall2_cons|by rewrite <- app_assoc].
        -- intros (side & (c' & side' & Hc' & Hside & ->)%Forall2_cons_inv_l
                   & ->).
           rewrite Hc in Hc'. injection Hc' as <-. exists side'.
           split; [done|by rewrite <- app_assoc].
      * split; [done|].
        intros (side & (c' & side' & Hc' & _)%Forall2_cons_inv_l & _).
        congruence.
Qed.

(** Before the blank line every entry goes to the main deck. *)
Lemma read_lines_maindeck (ls : list string) (m s : list card)
    (st' : locals) :
  read_lines ls (Locals m s false) = Return st' ↔
  ∃ main side,
    Forall2 gives (before_blank ls) main
    ∧ Forall2 gives (after_blank ls) side
    ∧ st' = Locals (m ++ main) (s ++ side) (existsb blank ls).
Proof.
  revert m. induction ls as [|l ls IH]; intros m; simpl.
  - split.
    + intros [= <-]. exists [], []. by rewrite !app_nil_r.
    + intros (main & side & ->%Forall2_nil_inv_l & ->%Forall2_nil_inv_l
              & ->).
      by rewrite !app_nil_r.
  - destruct (blank l) eqn:Hb; simpl.
    + rewrite read_line_blank by done. simpl. rewrite read_lines_sideboard.
      split.
      * intros (side & Hside & ->). exists [], side. by rewrite app_nil_r.
      * intros (main & side & ->%Forall2_nil_inv_l & Hside & ->).
        exists side. by rewrite app_nil_r.
    + rewrite read_line_entry by done. simpl.
      destruct (entry_of l) as [c|e] eqn:Hc; simpl.
      * rewrite IH. split.
        -- intros (main & side & Hmain & Hside & ->).
           exists (c :: main), side.
           split; [by apply Forall2_cons|]. split; [done|].
           by rewrite <- app_assoc.
        -- intros (main & side
                   & (c' & main' & Hc' & Hmain & ->)%Forall2_cons_inv_l
                   & Hside & ->).
           rewrite Hc in Hc'. injection Hc' as <-. exists main', side.
           split; [done|]. split; [done|]. by rewrite <- app_assoc.
      * split; [done|].
        intros (main & side & (c' & ? & Hc' & _)%Forall2_cons_inv_l & _).
        congruence.
Qed.

(** The loop raises exactly when a line that is not blank has a first
    word that [int] refuses. *)
Lemma read_lines_raises (ls : list string) (st : locals) (e : exn) :
  read_lines ls st = Throw e ↔
  e = ValueError
  ∧ Exists (λ l, blank l = false ∧ entry_of l = Throw ValueError) ls.
Proof.
  revert st. induction ls as [|l ls IH]; intros st; simpl.
  - split; [done|]. by intros [_ ?%Exists_nil].
  - rewrite Exists_cons. destruct (blank l) eqn:Hb.
    + rewrite read_line_blank by done. simpl. rewrite IH.
      split; [tauto|]. intros [-> [[? _]|?]]; done.
    + rewrite read_line_entry by done. simpl.
      destruct (entry_of l) as [c|e'] eqn:Hc; simpl.
      * rewrite IH. split; [tauto|]. intros [-> [[_ ?]|?]]; done.
      * pose proof (entry_raises l e' Hb Hc) as ->.
        split; [intros [= <-]; tauto|]. by intros [-> _].
Qed.

(** ** The text of a deck *)

#[local] Abbreviation inline :=
  (λ s : string,
     Forall (λ c, c ≠ LF ∧ c ≠ ascii_of_nat 13) (list_ascii_of_string s)).

Lemma chars_app (a b : string) :
  list_ascii_of_string (a +:+ b)
  = list_ascii_of_string a ++ list_ascii_of_string b.
Proof.
  induction a as [|x a IH]; [done|]. rewrite append_String. simpl.
  by rewrite IH.
Qed.

Lemma spaceless_inline (s : string) : spaceless s = true → inline s.
Proof.
  induction s as [|x s IH]; simpl; [constructor|].
  intros [Hx%negb_true_iff Hs]%andb_true_iff.
  apply Forall_cons_2; [|by apply IH].
  split; intros ->; by vm_compute in Hx.
Qed.

Lemma join_inline (ws : list string) : Forall word ws → inline (join " " ws).
Proof.
  induction 1 as [|w ws [_ Hw] Hws IH]; [constructor|].
  destruct ws as [|w' ws]; [by apply spaceless_inline|].
  rewrite join_cons_cons, !chars_app. apply Forall_app. split.
  - by apply spaceless_inline.
  - apply Forall_app. split; [|done].
    apply Forall_singleton. split; intros [=].
Qed.

(** A line without line end, then a line feed, is one line. *)
Lemma lines_app (s rest : string) :
  inline s → lines (s +:+ String LF rest) = (s +:+ newline) :: lines rest.
Proof.
  induction s as [|x s IH]; intros Hs.
  - reflexivity.
  - apply Forall_cons in Hs as [[Hlf Hcr] Hs].
    rewrite !append_String. simpl.
    rewrite (proj2 (Ascii.eqb_neq _ _) Hlf), (proj2 (Ascii.eqb_neq _ _) Hcr).
    by rewrite IH.
Qed.

Lemma deck_line_inline (c : card) :
  single_spaced (cardname c) →
  ∃ s, inline s ∧ deck_line c = s +:+ String LF "".
Proof.
  intros Hname. exists (str_of_int (quantity c) +:+ " " +:+ cardname c).
  split.
  - rewrite !chars_app. apply Forall_app. split.
    + apply spaceless_inline, word_str_of_int.
    + apply Forall_app. split; [apply Forall_singleton; split; intros [=]|].
      rewrite <- Hname. apply join_inline, split_words.
  - unfold deck_line, newline. by rewrite !append_assoc.
Qed.

Lemma lines_deck_lines (cs : list card) (rest : string) :
  Forall (λ c, single_spaced (cardname c)) cs →
  lines (deck_lines cs +:+ rest) = (deck_line <$> cs) ++ lines rest.
Proof.
  induction 1 as [|c cs Hc Hcs IH]; [done|].
  simpl deck_lines. rewrite append_assoc.
  destruct (deck_line_inline c Hc) as (s & Hs & Heq).
  rewrite fmap_cons, Heq, append_assoc, append_String, append_empty.
  by rewrite lines_app, IH.
Qed.

Lemma split_deck_line (c : card) :
  split (deck_line c) = str_of_int (quantity c) :: split (cardname c).
Proof.
  unfold deck_line, newline.
  change (str_of_int (quantity c) +:+ " " +:+ cardname c +:+ String LF "")
    with (str_of_int (quantity c)
          +:+ String " " (cardname c +:+ String LF "")).
  rewrite !split_app by done.
  rewrite (split_word _ (word_str_of_int _)). simpl. by rewrite app_nil_r.
Qed.

Lemma entry_deck_line (c : card) :
  single_spaced (cardname c) →
  (int_max_str_digits = 0
   ∨ String.length (str_of_int (quantity c)) ≤ int_max_str_digits)%nat →
  entry_of (deck_line c) = Return c.
Proof.
  intros Hname Hq. unfold entry. rewrite split_deck_line. simpl.
  rewrite int_str_of_int by done. simpl. rewrite Hname. by destruct c.
Qed.

Lemma blank_deck_line (c : card) : blank (deck_line c) = false.
Proof.
  destruct (blank (deck_line c)) eqn:Hb; [|done].
  apply blank_split in Hb. by rewrite split_deck_line in Hb.
Qed.

Lemma before_blank_deck_lines (cs : list card) (ls : list string) :
  before_blank ((deck_line <$> cs) ++ newline :: ls) = deck_line <$> cs.
Proof.
  induction cs as [|c cs IH]; [done|].
  rewrite fmap_cons, <- app_comm_cons. cbn [before_blank].
  by rewrite blank_deck_line, IH.
Qed.

Lemma filter_deck_lines (cs : list card) :
  List.filter nonblank (deck_line <$> cs) = deck_line <$> cs.
Proof.
  induction cs as [|c cs IH]; [done|].
  rewrite fmap_cons. cbn [List.filter].
  by rewrite blank_deck_line, IH.
Qed.

Lemma after_blank_deck_lines (cs cs' : list card) :
  after_blank ((deck_line <$> cs) ++ newline :: (deck_line <$> cs'))
  = deck_line <$> cs'.
Proof.
  induction cs as [|c cs IH].
  - apply filter_deck_lines.
  - rewrite fmap_cons, <- app_comm_cons. cbn [after_blank].
    by rewrite blank_deck_line.
Qed.

Lemma ascii_text_app (a b : string) :
  ascii_text (a +:+ b) = ascii_text a && ascii_text b.
Proof.
  induction a as [|x a IH]; [done|]. rewrite append_String. simpl.
  by rewrite IH, andb_assoc.
Qed.

Lemma ascii_text_str_of_int (q : Z) : ascii_text (str_of_int q) = true.
Proof.
  unfold str_of_int.
  assert (∀ d, ascii_text (NilEmpty.string_of_uint d) = true) as Hd
    by (induction d; simpl; done).
  assert (∀ d, ascii_text (NilZero.string_of_uint d) = true) as Hz
    by (intros []; try done; apply (Hd (_ _))).
  destruct (Z.to_int q); simpl; by rewrite ?Hz.
Qed.

Lemma ascii_text_deck_lines (cs : list card) :
  Forall (λ c, ascii_text (cardname c) = true) cs →
  ascii_text (deck_lines cs) = true.
Proof.
  induction 1 as [|c cs Hc _ IH]; [done|]. simpl. unfold deck_line.
  by rewrite !ascii_text_app, ascii_text_str_of_int, Hc, IH.
Qed.

(** X12.  For a file of ASCII text, [read_deckfile] returns the deck [d]
    exactly when the lines before the first blank line give the entries
    of the main deck, in order, and the lines after it that are not blank
    give the entries of the sideboard: a second blank line changes
    nothing, and a line of whitespace counts as blank. *)
Theorem read_deckfile_sections (files : string → path_state)
    (filename text : string) (d : deck) :
  files filename = File text →
  ascii_text text = true →
  read_deckfile files filename = Return d
  ↔ Forall2 (λ l c, entry_of l = Return c)
      (before_blank (lines text)) (maindeck d)
    ∧ Forall2 (λ l c, entry_of l = Return c)
        (after_blank (lines text)) (sidedeck d).
Proof.
  intros Hfile _. unfold Main.read_deckfile. rewrite Hfile. split.
  - destruct (read_lines _ _) as [st|] eqn:Hst; [|done].
    intros [= <-]. apply read_lines_maindeck in Hst
      as (main & side & Hmain & Hside & ->).
    done.
  - intros [Hmain Hside].
    assert (read_lines (lines text) (Locals [] [] false)
            = Return (Locals (maindeck d) (sidedeck d)
                        (existsb blank (lines text)))) as ->.
    { apply read_lines_maindeck. by exists (maindeck d), (sidedeck d). }
    simpl. by destruct d.
Qed.

(** X13.  A deck written an entry a line ("{quantity} {name}"), with a
    blank line before the sideboard, is an ASCII text that is read back
    as the deck it was, when the names are ASCII words with single spaces
    between them and the quantities are within the digit limit of
    [int]. *)
Theorem read_deckfile_round_trip (files : string → path_state)
    (filename : string) (d : deck) :
  files filename = File (deck_text d) →
  Forall (λ c, ascii_text (cardname c) = true
               ∧ single_spaced (cardname c)
               ∧ (int_max_str_digits = 0
                  ∨ String.length (str_of_int (quantity c))
                    ≤ int_max_str_digits)%nat)
    (all_cards d) →
  ascii_text (deck_text d) = true
  ∧ read_deckfile files filename = Return d.
Proof.
  intros Hfile [Hmain Hside]%Forall_app. split.
  { unfold deck_text.
    rewrite !ascii_text_app, !ascii_text_deck_lines; [done|..];
      (eapply Forall_impl; [eassumption|]); by intros c (? & _). }
  unfold Main.read_deckfile. rewrite Hfile.
  assert (lines (deck_text d)
          = (deck_line <$> maindeck d)
            ++ newline :: (deck_line <$> sidedeck d)) as ->.
  { unfold deck_text.
    rewrite lines_deck_lines
      by (eapply Forall_impl; [exact Hmain|]; by intros c (_ & ? & _)).
    change (newline +:+ deck_lines (sidedeck d))
      with ("" +:+ String LF (deck_lines (sidedeck d))).
    rewrite lines_app by constructor.
    rewrite <- (append_empty_r (deck_lines (sidedeck d))).
    rewrite lines_deck_lines
      by (eapply Forall_impl; [exact Hside|]; by intros c (_ & ? & _)).
    simpl lines. by rewrite app_nil_r. }
  assert (read_lines ((deck_line <$> maindeck d)
                      ++ newline :: (deck_line <$> sidedeck d))
            (Locals [] [] false)
          = Return (Locals (maindeck d) (sidedeck d)
                      (existsb blank
                         ((deck_line <$> maindeck d)
                          ++ newline :: (deck_line <$> sidedeck d)))))
    as ->.
  { apply read_lines_maindeck. exists (maindeck d), (sidedeck d).
    rewrite before_blank_deck_lines, after_blank_deck_lines.
    split; [|split; [|done]]; apply Forall2_fmap_l, Forall_Forall2_diag;
      (eapply Forall_impl; [eassumption|]);
      intros c (_ & ? & ?); by apply entry_deck_line. }
  simpl. by destruct d.
Qed.

(** X14.  Whatever the spacing of a file of ASCII text, the names that
    [read_deckfile] returns are made of words without whitespace with
    single spaces between them. *)
Theorem read_deckfile_names (files : string → path_state)
    (filename text : string) (d : deck) :
  files filename = File text →
  ascii_text text = true →
  read_deckfile files filename = Return d →
  Forall (λ c, single_spaced (cardname c)
               ∧ ∃ ws, Forall word ws ∧ cardname c = join " " ws)
    (all_cards d).
Proof.
  intros Hfile _. unfold Main.read_deckfile. rewrite Hfile.
  destruct (read_lines _ _) as [st|] eqn:Hst; [|done]. intros [= <-].
  apply read_lines_maindeck in Hst as (main & side & Hmain & Hside & ->).
  unfold all_cards. simpl.
  assert (∀ ls cs, Forall2 gives ls cs →
            Forall (λ c, single_spaced (cardname c)
                         ∧ ∃ ws, Forall word ws ∧ cardname c = join " " ws)
              cs) as Hnames.
  { intros ls cs H. induction H as [|l c ls cs Hc _ IH]; [constructor|].
    apply Forall_cons_2; [|done]. unfold entry in Hc.
    pose proof (split_words l) as Hw.
    destruct (split l) as [|p ws]; [done|]. simpl in Hc.
    destruct (int p); [|done]. injection Hc as <-. simpl.
    apply Forall_cons in Hw as [_ Hw]. split.
    - unfold single_spaced. by rewrite split_join.
    - by exists ws. }
  apply Forall_app. split; by eapply Hnames.
Qed.

(** X15.  [read_deckfile] raises [FileNotFoundError] exactly when the
    path does not exist, and what [path.open] raises exactly when the
    path exists and cannot be opened; on a file of ASCII text it raises
    only [ValueError], exactly when some line that is not blank starts
    with a word that [int] refuses: the first part of a line is never
    missing. *)
Theorem read_deckfile_raises (files : string → path_state)
    (filename : string) (e : exn) :
  (∀ text, files filename = File text → ascii_text text = true) →
  read_deckfile files filename = Throw e
  ↔ (files filename = Missing ∧ e = FileNotFoundError)
    ∨ (∃ kind, files filename = Unopenable kind ∧ e = OSError kind)
    ∨ (∃ text,
         files filename = File text
         ∧ e = ValueError
         ∧ Exists (λ l, blank l = false ∧ entry_of l = Throw ValueError)
             (lines text)).
Proof.
  intros _. unfold Main.read_deckfile.
  destruct (files filename) as [|text|kind].
  - split.
    + intros [= <-]. by left.
    + by intros [[_ ->]|[(? & ? & _)|(? & ? & _)]].
  - destruct (read_lines _ _) as [st|e'] eqn:Hst; simpl.
    + split; [done|].
      intros [[? _]|[(? & ? & _)|(? & [= <-] & Hraise)]]; [done..|].
      apply (read_lines_raises _ (Locals [] [] false)) in Hraise.
      congruence.
    + apply read_lines_raises in Hst as [-> Hst]. split.
      * intros [= <-]. right. right. by exists text.
      * by intros [[? _]|[(? & ? & _)|(? & _ & -> & _)]].
  - split.
    + intros [= <-]. right. left. by exists kind.
    + by intros [[? _]|[(? & [= <-] & ->)|(? & ? & _)]].
Qed.
End DeckFile.

(** Witness of X12: two lines, a blank line and a line. *)
Lemma read_deckfile_sections_witness :
  let text := "4 Shock" +:+ newline +:+ "20 Forest" +:+ newline
              +:+ newline +:+ "2 Opt" +:+ newline in
  let d := Deck [Card "Shock" 4; Card "Forest" 20] [Card "Opt" 2] in
  Main.read_deckfile 4300 (λ _, Main.File text) "deck.txt" = Main.Return d
  ∧ (Main.read_deckfile 4300 (λ _, Main.File text) "deck.txt"
     = Main.Return d
     ↔ Forall2 (λ l c, entry 4300 l = Main.Return c)
         (before_blank (Main.lines text)) (maindeck d)
       ∧ Forall2 (λ l c, entry 4300 l = Main.Return c)
           (after_blank (Main.lines text)) (sidedeck d)).
Proof.
  intros text d. split; [vm_compute; reflexivity|].
  apply (read_deckfile_sections 4300 (λ _, Main.File text) "deck.txt"
           text d); reflexivity.
Defined.

(** Witness of X13: a main deck of two entries and a sideboard of one, at
    the default digit limit. *)
Lemma read_deckfile_round_trip_witness :
  let d := Deck [Card "Lightning Bolt" 4; Card "Forest" 20]
             [Card "Naturalize" 2] in
  deck_text d
  = "4 Lightning Bolt" +:+ newline +:+ "20 Forest" +:+ newline
    +:+ newline +:+ "2 Naturalize" +:+ newline
  ∧ ascii_text (deck_text d) = true
  ∧ Main.read_deckfile 4300 (λ _, Main.File (deck_text d)) "deck.txt"
    = Main.Return d.
Proof.
  intros d. split; [reflexivity|].
  apply (read_deckfile_round_trip 4300 (λ _, Main.File (deck_text d))
           "deck.txt" d); [reflexivity|].
  unfold d, all_cards. simpl.
  repeat (apply Forall_cons_2;
          [split; [reflexivity|split;
                   [vm_compute; reflexivity
                   |right; apply Nat.leb_le; vm_compute; reflexivity]]|]).
  apply Forall_nil_2.
Defined.

(** Witness of X14: a file with runs of spaces and a line of one
    space. *)
Lemma read_deckfile_names_witness :
  let text := "4   Lightning   Bolt  " +:+ newline +:+ " " +:+ newline
              +:+ "  2 Naturalize" in
  ∃ d,
    Main.read_deckfile 4300 (λ _, Main.File text) "deck.txt" = Main.Return d
    ∧ d = Deck [Card "Lightning Bolt" 4] [Card "Naturalize" 2]
    ∧ Forall (λ c, single_spaced (cardname c)
                   ∧ ∃ ws, Forall word ws ∧ cardname c = join " " ws)
        (all_cards d).
Proof.
  intros text. eexists. split; [vm_compute; reflexivity|].
  split; [reflexivity|].
  refine (read_deckfile_names 4300 (λ _, Main.File text) "deck.txt" text
            _ _ _ _); [reflexivity|reflexivity|].
  vm_compute. reflexivity.
Defined.

(** Witness of X15: a line without a quantity. *)
Lemma read_deckfile_raises_witness :
  let text := "Lightning Bolt" +:+ newline in
  Main.read_deckfile 4300 (λ _, Main.File text) "deck.txt"
  = Main.Throw Main.ValueError
  ∧ Main.read_deckfile 4300 (λ _, Main.Unopenable "IsADirectoryError") "decks"
    = Main.Throw (Main.OSError "IsADirectoryError")
  ∧ (Main.read_deckfile 4300 (λ _, Main.File text) "deck.txt"
     = Main.Throw Main.ValueError
     ↔ ((λ _ : string, Main.File text) "deck.txt" = Main.Missing
        ∧ Main.ValueError = Main.FileNotFoundError)
       ∨ (∃ kind, (λ _ : string, Main.File text) "deck.txt"
                  = Main.Unopenable kind
                  ∧ Main.ValueError = Main.OSError kind)
       ∨ (∃ text',
            (λ _ : string, Main.File text) "deck.txt" = Main.File text'
            ∧ Main.ValueError = Main.ValueError
            ∧ Exists (λ l, blank l = false
                           ∧ entry 4300 l = Main.Throw Main.ValueError)
                (Main.lines text'))).
Proof.
  intros text. split; [vm_compute; reflexivity|].
  split; [reflexivity|].
  apply (read_deckfile_raises 4300 (λ _, Main.File text) "deck.txt"
           Main.ValueError).
  intros text' [= <-]. reflexivity.
Defined.

(* ================================================================== *)
(** * Further properties: the paper size *)
(* ================================================================== *)

Section Paper.
Import Main.
#[local] Set Warnings "-inexact-float".
Variable float_of_str : string → outcome float.
#[local] Abbreviation ask_dimensions := (ask_dimensions float_of_str).

Lemma paper_sizes_lookup (choice : string) :
  paper_sizes !! choice
  = if String.eqb choice "Letter" then Some (21.6, 27.9)%float
    else if String.eqb choice "A4" then Some (21.0, 29.7)%float
    else if String.eqb choice "Office" then Some (21.6, 33.0)%float
    else if String.eqb choice "Custom" then Some (0, 0)%float
    else None.
Proof.
  unfold paper_sizes.
  destruct (String.eqb_spec choice "Letter") as [->|H1]; [done|].
  rewrite lookup_insert_ne by done.
  destruct (String.eqb_spec choice "A4") as [->|H2]; [done|].
  rewrite lookup_insert_ne by done.
  destruct (String.eqb_spec choice "Office") as [->|H3]; [done|].
  rewrite lookup_insert_ne by done.
  destruct (String.eqb_spec choice "Custom") as [->|H4]; [done|].
  by rewrite lookup_singleton_ne.
Qed.

(** The replies that do not ask for "Custom": the first only says whether
    a choice follows, and a choice that is no key of the table is taken
    for "Letter". *)
Lemma ask_dimensions_preset (first : string) (more : list string) :
  asks_custom (first :: more) = false →
  ask_dimensions (first :: more)
  = if blank first then Return ((2551, 3295), more)
    else match more with
         | [] => Throw EOFError
         | second :: rest =>
             Return (if String.eqb (capitalize second) "A4"
                     then (2480, 3507)
                     else if String.eqb (capitalize second) "Office"
                     then (2551, 3897)
                     else (2551, 3295), rest)
         end.
Proof.
  unfold asks_custom, Main.ask_dimensions, blank. simpl.
  destruct (String.eqb (strip first) ""); simpl; [done|].
  destruct more as [|second rest]; simpl; [done|].
  intros Hc. rewrite paper_sizes_lookup, Hc.
  destruct (String.eqb_spec (capitalize second) "Letter") as [->|H1];
    [done|].
  destruct (String.eqb_spec (capitalize second) "A4") as [->|H2]; [done|].
  destruct (String.eqb_spec (capitalize second) "Office") as [->|H3];
    done.
Qed.

(** The replies that ask for "Custom". *)
Lemma ask_dimensions_custom (first second : string) (more : list string) :
  asks_custom (first :: second :: more) = true →
  ask_dimensions (first :: second :: more)
  = match more with
    | [] => Throw EOFError
    | w :: more' =>
        width_cm ← float_of_str w;
        match more' with
        | [] => Throw EOFError
        | h :: rest =>
            height_cm ← float_of_str h;
            width_px ← pixels width_cm;
            height_px ← pixels height_cm;
            Return ((width_px, height_px), rest)
        end
    end.
Proof.
  unfold asks_custom, Main.ask_dimensions, blank. simpl.
  intros [Hb%negb_true_iff Hc]%andb_true_iff. rewrite Hb. simpl.
  apply String.eqb_eq in Hc. rewrite Hc. simpl.
  destruct more as [|w [|h rest]]; simpl; [done|by destruct (float_of_str w)|].
  destruct (float_of_str w) as [width_cm|]; [simpl|done].
  destruct (float_of_str h) as [height_cm|]; [simpl|done].
  rewrite paper_sizes_lookup. simpl. by rewrite lookup_insert_eq.
Qed.

(** X16.  On replies of ASCII text, [ask_dimensions] reads the reply to
    its prompt twice: a blank first line gives the Letter page, 2551 by
    3295 pixels, and any other first line is dropped and the next line is
    the choice; end of input there raises [EOFError].  The choice is
    capitalized: "A4" gives 2480 by 3507, "Office" 2551 by 3897, "Custom"
    reads a width and a height in centimetres and converts each by
    [int(cm * 300 / 2.54)], and anything else gives the Letter page. *)
Theorem ask_dimensions_replies (stdin : list string) :
  Forall (λ reply, ascii_text reply = true) stdin →
  ask_dimensions stdin
  = match stdin with
    | [] => Throw EOFError
    | first :: more =>
        if blank first then Return ((2551, 3295), more)
        else match more with
             | [] => Throw EOFError
             | second :: more =>
                 let choice := capitalize second in
                 if String.eqb choice "Custom" then
                   match more with
                   | [] => Throw EOFError
                   | w :: more =>
                       width_cm ← float_of_str w;
                       match more with
                       | [] => Throw EOFError
                       | h :: rest =>
                           height_cm ← float_of_str h;
                           width_px ← pixels width_cm;
                           height_px ← pixels height_cm;
                           Return ((width_px, height_px), rest)
                       end
                   end
                 else
                   Return (if String.eqb choice "A4" then (2480, 3507)
                           else if String.eqb choice "Office"
                           then (2551, 3897)
                           else (2551, 3295), more)
             end
    end.
Proof.
  intros _. destruct stdin as [|first more]; [done|].
  destruct (asks_custom (first :: more)) eqn:Hc.
  - destruct more as [|second more]; [done|].
    rewrite ask_dimensions_custom by done. simpl in Hc.
    apply andb_true_iff in Hc as [Hb%negb_true_iff Hc].
    cbv zeta. by rewrite Hb, Hc.
  - rewrite ask_dimensions_preset by done.
    destruct (blank first) eqn:Hb; [done|].
    destruct more as [|second more]; [done|].
    simpl in Hc. rewrite Hb in Hc. simpl in Hc. cbv zeta. by rewrite Hc.
Qed.
End Paper.

(** Witness of X16: the first reply is dropped, the second is
    capitalized; a first reply alone ends the input. *)
Lemma ask_dimensions_replies_witness :
  let float_of_str := λ _ : string, Main.Throw Main.ValueError in
  Main.ask_dimensions float_of_str ["letter"; "office"; "left"]
  = Main.Return ((2551, 3897), ["left"])
  ∧ Main.ask_dimensions float_of_str ["A4"] = Main.Throw Main.EOFError
  ∧ Main.ask_dimensions float_of_str [" "; "A4"]
    = Main.Return ((2551, 3295), ["A4"]).
Proof.
  intros float_of_str.
  assert (∀ stdin : list string,
            forallb ascii_text stdin = true →
            Forall (λ reply, ascii_text reply = true) stdin) as Hascii.
  { intros stdin H. apply Forall_forall. intros reply Hin.
    rewrite forallb_forall in H. by apply H, list_elem_of_In. }
  split; [|split].
  - rewrite (ask_dimensions_replies float_of_str
               ["letter"; "office"; "left"]) by (by apply Hascii).
    reflexivity.
  - rewrite (ask_dimensions_replies float_of_str ["A4"])
      by (by apply Hascii).
    reflexivity.
  - rewrite (ask_dimensions_replies float_of_str [" "; "A4"])
      by (by apply Hascii).
    reflexivity.
Defined.

Section PaperAndSheet.
Import Plotter.
Context {image : Type}.
Variable fetch_card_data : string → result json.
Variable fetch_image : json → result image.
Variable float_of_str : string → result float.
Variable round2 : float → float.
Variable input_float : string → Main.outcome float.

(** X17.  A page size that [ask_dimensions] returns without being asked
    for "Custom" gives the sheet three columns and three rows at gap 0:
    every file of a render that returns holds at most nine images, each
    inside the page with a margin of 50 pixels. *)
Theorem preset_sheet_inside (stdin rest : list string)
    (dimensions : Z * Z) (d : deck) (basic : bool) (deck_name : string)
    (out : rendered image) :
  Main.ask_dimensions input_float stdin = Main.Return (dimensions, rest) →
  asks_custom stdin = false →
  plot_deck_async image fetch_card_data fetch_image float_of_str round2
    d basic dimensions deck_name 0 = Ok out →
  ∀ name cv,
    (name, cv) ∈ files out →
    (length (pasted cv) ≤ 9)%nat
    ∧ ∀ (i : nat) img x y,
        pasted cv !! i = Some (img, (x, y)) →
        50 ≤ x ∧ x + 750 ≤ dimensions.1 - 50
        ∧ 50 ≤ y ∧ y + 1050 ≤ dimensions.2 - 50.
Proof.
  intros Hask Hc Hrun name cv Hin.
  assert (∃ width height,
            dimensions = (width, height)
            ∧ (width - 100) / (750 + 0) = 3
            ∧ (height - 100) / (1050 + 0) = 3
            ∧ 2480 ≤ width ∧ 3295 ≤ height) as (w & h & -> & Hw & Hh & ?).
  { destruct stdin as [|first more]; [done|].
    rewrite ask_dimensions_preset in Hask by done.
    destruct (blank first).
    - injection Hask as <- _. exists 2551, 3295.
      repeat split; (reflexivity || lia).
    - destruct more as [|second more]; [done|].
      injection Hask as <- _.
      destruct (String.eqb _ "A4");
        [exists 2480, 3507; repeat split; (reflexivity || lia)|].
      destruct (String.eqb _ "Office");
        [exists 2551, 3897|exists 2551, 3295];
        repeat split; (reflexivity || lia). }
  pose proof (file_slots _ _ _ _ _ _ _ _ _ _ _ Hrun name cv) as Hslots.
  cbv zeta in Hslots. rewrite Hw, Hh in Hslots.
  assert (∀ (i : nat) img xy, pasted cv !! i = Some (img, xy) →
            (i < 9)%nat) as Hlt.
  { intros i img xy Hi. destruct (Hslots i img xy Hin Hi) as [_ Hlt]. lia. }
  split.
  - destruct (pasted cv !! 9%nat) as [[img xy]|] eqn:H9.
    + apply Hlt in H9. lia.
    + apply lookup_ge_None in H9. lia.
  - intros i img x y Hi. pose proof (Hlt _ _ _ Hi).
    destruct (Hslots i img (x, y) Hin Hi) as [Hxy _].
    unfold slot in Hxy. injection Hxy as -> ->. simpl.
    assert (0 ≤ Z.of_nat i / 3 < 3)
      by (split; [apply Z.div_pos|apply Z.div_lt_upper_bound]; lia).
    pose proof (Z.mod_pos_bound (Z.of_nat i) 3 ltac:(lia)). lia.
Qed.
End PaperAndSheet.

(** Witness of X17: the replies "y" and "a4" give the A4 page, on which
    ten copies make one file of nine images. *)
Lemma preset_sheet_inside_witness :
  ∃ out,
    Main.ask_dimensions (λ _, Main.Throw Main.ValueError) ["y"; "a4"]
    = Main.Return ((2480, 3507), [])
    ∧ Sample.plot_deck_async (Deck [Card "Shock" 10] []) true (2480, 3507)
        "burn" 0 = Ok out
    ∧ length (Plotter.files out) = 1%nat
    ∧ ∀ name cv,
        (name, cv) ∈ Plotter.files out →
        (length (Plotter.pasted cv) ≤ 9)%nat
        ∧ ∀ (i : nat) img x y,
            Plotter.pasted cv !! i = Some (img, (x, y)) →
            50 ≤ x ∧ x + 750 ≤ (2480, 3507).1 - 50
            ∧ 50 ≤ y ∧ y + 1050 ≤ (2480, 3507).2 - 50.
Proof.
  eexists. split; [vm_compute; reflexivity|].
  split; [vm_compute; reflexivity|]. split; [reflexivity|].
  refine (preset_sheet_inside Sample.fetch_card_data Sample.fetch_image
            Sample.float_of_str Sample.round2
            (λ _, Main.Throw Main.ValueError) ["y"; "a4"] []
            (2480, 3507) (Deck [Card "Shock" 10] []) true "burn" _ _ _ _).
  - vm_compute. reflexivity.
  - reflexivity.
  - vm_compute. reflexivity.
Defined.

(* ================================================================== *)
(** * Further properties: the pace of the requests *)
(* ================================================================== *)

Section Pace.
Import DeckChecker.
Variable format : string.
Variable cards : list card.
Variable t0 : Z.

Lemma held_total_insert (now : Z) (l : list phase) (i : nat) (p q : phase) :
  l !! i = Some p →
  held_total now (<[i:=q]> l) = held_total now l - held now p + held now q.
Proof.
  revert i. induction l as [|x l IH]; intros [|i] Hp; simpl in *;
    try discriminate.
  - injection Hp as ->. lia.
  - rewrite (IH i Hp). lia.
Qed.

(** While [dt] passes, a task that holds a permit has held it for [dt]
    more at most, and the others for no more. *)
Lemma held_total_tick (now dt : Z) (l : list phase) :
  0 ≤ dt →
  held_total (now + dt) l ≤ held_total now l + dt * census holds_permit l.
Proof.
  intros Hdt. induction l as [|p l IH]; simpl; [lia|].
  destruct p; simpl; lia.
Qed.

Lemma held_total_finished (now : Z) (l : list phase) :
  Forall (timely t0 now) l → t0 ≤ now →
  100 * census finished l ≤ held_total now l.
Proof.
  intros Hl Hnow. induction Hl as [|p l Hp _ IH]; simpl; [lia|].
  destruct p; simpl in *; lia.
Qed.

Ltac step_cases H :=
  unfold DeckChecker.step in H;
  repeat match type of H with
         | context [match ?x with _ => _ end] =>
             let E := fresh "E" in destruct x eqn:E; try discriminate H
         end;
  injection H as <-; simpl in *.

Lemma step_paced (ev : event) (st st' : state) :
  step format cards ev st = Some st' → paced t0 st → paced t0 st'.
Proof.
  intros H (Hnow & Hp & Hc & Ht & Hh). unfold paced.
  step_cases H; unfold SCRYFALL_DELAY in *.
  all: try match goal with
           | Hi : phases _ !! _ = Some _ |- _ =>
               pose proof (Forall_lookup_1 _ _ _ _ Ht Hi) as Hti;
               rewrite (census_insert _ _ _ _ _ Hi),
                 (held_total_insert _ _ _ _ _ Hi);
               simpl in *;
               split; [lia|]; split; [lia|]; split; [lia|];
               split; [apply Forall_insert; [done|simpl; lia]|lia]
           end.
  assert (0 ≤ dt) as Hdt by lia.
  pose proof (held_total_tick (now st) dt (phases st) Hdt).
  split; [lia|]. split; [lia|]. split; [lia|]. split; [|nia].
  eapply Forall_impl; [exact Ht|]. intros []; simpl; lia.
Qed.

Lemma run_paced (evs : list event) (st st' : state) :
  run format cards evs st = Some st' → paced t0 st → paced t0 st'.
Proof.
  revert st. induction evs as [|ev evs IH]; intros st H Hinv; simpl in H.
  - by injection H as <-.
  - destruct (step format cards ev st) as [st1|] eqn:Hs; [|discriminate].
    eauto using step_paced.
Qed.
End Pace.

Section PaceOfChecks.
Import DeckChecker.

Lemma started_paced (d : deck) (format : string) (t0 : Z) :
  paced t0 (started d format t0).
Proof.
  unfold paced, started, SEMAPHORE_PERMITS. simpl.
  rewrite census_replicate. simpl.
  split; [lia|]. split; [lia|]. split; [lia|]. split.
  - by apply Forall_replicate.
  - induction (length (all_cards d)); simpl; lia.
Qed.

(** X18.  The semaphore and the sleep bound the pace of the requests:
    when [check_all_cards] has run for [T] ms, at most [T / 10] requests
    have been answered, and none in the first 100 ms; so a deck of [n]
    cards is never checked in less than [10 * n] ms. *)
Theorem requests_paced (d : deck) (format : string) (t0 : Z)
    (evs : list event) (st : state) :
  check_all_cards d format t0 evs = Some st →
  10 * census finished (phases st) ≤ now st - t0
  ∧ (0 < census finished (phases st) → 100 ≤ now st - t0)
  ∧ (all_finished st = true →
     10 * Z.of_nat (length (all_cards d)) ≤ now st - t0).
Proof.
  intros Hrun. unfold check_all_cards in Hrun.
  pose proof (run_finished _ _ _ _ _ Hrun) as [Hlen _].
  apply (run_paced _ _ t0) in Hrun as (Hnow & _ & _ & Ht & Hh);
    [|apply started_paced].
  pose proof (held_total_finished t0 _ _ Ht Hnow) as Hfin.
  split; [lia|]. split.
  - clear Hh Hfin Hlen. induction Ht as [|p l Hp _ IH]; simpl; [lia|].
    destruct p; simpl in *; lia.
  - intros Hall. unfold started in Hlen. simpl in Hlen.
    rewrite length_replicate in Hlen. rewrite <- Hlen.
    unfold all_finished in Hall.
    assert (census finished (phases st) = Z.of_nat (length (phases st)))
      as Hcount; [|lia].
    clear -Hall. induction (phases st) as [|p l IH]; simpl in *; [done|].
    apply andb_true_iff in Hall as [-> Hl]. rewrite (IH Hl). lia.
Qed.

(** Witness of X18: two cards answered 100 ms after the start. *)
Lemma requests_paced_witness :
  let d := Deck [Card "Ponder" 1; Card "Opt" 1] [] in
  let evs := [Acquire 0; Acquire 1; Tick 100; Wake 0; Wake 1;
              Respond 1 (Failed "timeout");
              Respond 0 (Fetched (JObj ∅))] in
  ∃ st,
    check_all_cards d "modern" 0 evs = Some st
    ∧ now st = 100
    ∧ 10 * census finished (phases st) ≤ now st - 0
    ∧ (0 < census finished (phases st) → 100 ≤ now st - 0)
    ∧ (all_finished st = true →
       10 * Z.of_nat (length (all_cards d)) ≤ now st - 0).
Proof.
  intros d evs. eexists. split; [vm_compute; reflexivity|].
  split; [reflexivity|].
  apply (requests_paced d "modern" 0 evs). vm_compute. reflexivity.
Defined.
End PaceOfChecks.

(* ================================================================== *)
(** * The sheet, the pages and the columns *)
(* ================================================================== *)

Section SheetReturns.
Import Plotter.
Context {image : Type}.
Variable fetch_card_data : string → result json.
Variable fetch_image : json → result image.
Variable float_of_str : string → result float.
Variable round2 : float → float.
Variables (width height gap : Z) (deck_name : string) (basic : bool).
Variables (cards_per_row max_cards : Z).

#[local] Abbreviation place_copies :=
  (place_copies image width height gap deck_name cards_per_row max_cards).
#[local] Abbreviation place_images :=
  (place_images image width height gap deck_name cards_per_row max_cards).
#[local] Abbreviation process_cards :=
  (process_cards image fetch_card_data fetch_image float_of_str
     width height gap deck_name basic cards_per_row max_cards).
#[local] Abbreviation can_place :=
  (cards_per_row ≠ 0 ∧ 0 ≤ width ∧ 0 ≤ height).






End SheetReturns.

Section Pages.
Import Plotter.
Context {image : Type}.
Variable fetch_card_data : string → result json.
Variable fetch_image : json → result image.
Variable float_of_str : string → result float.
Variable round2 : float → float.

#[local] Abbreviation plot_deck_async :=
  (plot_deck_async image fetch_card_data fetch_image float_of_str round2).
#[local] Abbreviation sheet :=
  (sheet fetch_card_data fetch_image float_of_str).

(** C7.  In a render that returns, a placement that brings the count of
    the page to the capacity saves the page under
    "{deck_name}_{page_count}.png", adds one to the page number, resets
    the count to zero and starts a blank canvas; any other placement adds
    one to the count.  The loop over the deck ends in a state whose saved
    pages are full and numbered from 1 and whose canvas, the trailing
    page, holds the images that were placed after the last full page: the
    pages and the trailing page together hold the images of the deck.
    The files are the full pages and after them the trailing page, under
    the next number, iff it holds more than one image. *)
Theorem pagination (d : deck) (basic : bool) (width height : Z)
    (deck_name : string) (gap : Z) (out : rendered image) :
  plot_deck_async d basic (width, height) deck_name gap = Ok out →
  let columns := (width - 100) / (750 + gap) in
  let capacity := columns * ((height - 100) / (1050 + gap)) in
  (∀ img st, columns ≠ 0 →
     place image width height gap deck_name columns capacity img st
     = Ok (let cv := paste (the_canvas st) img
                       (slot columns gap (card_count st)) in
           if card_count st + 1 =? capacity
           then Locals (Canvas (width, height) []) 0 (page_count st + 1)
                  (deck_price st)
                  (saved st
                   ++ [(deck_name +:+ "_" +:+ str_of_int (page_count st)
                        +:+ ".png", cv)])
           else Locals cv (card_count st + 1) (page_count st)
                  (deck_price st) (saved st)))
  ∧ ∃ (st : locals image) (pages : list (canvas image))
      (imgs : list image),
      process_cards image fetch_card_data fetch_image float_of_str
        width height gap deck_name basic columns capacity
        (all_cards d) (first_page (width, height)) = Ok st
      ∧ sheet basic (all_cards d) = Ok imgs
      ∧ concat (images_on <$> pages) ++ images_on (the_canvas st) = imgs
      ∧ saved st = numbered deck_name 1 pages
      ∧ page_count st = 1 + Z.of_nat (length pages)
      ∧ card_count st = Z.of_nat (length (pasted (the_canvas st)))
      ∧ Forall (λ cv, Z.of_nat (length (pasted cv)) = capacity) pages
      ∧ (1 ≤ capacity → card_count st < capacity)
      ∧ files out
        = numbered deck_name 1
            (pages ++ if 1 <? card_count st then [the_canvas st] else [])
      ∧ (1 < card_count st →
         last (files out)
         = Some (deck_name +:+ "_" +:+ str_of_int (page_count st)
                 +:+ ".png", the_canvas st))
      ∧ (card_count st ≤ 1 → files out = saved st)
      ∧ ∀ (k : nat) name cv,
          files out !! k = Some (name, cv) →
          name = deck_name +:+ "_" +:+ str_of_int (1 + Z.of_nat k) +:+ ".png".
Proof.
  intros Hrun columns capacity.
  apply plot_deck_async_returns in Hrun
    as (Hw & Hh & st & Hst & Hpag & Hfiles & _).
  fold columns capacity in Hst, Hpag.
  split; [intros img st0 Hc; by apply place_ok|].
  destruct (process_cards_sheet _ _ _ _ _ _ _ _ _ _ _ _ _ Hst)
    as (imgs & Hsheet & Hpl & _).
  destruct Hpag as (_ & Hcc & _ & Hlt & pages & Hsv & Hpc & Hfull).
  exists st, pages, imgs.
  assert (files out
          = numbered deck_name 1
              (pages ++ if 1 <? card_count st then [the_canvas st] else []))
    as Hnum.
  { rewrite Hfiles, Hsv, Hpc.
    destruct (1 <? card_count st).
    - apply numbered_snoc.
    - by rewrite !app_nil_r. }
  split; [exact Hst|]. split; [exact Hsheet|]. split.
  { rewrite <- printed_numbered with (deck_name := deck_name) (first := 1).
    rewrite <- Hsv. exact Hpl. }
  split; [exact Hsv|]. split; [exact Hpc|]. split; [exact Hcc|]. split.
  { eapply Forall_impl; [exact Hfull|]. by intros cv (_ & ? & _). }
  split; [exact Hlt|]. split; [exact Hnum|]. split.
  { intros Hmore. rewrite Hfiles, (proj2 (Z.ltb_lt _ _) Hmore).
    by rewrite last_snoc. }
  split.
  { intros Hone. rewrite Hfiles, (proj2 (Z.ltb_ge _ _) Hone).
    by rewrite app_nil_r. }
  intros k name cv. rewrite Hnum. unfold numbered.
  rewrite list_lookup_imap_Some. by intros (? & _ & [= -> _]).
Qed.

(** X19.  A render only returns when the gap is neither -750 nor -1050,
    no side of the page is negative, the data and the images of every
    entry could be fetched and its price added and printed, and there is
    a column to place the images in, unless there is no image at all. *)
Theorem render_returns_only_if (d : deck) (basic : bool) (width height : Z)
    (deck_name : string) (gap : Z) (out : rendered image) :
  plot_deck_async d basic (width, height) deck_name gap = Ok out →
  750 + gap ≠ 0 ∧ 1050 + gap ≠ 0 ∧ 0 ≤ width ∧ 0 ≤ height
  ∧ ∃ imgs,
      sheet basic (all_cards d) = Ok imgs
      ∧ (imgs = [] ∨ (width - 100) / (750 + gap) ≠ 0).
Proof.
  intros Hrun.
  assert (750 + gap ≠ 0 ∧ 1050 + gap ≠ 0) as [Hg1 Hg2].
  { unfold Plotter.plot_deck_async, floordiv in Hrun.
    rewrite card_size in Hrun. simpl in Hrun.
    destruct (Z.eqb_spec (750 + gap) 0); [done|].
    by destruct (Z.eqb_spec (1050 + gap) 0). }
  apply plot_deck_async_returns in Hrun as (Hw & Hh & st & Hst & _).
  cbv zeta in Hst.
  destruct (process_cards_sheet _ _ _ _ _ _ _ _ _ _ _ _ _ Hst)
    as (imgs & Hsheet & Hpl & _).
  repeat (split; [done|]). exists imgs. split; [done|].
  destruct (decide ((width - 100) / (750 + gap) = 0)) as [Hz|]; [|by right].
  left. apply process_cards_zero in Hst as [p ->]; [|done].
  symmetry. exact Hpl.
Qed.
End Pages.

(** Witness of C7: six copies on pages of four; the first page is saved
    when it is full, the trailing page because it holds two images. *)
Lemma pagination_witness :
  ∃ out,
    Sample.plot_deck_async (Deck [Card "Shock" 6] []) true (1700, 2300)
      "burn" 0 = Ok out
    ∧ (Plotter.files out).*1 = ["burn_1.png"; "burn_2.png"]
    ∧ ∃ (st : Plotter.locals Sample.image)
        (pages : list (Plotter.canvas Sample.image))
        (imgs : list Sample.image),
        Plotter.process_cards Sample.image Sample.fetch_card_data
          Sample.fetch_image Sample.float_of_str 1700 2300 0 "burn" true
          ((1700 - 100) / (750 + 0))
          ((1700 - 100) / (750 + 0) * ((2300 - 100) / (1050 + 0)))
          (all_cards (Deck [Card "Shock" 6] [])) (first_page (1700, 2300))
        = Ok st
        ∧ sheet Sample.fetch_card_data Sample.fetch_image
            Sample.float_of_str true (all_cards (Deck [Card "Shock" 6] []))
          = Ok imgs
        ∧ concat (images_on <$> pages) ++ images_on (Plotter.the_canvas st)
          = imgs
        ∧ Plotter.saved st = numbered "burn" 1 pages
        ∧ Plotter.page_count st = 1 + Z.of_nat (length pages)
        ∧ Plotter.card_count st
          = Z.of_nat (length (Plotter.pasted (Plotter.the_canvas st)))
        ∧ Forall (λ cv, Z.of_nat (length (Plotter.pasted cv))
                        = (1700 - 100) / (750 + 0)
                          * ((2300 - 100) / (1050 + 0))) pages
        ∧ (1 ≤ (1700 - 100) / (750 + 0) * ((2300 - 100) / (1050 + 0)) →
           Plotter.card_count st
           < (1700 - 100) / (750 + 0) * ((2300 - 100) / (1050 + 0)))
        ∧ Plotter.files out
          = numbered "burn" 1
              (pages ++ if 1 <? Plotter.card_count st
                        then [Plotter.the_canvas st] else [])
        ∧ (1 < Plotter.card_count st →
           last (Plotter.files out)
           = Some ("burn" +:+ "_" +:+ str_of_int (Plotter.page_count st)
                   +:+ ".png", Plotter.the_canvas st))
        ∧ (Plotter.card_count st ≤ 1 →
           Plotter.files out = Plotter.saved st)
        ∧ ∀ (k : nat) name cv,
            Plotter.files out !! k = Some (name, cv) →
            name = "burn" +:+ "_" +:+ str_of_int (1 + Z.of_nat k) +:+ ".png".
Proof.
  eexists. split; [vm_compute; reflexivity|]. split; [reflexivity|].
  refine (proj2 (pagination Sample.fetch_card_data Sample.fetch_image
                   Sample.float_of_str Sample.round2
                   (Deck [Card "Shock" 6] []) true 1700 2300 "burn" 0 _ _)).
  vm_compute. reflexivity.
Defined.

(** Witness of X19: the render of the witness of C7. *)
Lemma render_returns_only_if_witness :
  ∃ out,
    Sample.plot_deck_async (Deck [Card "Shock" 6] []) true (1700, 2300)
      "burn" 0 = Ok out
    ∧ 750 + 0 ≠ 0 ∧ 1050 + 0 ≠ 0 ∧ 0 ≤ 1700 ∧ 0 ≤ 2300
    ∧ ∃ imgs,
        sheet Sample.fetch_card_data Sample.fetch_image Sample.float_of_str
          true (all_cards (Deck [Card "Shock" 6] [])) = Ok imgs
        ∧ (imgs = [] ∨ (1700 - 100) / (750 + 0) ≠ 0).
Proof.
  eexists. split; [vm_compute; reflexivity|].
  refine (render_returns_only_if Sample.fetch_card_data Sample.fetch_image
            Sample.float_of_str Sample.round2
            (Deck [Card "Shock" 6] []) true 1700 2300 "burn" 0 _ _).
  vm_compute. reflexivity.
Defined.


